(** * oc_validator: row parsing, row modelling and error mapping

    A shallow embedding of [oc_validator/table_reader.py] and of the
    data-facing half of [oc_validator/interface/gui.py]
    ([generate_error_colors], [model_row_default], [enrich_row],
    [map_errors_to_data], and [make_gui] up to the call of the template),
    with the properties of the annotated data model proved over it.

    Conventions of the embedding.
    - A Python [str] is a [string]; a character is a code point below 256.
    - A Python [int] is a [Z].
    - A [dict] is an association list in insertion order ([Py.dict]);
      assignment to a key keeps the position of a key that is already there.
    - A raised exception is the [Raise] outcome of the [Py.result] monad;
      the in-place mutation of the row models is explicit state passing
      (the models of different rows, and the [issues] lists of different
      items, are distinct objects in the source, so nothing is aliased).
    - A Python [float] is a rational; an operation on floats is the exact
      operation followed by a rounding, which is a parameter.
    - The random source is a parameter: the list of the values drawn, and
      the choice that [set.pop] makes. *)

From Stdlib Require Import ZArith Lia Ascii QArith Lqa.
From stdpp Require Import base tactics option list sorting strings pretty gmap.

(** ** The fragment of Python the program relies on *)

Module Py.

(** Exceptions.  [IndexError], [KeyError] and [ValueError] are the
    built-in ones the code can raise.  [MappingError] is the error kind
    the specification asks for; no path of the source raises it. *)
Inductive exn : Type :=
| IndexError
| KeyError (key : string)
| ValueError (literal : string)
| MappingError (rowIndex : Z) (fieldLabel : string) (itemIndex : Z).

Inductive result (A : Type) : Type :=
| Ok (a : A)
| Raise (e : exn).
Global Arguments Ok {A} a.
Global Arguments Raise {A} e.

Global Instance result_ret : MRet result := λ A a, Ok a.
Global Instance result_bind : MBind result := λ A B f r,
  match r with
  | Ok a => f a
  | Raise e => Raise e
  end.

(** A [for] loop that threads a state and stops at the first exception. *)
Fixpoint for_each {S A : Type} (body : S → A → result S)
    (s : S) (l : list A) : result S :=
  match l with
  | [] => Ok s
  | x :: l' => s' ← body s x; for_each body s' l'
  end.

(** A list comprehension whose element expression may raise. *)
Fixpoint comprehension {A B : Type} (f : A → result B)
    (l : list A) : result (list B) :=
  match l with
  | [] => Ok []
  | x :: l' => y ← f x; ys ← comprehension f l'; Ok (y :: ys)
  end.

(** [l[i]]: a negative index counts from the end. *)
Definition position (len : nat) (i : Z) : option nat :=
  if (0 <=? i)%Z then
    if (i <? Z.of_nat len)%Z then Some (Z.to_nat i) else None
  else
    if (- Z.of_nat len <=? i)%Z then Some (Z.to_nat (Z.of_nat len + i))
    else None.

Definition getitem {A : Type} (l : list A) (i : Z) : result A :=
  match position (length l) i with
  | Some k =>
      match l !! k with
      | Some x => Ok x
      | None => Raise IndexError
      end
  | None => Raise IndexError
  end.

(** [l[i] = x] *)
Definition setitem {A : Type} (l : list A) (i : Z) (x : A) : result (list A) :=
  match position (length l) i with
  | Some k => Ok (<[k := x]> l)
  | None => Raise IndexError
  end.

(** [enumerate(l)] *)
Fixpoint enumerate_from {A : Type} (start : Z) (l : list A) : list (Z * A) :=
  match l with
  | [] => []
  | x :: l' => (start, x) :: enumerate_from (start + 1) l'
  end.
Definition enumerate {A : Type} (l : list A) : list (Z * A) :=
  enumerate_from 0 l.

(** Dictionaries, in insertion order. *)
Abbreviation dict V := (list (string * V)) (only parsing).

Fixpoint dict_get {V : Type} (d : dict V) (k : string) : option V :=
  match d with
  | [] => None
  | (k', v) :: d' => if decide (k' = k) then Some v else dict_get d' k
  end.

(** [d[k]] *)
Definition dict_getitem {V : Type} (d : dict V) (k : string) : result V :=
  match dict_get d k with
  | Some v => Ok v
  | None => Raise (KeyError k)
  end.

(** [d[k] = v] *)
Fixpoint dict_set {V : Type} (d : dict V) (k : string) (v : V) : dict V :=
  match d with
  | [] => [(k, v)]
  | (k', v') :: d' =>
      if decide (k' = k) then (k', v) :: d' else (k', v') :: dict_set d' k v
  end.

Definition keys {V : Type} (d : dict V) : list string := fst <$> d.
Definition values {V : Type} (d : dict V) : list V := snd <$> d.

(** [str(i)] and the [{i}] of an f-string. *)
Definition str (i : Z) : string := pretty i.

(** Whitespace of [str.strip], [str.isspace] and of the regular
    expression classes [\s] and [\S], for code points below 256. *)
Definition isspace (c : ascii) : bool :=
  let n := Ascii.nat_of_ascii c in
  (Nat.leb 9 n && Nat.leb n 13) || (Nat.leb 28 n && Nat.leb n 32)
  || Nat.eqb n 133 || Nat.eqb n 160.

Fixpoint lstrip_with (space : ascii → bool) (s : string) : string :=
  match s with
  | String c s' => if space c then lstrip_with space s' else s
  | EmptyString => EmptyString
  end.
Definition rstrip_with (space : ascii → bool) (s : string) : string :=
  String.rev (lstrip_with space (String.rev s)).
Definition strip_with (space : ascii → bool) (s : string) : string :=
  rstrip_with space (lstrip_with space s).

(** [s.strip()] *)
Definition strip (s : string) : string := strip_with isspace s.

(** [s.startswith(p)], with the rest of [s] after [p]. *)
Fixpoint strip_prefix (p s : string) : option string :=
  match p, s with
  | EmptyString, _ => Some s
  | String a p', String b s' =>
      if decide (a = b) then strip_prefix p' s' else None
  | String _ _, EmptyString => None
  end.

(** [s.find(c)] for a single character: the text before the first
    occurrence, or [None] where Python returns [-1]. *)
Fixpoint before_first (c : ascii) (s : string) : option string :=
  match s with
  | EmptyString => None
  | String a s' =>
      if decide (a = c) then Some EmptyString
      else String a <$> before_first c s'
  end.

(** [s.split(sep)] for a non-empty separator: [skip] counts the
    characters of a separator still to be passed over, [cur] is the piece
    being read, reversed. *)
Fixpoint split_go (sep : string) (skip : nat) (cur : string)
    (s : string) : list string :=
  match s with
  | EmptyString => [String.rev cur]
  | String c s' =>
      match skip with
      | S k => split_go sep k cur s'
      | O =>
          match strip_prefix sep s with
          | Some _ =>
              String.rev cur
                :: split_go sep (String.length sep - 1) EmptyString s'
          | None => split_go sep 0 (String c cur) s'
          end
      end
  end.
Definition split (sep : string) (s : string) : list string :=
  split_go sep 0 EmptyString s.

(** [sep.join(l)] *)
Fixpoint join (sep : string) (l : list string) : string :=
  match l with
  | [] => EmptyString
  | x :: l' =>
      match l' with
      | [] => x
      | _ :: _ => x +:+ sep +:+ join sep l'
      end
  end.

(** [int(s)] on a string: surrounding whitespace is dropped, one sign is
    allowed, then decimal digits with single underscores between digits.
    The whitespace [int] drops is narrower than that of [str.strip]: the
    separators 28 to 31 are not part of it.  A literal of more digits than
    the interpreter allows is refused with [ValueError] as well: the digits
    are counted with their leading zeros and without sign, underscores and
    surrounding whitespace, and the limit is the interpreter's default,
    [sys.int_info.default_max_str_digits], which the program does not
    change.  Digits outside ASCII are not modelled. *)
Definition int_isspace (c : ascii) : bool :=
  let n := Ascii.nat_of_ascii c in
  (Nat.leb 9 n && Nat.leb n 13) || Nat.eqb n 32
  || Nat.eqb n 133 || Nat.eqb n 160.

Inductive int_state : Type := AtStart | AfterDigit | AfterUnderscore.

Fixpoint int_digits (st : int_state) (acc : Z) (s : string) : option Z :=
  match s with
  | EmptyString =>
      match st with AfterDigit => Some acc | _ => None end
  | String c s' =>
      match Ascii.is_nat c with
      | Some d => int_digits AfterDigit (10 * acc + Z.of_nat d)%Z s'
      | None =>
          if decide (c = "_"%char) then
            match st with
            | AfterDigit => int_digits AfterUnderscore acc s'
            | _ => None
            end
          else None
      end
  end.

Fixpoint int_count_digits (s : string) : N :=
  match s with
  | EmptyString => 0
  | String c s' =>
      match Ascii.is_nat c with
      | Some _ => N.succ (int_count_digits s')
      | None => int_count_digits s'
      end
  end.

Definition int_max_str_digits : N := 4300.

Definition int (s : string) : result Z :=
  let text := strip_with int_isspace s in
  let parsed :=
    match text with
    | String "-" ds => Z.opp <$> int_digits AtStart 0 ds
    | String "+" ds => int_digits AtStart 0 ds
    | ds => int_digits AtStart 0 ds
    end in
  match parsed with
  | Some z =>
      if (int_max_str_digits <? int_count_digits text)%N
      then Raise (ValueError s)
      else Ok z
  | None => Raise (ValueError s)
  end.

End Py.
Import Py.


(** ** [table_reader.py] *)

(** The two regular expressions of the item extractor have one shape,
    [((?:s1|s2|...):\S+)(?=\s|\])], and differ in the schemes only. *)
Module Re.

(** [\S+(?=\s|\])] at the start of [s]: the number of characters the
    greedy [\S+] keeps once the lookahead is satisfied, the longest
    candidate first. *)
Definition delimiter (c : ascii) : bool :=
  Py.isspace c || bool_decide (c = "]"%char).

Fixpoint nonspace_run (s : string) : option nat :=
  match s with
  | EmptyString => None
  | String c s' =>
      if Py.isspace c then None
      else
        match nonspace_run s' with
        | Some k => Some (S k)
        | None =>
            match s' with
            | String d _ => if delimiter d then Some 1 else None
            | EmptyString => None
            end
        end
  end.

Fixpoint take (n : nat) (s : string) : string :=
  match n, s with
  | S n', String c s' => String c (take n' s')
  | _, _ => EmptyString
  end.

(** One attempt at the start of [s]: the alternatives in order. *)
Fixpoint match_here (schemes : list string) (s : string) : option string :=
  match schemes with
  | [] => None
  | scheme :: schemes' =>
      let attempt :=
        rest ← Py.strip_prefix (scheme +:+ ":") s;
        k ← nonspace_run rest;
        Some (scheme +:+ ":" +:+ take k rest) in
      match attempt with
      | Some m => Some m
      | None => match_here schemes' s
      end
  end.

(** [finditer]: the matches from left to right with their start offsets,
    the scan resuming where a match ends; [skip] counts the characters of
    the last match still to be passed over. *)
Fixpoint scan (schemes : list string) (skip : nat) (offset : nat)
    (s : string) : list (nat * string) :=
  match s with
  | EmptyString => []
  | String _ s' =>
      match skip with
      | S k => scan schemes k (S offset) s'
      | O =>
          match match_here schemes s with
          | Some m =>
              (offset, m) :: scan schemes (String.length m - 1) (S offset) s'
          | None => scan schemes 0 (S offset) s'
          end
      end
  end.

Definition finditer (schemes : list string) (s : string) : list (nat * string) :=
  scan schemes 0 0 s.

End Re.

Definition agent_schemes : list string :=
  ["crossref"; "orcid"; "viaf"; "wikidata"; "ror"; "omid"].
Definition venue_schemes : list string :=
  ["doi"; "issn"; "isbn"; "url"; "wikidata"; "wikipedia"; "openalex"; "omid";
   "jid"; "arxiv"].

(** The body shared by [AgentItem._parse] and [VenueInfo._parse]. *)
Definition parse_ids (schemes : list string) (raw : string) : list string :=
  snd <$> Re.finditer schemes raw.

Definition parse_name (raw : string) : string :=
  match Py.before_first "[" raw with
  | Some before => Py.strip before
  | None => Py.strip raw
  end.

Module AgentItem.
Record t : Type := { _raw : string; name : string; ids : list string }.

Definition _parse (raw : string) : string * list string :=
  (parse_name raw, parse_ids agent_schemes raw).

Definition __init__ (raw : string) : t :=
  let '(name, ids) := _parse raw in
  {| _raw := raw; name := name; ids := ids |}.

Definition __str__ (self : t) : string := _raw self.
End AgentItem.

Module VenueInfo.
Record t : Type := { _raw : string; name : string; ids : list string }.

Definition _parse (raw : string) : string * list string :=
  (parse_name raw, parse_ids venue_schemes raw).

Definition __init__ (raw : string) : t :=
  let '(name, ids) := _parse raw in
  {| _raw := raw; name := name; ids := ids |}.

Definition __str__ (self : t) : string := _raw self.
End VenueInfo.

(** A raw row is what [csv.DictReader] yields: column name to cell text.
    [raw_row.get(k)] is [Py.dict_get]. *)
Abbreviation RawRow := (Py.dict string) (only parsing).

(** [if not value]: [None] and the empty string are both falsy. *)
Definition falsy (value : option string) : bool :=
  match value with
  | None => true
  | Some s => bool_decide (s = EmptyString)
  end.

Definition _parse_id_field (value : string) : list string :=
  if falsy (Some value) then [] else Py.split " " value.

Module MetadataRow.
Record t : Type := {
  _raw : Py.dict string;
  id : list string;
  title : option string;
  author : option (list AgentItem.t);
  pub_date : option string;
  venue : option VenueInfo.t;
  volume : option string;
  issue : option string;
  page : option string;
  type : option string;
  publisher : option (list AgentItem.t);
  editor : option (list AgentItem.t)
}.

Definition _parse_agent_field (value : option string) : option (list AgentItem.t) :=
  match value with
  | Some s =>
      if falsy value then None
      else Some (AgentItem.__init__ <$> Py.split "; " s)
  | None => None
  end.

Definition _parse_venue_field (value : option string) : option VenueInfo.t :=
  match value with
  | Some s => if falsy value then None else Some (VenueInfo.__init__ s)
  | None => None
  end.

Definition __init__ (raw_row : RawRow) : t := {|
  _raw := raw_row;
  id := _parse_id_field (default EmptyString (Py.dict_get raw_row "id"));
  title := Py.dict_get raw_row "title";
  author := _parse_agent_field (Py.dict_get raw_row "author");
  pub_date := Py.dict_get raw_row "pub_date";
  venue := _parse_venue_field (Py.dict_get raw_row "venue");
  volume := Py.dict_get raw_row "volume";
  issue := Py.dict_get raw_row "issue";
  page := Py.dict_get raw_row "page";
  type := Py.dict_get raw_row "type";
  publisher := _parse_agent_field (Py.dict_get raw_row "publisher");
  editor := _parse_agent_field (Py.dict_get raw_row "editor")
|}.

(** [[x] if x is not None else []] *)
Definition scalar (x : option string) : list string :=
  match x with
  | Some s => [s]
  | None => []
  end.

Definition agents (x : option (list AgentItem.t)) : list string :=
  match x with
  | Some l => AgentItem.__str__ <$> l
  | None => []
  end.

Definition flat_serialise (self : t) : Py.dict (list string) := [
  ("id", id self);
  ("title", scalar (title self));
  ("author", agents (author self));
  ("pub_date", scalar (pub_date self));
  ("venue", match venue self with Some v => [VenueInfo.__str__ v] | None => [] end);
  ("volume", scalar (volume self));
  ("issue", scalar (issue self));
  ("page", scalar (page self));
  ("type", scalar (type self));
  ("publisher", agents (publisher self));
  ("editor", agents (editor self))
].
End MetadataRow.

Module CitationsRow.
Record t : Type := {
  _raw : Py.dict string;
  citing_id : list string;
  citing_publication_date : option string;
  cited_id : list string;
  cited_publication_date : option string
}.

Definition __init__ (raw_row : RawRow) : t := {|
  _raw := raw_row;
  citing_id := _parse_id_field (default EmptyString (Py.dict_get raw_row "citing_id"));
  citing_publication_date := Py.dict_get raw_row "citing_publication_date";
  cited_id := _parse_id_field (default EmptyString (Py.dict_get raw_row "cited_id"));
  cited_publication_date := Py.dict_get raw_row "cited_publication_date"
|}.

Definition flat_serialise (self : t) : Py.dict (list string) := [
  ("citing_id", citing_id self);
  ("citing_publication_date", MetadataRow.scalar (citing_publication_date self));
  ("cited_id", cited_id self);
  ("cited_publication_date", MetadataRow.scalar (cited_publication_date self))
].
End CitationsRow.

(** The module-level readers. *)
Definition read_metadata_row (row_dict : RawRow) : MetadataRow.t :=
  MetadataRow.__init__ row_dict.

Definition read_citations_row (row_dict : RawRow) : CitationsRow.t :=
  CitationsRow.__init__ row_dict.

(** [Union[MetadataRow, CitationsRow]] *)
Inductive Row : Type :=
| Metadata (row : MetadataRow.t)
| Citations (row : CitationsRow.t).

Definition flat_serialise (row : Row) : Py.dict (list string) :=
  match row with
  | Metadata r => MetadataRow.flat_serialise r
  | Citations r => CitationsRow.flat_serialise r
  end.

(** [isinstance(row, CitationsRow)] *)
Definition is_citations (row : Row) : bool :=
  match row with
  | Citations _ => true
  | Metadata _ => false
  end.


(** ** [interface/gui.py]: the row model *)

(** One item of a field: [{"raw": ..., "item_id": ..., "issues": [...]}]. *)
Record ItemRecord : Type := {
  raw : string;
  item_id : string;
  issues : list string
}.

(** A modelled row: [{"contains_issue": ..., "row_idx": ..., "fields": {...}}]. *)
Record RowModel : Type := {
  contains_issue : bool;
  row_idx : Z;
  fields : Py.dict (list ItemRecord)
}.

(** The value built for one [(field_label, items_in_field)] pair. *)
Definition field_value_model (row_idx : Z) (field_label : string)
    (items_in_field : list string) : list ItemRecord :=
  match items_in_field with
  | [] =>
      [ {| raw := EmptyString;
           item_id := Py.str row_idx +:+ "-" +:+ field_label +:+ "-empty";
           issues := [] |} ]
  | _ =>
      (λ '(item_idx, item),
         {| raw := item;
            item_id := Py.str row_idx +:+ "-" +:+ field_label +:+ "-" +:+ Py.str item_idx;
            issues := [] |}) <$> Py.enumerate items_in_field
  end.

Definition model_row_default (row : Row) (row_idx : Z) : RowModel :=
  {| contains_issue := false;
     row_idx := row_idx;
     fields :=
       foldl (λ fields '(field_label, items_in_field),
                Py.dict_set fields field_label
                  (field_value_model row_idx field_label items_in_field))
             [] (flat_serialise row) |}.

(** ** [interface/gui.py]: the validation report and its mapping *)

(** [error_obj['position']['table']]: row index (as text) to field label to
    item indexes, [None] standing for the whole field. *)
Abbreviation FieldInfo := (Py.dict (option (list Z))) (only parsing).

(** An entry of the report, with the keys the code reads. *)
Module ErrorObject.
Record position_t : Type := { table : Py.dict FieldInfo }.
Record t : Type := {
  message : string;
  error_label : string;
  error_type : string;
  position : position_t
}.
End ErrorObject.

(** An entry of [out_errors]. *)
Module ErrorInfo.
Record t : Type := {
  message : string;
  label : string;
  level : string;
  color : string
}.
End ErrorInfo.

(** [if err_id not in data_item['issues']: data_item['issues'].append(err_id)] *)
Definition add_issue (err_id : string) (data_item : ItemRecord) : ItemRecord :=
  if bool_decide (err_id ∈ issues data_item) then data_item
  else {| raw := raw data_item;
          item_id := item_id data_item;
          issues := issues data_item ++ [err_id] |}.

(** The body of [for item_idx in items_indexes]: the item is looked up
    through the row's [fields] and updated where it lives. *)
Definition enrich_item (err_id field_label : string)
    (fields : Py.dict (list ItemRecord)) (item_idx : Z)
    : Py.result (Py.dict (list ItemRecord)) :=
  items ← Py.dict_getitem fields field_label;
  data_item ← Py.getitem items item_idx;
  items' ← Py.setitem items item_idx (add_issue err_id data_item);
  Ok (Py.dict_set fields field_label items').

(** The body of [for field_label, items_indexes in field_info.items()]. *)
Definition enrich_field (err_id : string) (fields : Py.dict (list ItemRecord))
    (entry : string * option (list Z)) : Py.result (Py.dict (list ItemRecord)) :=
  let '(field_label, items_indexes) := entry in
  let items_indexes := default [0%Z] items_indexes in
  Py.for_each (enrich_item err_id field_label) fields items_indexes.

(** The body of [for row_idx, field_info in error_obj['position']['table'].items()]:
    the key [row_idx] is bound and not used. *)
Definition enrich_table_entry (err_id : string)
    (fields : Py.dict (list ItemRecord)) (entry : string * FieldInfo)
    : Py.result (Py.dict (list ItemRecord)) :=
  let '(row_idx, field_info) := entry in
  Py.for_each (enrich_field err_id) fields field_info.

Definition enrich_row (modeled_row : RowModel) (error_obj : ErrorObject.t)
    (err_id : string) : Py.result RowModel :=
  fields' ←
    Py.for_each (enrich_table_entry err_id) (fields modeled_row)
      (ErrorObject.table (ErrorObject.position error_obj));
  Ok {| contains_issue := true;
        row_idx := row_idx modeled_row;
        fields := fields' |}.

(** The block "enrich data with error info" of [map_errors_to_data]:
    [out_data[i] = enrich_row(out_data[i], error_obj, err_id)] for every
    row index named by the error. *)
Definition enrich_rows (out_data : list RowModel) (error_obj : ErrorObject.t)
    (err_id : string) : Py.result (list RowModel) :=
  invalid_rows_indexes ←
    Py.comprehension Py.int
      (Py.keys (ErrorObject.table (ErrorObject.position error_obj)));
  Py.for_each
    (λ out_data i,
       row ← Py.getitem out_data i;
       row' ← enrich_row row error_obj err_id;
       Py.setitem out_data i row')
    out_data invalid_rows_indexes.

(** ** [interface/gui.py]: colour allocation *)

(** [int(x)] on a float truncates toward zero. *)
Definition int_of_float (x : Q) : Z := Z.quot (Qnum x) (Z.pos (Qden x)).

Definition hex_digit (n : N) : ascii :=
  match n with
  | 0 => "0" | 1 => "1" | 2 => "2" | 3 => "3" | 4 => "4" | 5 => "5"
  | 6 => "6" | 7 => "7" | 8 => "8" | 9 => "9" | 10 => "a" | 11 => "b"
  | 12 => "c" | 13 => "d" | 14 => "e" | _ => "f"
  end%N%char.

Fixpoint hex_go (fuel : nat) (n : N) (acc : string) : string :=
  match fuel with
  | O => acc
  | S fuel' =>
      if (n =? 0)%N then acc
      else hex_go fuel' (N.shiftr n 4) (String (hex_digit (N.land n 15)) acc)
  end.

(** [format(n, 'x')] for [n >= 0]. *)
Definition hex (n : N) : string :=
  if (n =? 0)%N then "0" else hex_go (N.size_nat n) n EmptyString.

(** ['{:02x}'.format(k)]: lowercase hexadecimal, padded with zeros to two
    characters, the sign of a negative number counting as one of them. *)
Definition format_02x (k : Z) : string :=
  let digits := hex (Z.abs_N k) in
  if (k <? 0)%Z then "-" +:+ digits
  else if Nat.ltb (String.length digits) 2 then "0" +:+ digits
  else digits.

(** [f"{table_type}-{err_idx}"] *)
Definition error_id (table_type : string) (err_idx : Z) : string :=
  table_type +:+ "-" +:+ Py.str err_idx.

(** [[model_row_default(row, idx) for idx, row in enumerate(data)]] *)
Definition model_rows (data : list Row) : list RowModel :=
  (λ '(idx, row), model_row_default row idx) <$> Py.enumerate data.

Section ColorAllocator.

(** Floats are rationals; an arithmetic operation on floats is the exact
    operation followed by the rounding [fl] to a representable value. *)
Variable fl : Q → Q.

(** [colorsys.hsv_to_rgb], from the standard library's source. *)
Definition hsv_to_rgb (h s v : Q) : Q * Q * Q :=
  if Qeq_bool s 0 then (v, v, v)
  else
    let i := int_of_float (fl (h * 6)) in
    let f := fl (fl (h * 6) - inject_Z i) in
    let p := fl (v * fl (1 - s)) in
    let q := fl (v * fl (1 - fl (s * f))) in
    let t := fl (v * fl (1 - fl (s * fl (1 - f)))) in
    let i := (i mod 6)%Z in
    if (i =? 0)%Z then (v, t, p)
    else if (i =? 1)%Z then (q, v, p)
    else if (i =? 2)%Z then (p, v, t)
    else if (i =? 3)%Z then (p, q, v)
    else if (i =? 4)%Z then (t, p, v)
    else (v, p, q).

Definition hex_color (rgb : Q * Q * Q) : string :=
  let '(r, g, b) := rgb in
  "#" +:+ format_02x (int_of_float (fl (r * 255)))
      +:+ format_02x (int_of_float (fl (g * 255)))
      +:+ format_02x (int_of_float (fl (b * 255))).

(** The [while] loop of [generate_error_colors].  The random source is
    explicit: [draws] lists, iteration by iteration, the values returned
    by [random.random()], [random.uniform(0.5, 0.9)] and
    [random.uniform(0.7, 0.95)].  The loop has no bound of its own;
    [None] is a run that is still looping when the draws are used up. *)
Fixpoint generate_error_colors_loop (draws : list (Q * Q * Q)) (n : nat)
    (colors : gset string) : option (gset string) :=
  if decide (size colors < n) then
    match draws with
    | [] => None
    | (h, s, v) :: draws' =>
        generate_error_colors_loop draws' n
          ({[ hex_color (hsv_to_rgb h s v) ]} ∪ colors)
    end
  else Some colors.

Definition generate_error_colors (draws : list (Q * Q * Q)) (n : nat)
    : option (gset string) :=
  generate_error_colors_loop draws n ∅.

End ColorAllocator.

(** ** [interface/gui.py]: the error mapper *)

Section ErrorMapper.

(** The rounding of float operations, for colour allocation. *)
Variable fl : Q → Q.

(** [colors.pop()] removes and returns an arbitrary element: which one is
    left to [choice]. *)
Variable choice : gset string → nat.

Definition set_pop (colors : gset string) : Py.result (string * gset string) :=
  match elements colors !! (choice colors mod size colors) with
  | Some c => Ok (c, colors ∖ {[ c ]})
  | None => Raise (KeyError "pop from an empty set")
  end.

(** The body of [for err_idx, error_obj in enumerate(report)], on the
    state [(out_data, out_errors, colors)]. *)
Definition map_error (table_type : string)
    (state : list RowModel * Py.dict ErrorInfo.t * gset string)
    (entry : Z * ErrorObject.t)
    : Py.result (list RowModel * Py.dict ErrorInfo.t * gset string) :=
  let '(out_data, out_errors, colors) := state in
  let '(err_idx, error_obj) := entry in
  let err_id := error_id table_type err_idx in
  '(c, colors) ← set_pop colors;
  let out_errors :=
    Py.dict_set out_errors err_id
      {| ErrorInfo.message := ErrorObject.message error_obj;
         ErrorInfo.label := ErrorObject.error_label error_obj;
         ErrorInfo.level := ErrorObject.error_type error_obj;
         ErrorInfo.color := c |} in
  out_data ← enrich_rows out_data error_obj err_id;
  Ok (out_data, out_errors, colors).

Definition table_type_of (first : Row) : string :=
  if is_citations first then "cits" else "meta".

(** [map_errors_to_data]: [None] only when colour allocation does not
    come to an end on the given draws. *)
Definition map_errors_to_data (draws : list (Q * Q * Q)) (data : list Row)
    (report : list ErrorObject.t)
    : option (Py.result (list RowModel * Py.dict ErrorInfo.t)) :=
  let out_data := model_rows data in
  match Py.getitem data 0 with
  | Raise e => Some (Raise e)
  | Ok first =>
      let table_type := table_type_of first in
      colors ← generate_error_colors fl draws (length report);
      Some ('(out_data, out_errors, _) ←
              Py.for_each (map_error table_type) (out_data, [], colors)
                (Py.enumerate report);
            Ok (out_data, out_errors))
  end.

End ErrorMapper.

(** ** [interface/gui.py]: the page *)

(** [item_separators] of [make_gui]: the text that stands between the
    items of a field, for the fields that hold more than one item. *)
Definition item_separators : Py.dict string :=
  [ ("citing_id", " "); ("cited_id", " "); ("id", " ");
    ("author", "; "); ("publisher", "; "); ("editor", "; ") ].

(** What [make_gui] writes: the page for a valid table, copied as it is,
    or the rendering of the template on the keyword arguments given here. *)
Inductive Page : Type :=
| ValidPage
| InvalidPage (error_count : nat) (data : list RowModel)
    (errors : Py.dict ErrorInfo.t) (item_separators : Py.dict string).

Section Gui.

Variable fl : Q → Q.
Variable choice : gset string → nat.

(** [make_gui], from the report and the table as read from their files to
    the page written.  The files are read without error in the runs the
    model covers; the table is looked at only past the test on the report,
    as in the source; the script and the style sheet are passed through to
    the template and are left out. *)
Definition make_gui (draws : list (Q * Q * Q)) (report : list ErrorObject.t)
    (raw_data : list RawRow) : option (Py.result Page) :=
  match report with
  | [] => Some (Ok ValidPage)
  | _ :: _ =>
      match Py.getitem raw_data 0 with
      | Raise e => Some (Raise e)
      | Ok first =>
          let table_type :=
            if Nat.ltb 4 (length (Py.keys first)) then "meta" else "cits" in
          let parser : RawRow → Row :=
            if bool_decide (table_type = "meta")
            then λ row, Metadata (MetadataRow.__init__ row)
            else λ row, Citations (CitationsRow.__init__ row) in
          let structured_data := parser <$> raw_data in
          outcome ← map_errors_to_data fl choice draws structured_data report;
          Some ('(mapped_data, mapped_errors) ← outcome;
                Ok (InvalidPage (length mapped_errors) mapped_data
                      mapped_errors item_separators))
      end
  end.

End Gui.

(** ** Vocabulary of the statements *)

(** *** Identifiers in a raw item *)

(** No character of [s] is whitespace. *)
Fixpoint all_nonspace (s : string) : bool :=
  match s with
  | EmptyString => true
  | String c s' => negb (Py.isspace c) && all_nonspace s'
  end.

(** [id] is a scheme of [schemes], a colon and a text that is not empty
    and has no whitespace. *)
Definition identifier_of (schemes : list string) (id : string) : Prop :=
  ∃ scheme body,
    scheme ∈ schemes
    ∧ id = scheme +:+ ":" +:+ body
    ∧ body ≠ EmptyString
    ∧ all_nonspace body = true.

(** [id] stands in [raw] at [offset], immediately before a whitespace
    character or a closing bracket. *)
Definition delimited_at (raw : string) (offset : nat) (id : string) : Prop :=
  ∃ pre d post,
    raw = pre +:+ id +:+ String d post
    ∧ String.length pre = offset
    ∧ Re.delimiter d = true.

(** Two matches of a scan, the first ending before the second starts. *)
Definition ends_before (a b : nat * string) : Prop :=
  a.1 + String.length a.2 ≤ b.1.

(** *** Items of a modelled row *)

(** The placeholder item of an empty field. *)
Definition sentinel_item (row_idx : Z) (field_label : string) : ItemRecord :=
  {| raw := EmptyString;
     item_id := Py.str row_idx +:+ "-" +:+ field_label +:+ "-empty";
     issues := [] |}.

(** The item of the value at position [i] of a field that has values. *)
Definition value_item (row_idx : Z) (field_label : string) (i : Z)
    (value : string) : ItemRecord :=
  {| raw := value;
     item_id := Py.str row_idx +:+ "-" +:+ field_label +:+ "-" +:+ Py.str i;
     issues := [] |}.

(** Every item of a row, field after field. *)
Definition all_items (m : RowModel) : list ItemRecord :=
  concat (Py.values (fields m)).

(** No character of [s] is a dash. *)
Fixpoint no_dash (s : string) : bool :=
  match s with
  | EmptyString => true
  | String c s' => negb (bool_decide (c = "-"%char)) && no_dash s'
  end.

(** The text after the label in the identifiers of a field. *)
Definition id_suffixes (items_in_field : list string) : list string :=
  match items_in_field with
  | [] => ["empty"]
  | _ => Py.str <$> seqZ 0 (Z.of_nat (length items_in_field))
  end.

(** The scalar fields of a metadata row. *)
Definition scalar_fields : list string :=
  ["title"; "pub_date"; "volume"; "issue"; "page"; "type"].

(** A field of a raw metadata row ends up as the placeholder item of the
    row's model. *)
Definition modelled_as_sentinel (raw_row : RawRow) (field : string)
    (row_idx : Z) : Prop :=
  let row := Metadata (MetadataRow.__init__ raw_row) in
  Py.dict_get (flat_serialise row) field = Some []
  ∧ Py.dict_get (fields (model_row_default row row_idx)) field
    = Some [sentinel_item row_idx field].

(** A field of a raw metadata row is passed through as the text [s]. *)
Definition modelled_as_value (raw_row : RawRow) (field : string)
    (row_idx : Z) (s : string) : Prop :=
  let row := Metadata (MetadataRow.__init__ raw_row) in
  Py.dict_get (flat_serialise row) field = Some [s]
  ∧ Py.dict_get (fields (model_row_default row row_idx)) field
    = Some [value_item row_idx field 0 s].

(** *** Issues and flags *)

(** The identifiers of the first [n] errors of a report, in report order. *)
Definition report_ids (table_type : string) (n : Z) : list string :=
  error_id table_type <$> seqZ 0 n.

(** The [issues] of the item at position [k] of the field [label] of the
    row at position [i]. *)
Definition issues_at (out_data : list RowModel) (i : nat) (label : string)
    (k : nat) : option (list string) :=
  row ← out_data !! i;
  items ← Py.dict_get (fields row) label;
  it ← items !! k;
  Some (issues it).

(** The coordinates of an error address the item at position [k] of the
    field [label] of the row at position [i]: under a row key that names
    the row, the field lists an index that names the item. *)
Definition addresses (models : list RowModel) (err : ErrorObject.t)
    (i : nat) (label : string) (k : nat) : Prop :=
  ∃ key field_info r row items_indexes j items,
    (key, field_info) ∈ ErrorObject.table (ErrorObject.position err)
    ∧ Py.int key = Ok r
    ∧ Py.position (length models) r = Some i
    ∧ models !! i = Some row
    ∧ (label, items_indexes) ∈ field_info
    ∧ j ∈ default [0%Z] items_indexes
    ∧ Py.dict_get (fields row) label = Some items
    ∧ Py.position (length items) j = Some k.

(** A row has an item with an issue attached. *)
Definition has_issue (row : RowModel) : Prop :=
  ∃ it, it ∈ all_items row ∧ issues it ≠ [].

(** The row at position [i] of a table of [n] rows is named by a row key of
    an error of the report. *)
Definition row_named (n : nat) (report : list ErrorObject.t) (i : nat) : Prop :=
  ∃ err key r,
    err ∈ report
    ∧ key ∈ Py.keys (ErrorObject.table (ErrorObject.position err))
    ∧ Py.int key = Ok r
    ∧ Py.position n r = Some i.

(** After [j] errors: the flag of a row tells whether one of them named
    the row, and a row that is not flagged has no issue on any item. *)
Definition flags_follow_names (n : nat) (report : list ErrorObject.t)
    (j : Z) (d : list RowModel) : Prop :=
  length d = n
  ∧ ∀ i row, d !! i = Some row →
      (contains_issue row = true ↔ row_named n (take (Z.to_nat j) report) i)
      ∧ (contains_issue row = false →
         Forall (λ it, issues it = []) (all_items row)).

(** *** References out of range *)

(** The number of items of a field of a row, if the row has the field. *)
Definition field_size (fields : Py.dict (list ItemRecord)) (label : string)
    : option nat :=
  length <$> Py.dict_get fields label.

(** Two rows have the fields of the same sizes. *)
Definition same_sizes (row0 row : RowModel) : Prop :=
  ∀ label, field_size (fields row) label = field_size (fields row0) label.

(** An error names a row outside the table of [n] rows, in Python's sense:
    an index is in range from [-n] to [n - 1]. *)
Definition row_out_of_range (n : nat) (err : ErrorObject.t) : Prop :=
  ∃ key r,
    key ∈ Py.keys (ErrorObject.table (ErrorObject.position err))
    ∧ Py.int key = Ok r
    ∧ ¬ (- Z.of_nat n ≤ r < Z.of_nat n)%Z.

(** An error names, under a row of the table, an item index outside the
    items of the field it addresses. *)
Definition item_out_of_range (models : list RowModel) (err : ErrorObject.t) : Prop :=
  ∃ key field_info r i row label items_indexes j items,
    (key, field_info) ∈ ErrorObject.table (ErrorObject.position err)
    ∧ Py.int key = Ok r
    ∧ Py.position (length models) r = Some i
    ∧ models !! i = Some row
    ∧ (label, items_indexes) ∈ field_info
    ∧ j ∈ default [0%Z] items_indexes
    ∧ Py.dict_get (fields row) label = Some items
    ∧ ¬ (- Z.of_nat (length items) ≤ j < Z.of_nat (length items))%Z.

(** The exceptions of Python itself. *)
Definition builtin_exception (e : Py.exn) : Prop :=
  match e with
  | MappingError _ _ _ => False
  | _ => True
  end.

(** The outcome the specification asks for on a reference out of range. *)
Definition raises_mapping_error {A : Type} (outcome : option (Py.result A)) : Prop :=
  ∃ rowIndex fieldLabel itemIndex,
    outcome = Some (Raise (MappingError rowIndex fieldLabel itemIndex)).

(** After [j] errors: the rows have kept the sizes of their fields, and no
    error so far had a reference out of range. *)
Definition in_bounds_so_far (data : list Row) (report : list ErrorObject.t)
    (j : Z) (d : list RowModel) : Prop :=
  Forall2 same_sizes (model_rows data) d
  ∧ ∀ err, err ∈ take (Z.to_nat j) report →
      ¬ row_out_of_range (length data) err
      ∧ ¬ item_out_of_range (model_rows data) err.

(** Every row key of the error reads as an integer, and every field label
    the error names is a field of every row of the table. *)
Definition well_addressed (models : list RowModel) (err : ErrorObject.t) : Prop :=
  (∀ key,
     key ∈ Py.keys (ErrorObject.table (ErrorObject.position err)) →
     ∃ r, Py.int key = Ok r)
  ∧ (∀ key field_info label items_indexes row,
       (key, field_info) ∈ ErrorObject.table (ErrorObject.position err) →
       (label, items_indexes) ∈ field_info →
       row ∈ models →
       label ∈ Py.keys (fields row)).

(** *** Colours *)

(** One of the characters [0-9a-f]. *)
Definition is_hex_digit (c : ascii) : bool :=
  let n := Ascii.nat_of_ascii c in
  (Nat.leb 48 n && Nat.leb n 57) || (Nat.leb 97 n && Nat.leb n 102).

Fixpoint all_hex_digits (s : string) : bool :=
  match s with
  | EmptyString => true
  | String c s' => is_hex_digit c && all_hex_digits s'
  end.

(** [^#[0-9a-f]{6}$], on a text without line break. *)
Definition is_hex_color (s : string) : bool :=
  match s with
  | String "#" digits =>
      Nat.eqb (String.length digits) 6 && all_hex_digits digits
  | _ => false
  end.

(** The ranges of [random.random()], [random.uniform(0.5, 0.9)] and
    [random.uniform(0.7, 0.95)]. *)
Definition drawn_in_range (draw : Q * Q * Q) : Prop :=
  let '(h, s, v) := draw in
  (0 <= h)%Q ∧ (h < 1)%Q
  ∧ (5 # 10 <= s)%Q ∧ (s <= 9 # 10)%Q
  ∧ (7 # 10 <= v)%Q ∧ (v <= 95 # 100)%Q.

(** Rounding to a representable value keeps the order and leaves [0], [1]
    and [255], which are representable, as they are. *)
Definition rounding (fl : Q → Q) : Prop :=
  (∀ x y, (x <= y)%Q → (fl x <= fl y)%Q)
  ∧ (fl 0 == 0)%Q ∧ (fl 1 == 1)%Q ∧ (fl 255 == 255)%Q.

(** The colours of the catalogue, in the order of its entries. *)
Definition catalogue_colors (out_errors : Py.dict ErrorInfo.t) : list string :=
  ErrorInfo.color <$> Py.values out_errors.

(** The colours the draws stand for, draw by draw. *)
Definition drawn_colors (fl : Q → Q) (draws : list (Q * Q * Q)) : list string :=
  (λ draw, hex_color fl (hsv_to_rgb fl draw.1.1 draw.1.2 draw.2)) <$> draws.

(** After [j] errors the colours of the catalogue and the colours still in
    the set make up, without overlap, the colours allocated. *)
Definition colors_split (table_type : string) (allocated : gset string) (j : Z)
    (st : list RowModel * Py.dict ErrorInfo.t * gset string) : Prop :=
  let '(_, out_errors, colors) := st in
  Py.keys out_errors = report_ids table_type j
  ∧ NoDup (catalogue_colors out_errors)
  ∧ (∀ c, c ∈ catalogue_colors out_errors → c ∉ colors)
  ∧ allocated = list_to_set (catalogue_colors out_errors) ∪ colors.

(** *** Cells and their items *)

(** The fields of a metadata row that hold a list of items. *)
Definition list_fields : list string := ["id"; "author"; "publisher"; "editor"].

(** The number of occurrences of a character in a text. *)
Fixpoint count_char (c : ascii) (s : string) : nat :=
  match s with
  | EmptyString => 0
  | String a s' => (if decide (a = c) then 1 else 0) + count_char c s'
  end.

(** The text [sep] occurs in the text [s]. *)
Definition occurs_in (sep s : string) : Prop :=
  ∃ pre post, s = pre +:+ sep +:+ post.

(** The texts of the items of a field, in order. *)
Definition raws (items : list ItemRecord) : list string := raw <$> items.

(** A field of a raw metadata row is modelled as one ordinary item per
    piece of its text. *)
Definition modelled_as_values (raw_row : RawRow) (field : string)
    (row_idx : Z) (pieces : list string) : Prop :=
  let row := Metadata (read_metadata_row raw_row) in
  pieces ≠ []
  ∧ Py.dict_get (flat_serialise row) field = Some pieces
  ∧ Py.dict_get (fields (model_row_default row row_idx)) field
    = Some ((λ '(i, piece), value_item row_idx field i piece)
              <$> Py.enumerate pieces).

(** *** What enrichment leaves alone *)

(** An item with its issues taken off, and a row with the issues of every
    item taken off and the flag down. *)
Definition clear_item (it : ItemRecord) : ItemRecord :=
  {| raw := raw it; item_id := item_id it; issues := [] |}.

Definition clear_fields (fields : Py.dict (list ItemRecord))
    : Py.dict (list ItemRecord) :=
  (λ entry : string * list ItemRecord, (entry.1, clear_item <$> entry.2))
    <$> fields.

Definition clear_row (row : RowModel) : RowModel :=
  {| contains_issue := false;
     row_idx := row_idx row;
     fields := clear_fields (fields row) |}.

(** *** The coordinates of an error, as the code reads them *)

(** The coordinates an error lists, under whatever row key, in the order
    in which the loops of [enrich_row] come to them: field label and item
    index, [None] read as the index list [[0]]. *)
Definition targets (err : ErrorObject.t) : list (string * Z) :=
  entry ← ErrorObject.table (ErrorObject.position err);
  field ← entry.2;
  (λ j, (field.1, j)) <$> default [0%Z] field.2.

(** A coordinate of the error, under whatever row key, names the item at
    position [k] of the field [label] of a row in which that field has
    [size] items. *)
Definition targeted (err : ErrorObject.t) (label : string) (size k : nat)
    : Prop :=
  ∃ key field_info items_indexes j,
    (key, field_info) ∈ ErrorObject.table (ErrorObject.position err)
    ∧ (label, items_indexes) ∈ field_info
    ∧ j ∈ default [0%Z] items_indexes
    ∧ Py.position size j = Some k.

(** Every coordinate of the error, under whatever row key, fits the row:
    the row has the field, and the index is within its items. *)
Definition row_fits (row : RowModel) (err : ErrorObject.t) : Prop :=
  ∀ key field_info label items_indexes j,
    (key, field_info) ∈ ErrorObject.table (ErrorObject.position err) →
    (label, items_indexes) ∈ field_info →
    j ∈ default [0%Z] items_indexes →
    ∃ size, field_size (fields row) label = Some size
            ∧ is_Some (Py.position size j).

(** The error can be mapped on the table: every row key reads as the
    index of a row, and every coordinate of the error fits every row so
    named. *)
Definition mappable (models : list RowModel) (err : ErrorObject.t) : Prop :=
  ∀ key,
    key ∈ Py.keys (ErrorObject.table (ErrorObject.position err)) →
    ∃ r i row,
      Py.int key = Ok r
      ∧ Py.position (length models) r = Some i
      ∧ models !! i = Some row
      ∧ row_fits row err.

(** After [j] errors: the table has its [n] rows, and an item carries the
    identifier of an error exactly when the error is one of the [j], a row
    key of it names the row of the item, and a coordinate of it, under
    whatever row key, names the item. *)
Definition issues_follow_coordinates (table_type : string) (n : nat)
    (report : list ErrorObject.t) (j : Z) (d : list RowModel) : Prop :=
  length d = n
  ∧ ∀ i row label items k it m,
      d !! i = Some row →
      Py.dict_get (fields row) label = Some items →
      items !! k = Some it →
      (error_id table_type (Z.of_nat m) ∈ issues it ↔
       (Z.of_nat m < j)%Z
       ∧ ∃ err,
           report !! m = Some err
           ∧ row_named n [err] i
           ∧ targeted err label (length items) k).

(** *** The page *)

(** The field labels of a metadata row and of a citations row, in the
    order of [flat_serialise]. *)
Definition metadata_labels : list string :=
  ["id"; "title"; "author"; "pub_date"; "venue"; "volume"; "issue"; "page";
   "type"; "publisher"; "editor"].

Definition citations_labels : list string :=
  ["citing_id"; "citing_publication_date"; "cited_id";
   "cited_publication_date"].

(** A raw row has more than four columns. *)
Definition wide (raw_row : RawRow) : bool :=
  Nat.ltb 4 (length (Py.keys raw_row)).

(** The identifiers of the items of a table, row after row. *)
Definition table_item_ids (models : list RowModel) : list string :=
  item_id <$> concat (all_items <$> models).

(** ** Sample inputs *)

Module Sample.

(** Exact arithmetic, a rounding that changes nothing. *)
Definition fl (x : Q) : Q := x.

Definition choice (colors : gset string) : nat := 0.

Definition draws : list (Q * Q * Q) :=
  [ (1 # 4, 3 # 5, 4 # 5); (1 # 2, 7 # 10, 9 # 10); (3 # 4, 1 # 2, 7 # 10) ]%Q.

Definition article : Row :=
  Metadata (MetadataRow.__init__
    [ ("id", "doi:10.1/a issn:1234-5678");
      ("title", "A title");
      ("author", "Smith, J. [orcid:0000-0001 viaf:123]; Doe, A.");
      ("pub_date", EmptyString) ]).

Definition note : Row :=
  Metadata (MetadataRow.__init__ [ ("id", "doi:10.1/b") ]).

Definition data : list Row := [article; article; note].

Definition error (label : string) (table : Py.dict FieldInfo) : ErrorObject.t :=
  {| ErrorObject.message := "The value is not valid.";
     ErrorObject.error_label := label;
     ErrorObject.error_type := "error";
     ErrorObject.position := {| ErrorObject.table := table |} |}.

(** One error on two rows: the first identifier of row 0 and the second
    identifier of row 1. *)
Definition duplicate_id : ErrorObject.t :=
  error "duplicate_id"
    [ ("0", [("id", Some [0%Z])]); ("1", [("id", Some [1%Z])]) ].

(** An error on a whole field, and an error on the same item as the first. *)
Definition missing_venue : ErrorObject.t :=
  error "required_fields" [ ("2", [("venue", None)]) ].

Definition id_syntax : ErrorObject.t :=
  error "br_id_syntax" [ ("0", [("id", Some [0%Z])]) ].

Definition report : list ErrorObject.t :=
  [duplicate_id; missing_venue; id_syntax].

(** An error that names a row that is not there. *)
Definition row_999 : ErrorObject.t :=
  error "row_out_of_range" [ ("999", [("id", Some [0%Z])]) ].

Definition ten_rows : list Row := replicate 10 note.

Definition out_data : list RowModel :=
  Eval vm_compute in
    match map_errors_to_data fl choice draws data report with
    | Some (Ok (out_data, _)) => out_data
    | _ => []
    end.

Definition out_errors : Py.dict ErrorInfo.t :=
  Eval vm_compute in
    match map_errors_to_data fl choice draws data report with
    | Some (Ok (_, out_errors)) => out_errors
    | _ => []
    end.

(** A row with three authors, and an error on the whole [author] field of
    row 0 and on the third author of row 1. *)
Definition trio : Row :=
  Metadata (MetadataRow.__init__
    [ ("id", "doi:10.1/c"); ("author", "A; B; C") ]).

Definition wildcard_and_third : ErrorObject.t :=
  error "author_check"
    [ ("0", [("author", None)]); ("1", [("author", Some [2%Z])]) ].

(** A row key of 4301 digits: 4300 zeros and a one. *)
Definition long_key : string :=
  String.string_of_list_ascii (replicate 4300 "0"%char) +:+ "1".

(** The first row of the sample table, modelled and enriched with the
    error on two rows. *)
Definition enriched_article : RowModel :=
  Eval vm_compute in
    match enrich_row (model_row_default article 0) duplicate_id "meta-0" with
    | Ok row => row
    | Raise _ => model_row_default article 0
    end.

(** An error on two rows of different sizes: the second identifier of
    row 0 and the first identifier of row 1, which has one identifier. *)
Definition crossed : ErrorObject.t :=
  error "crossed"
    [ ("0", [("id", Some [1%Z])]); ("1", [("id", Some [0%Z])]) ].

(** A table of three columns, with a column name of the metadata tables. *)
Definition narrow_table : list RawRow :=
  [ [ ("id", "doi:10.1/a"); ("title", "A title"); ("venue", "A venue") ] ].

(** An error on the whole of a field of the citations tables. *)
Definition missing_citing_id : ErrorObject.t :=
  error "required_fields" [ ("0", [("citing_id", None)]) ].

Definition narrow_page : Page :=
  Eval vm_compute in
    match make_gui fl choice draws [missing_citing_id] narrow_table with
    | Some (Ok page) => page
    | _ => ValidPage
    end.

End Sample.

(** * Properties *)

(** ** Facts about the Python fragment *)

Section PyFacts.
Context {A : Type}.
Implicit Types (l : list A) (i : Z) (k : nat).

Lemma position_lt len i k : Py.position len i = Some k → k < len.
Proof.
  unfold Py.position. intros H.
  destruct (0 <=? i)%Z eqn:E0.
  - destruct (i <? Z.of_nat len)%Z eqn:E1; simplify_eq. lia.
  - destruct (- Z.of_nat len <=? i)%Z eqn:E1; simplify_eq. lia.
Qed.

(** An index is accepted exactly in [[-len, len)]. *)
Lemma position_is_Some len i :
  is_Some (Py.position len i) ↔ (- Z.of_nat len ≤ i < Z.of_nat len)%Z.
Proof.
  unfold Py.position.
  destruct (0 <=? i)%Z eqn:E0.
  - destruct (i <? Z.of_nat len)%Z eqn:E1;
      (split; [intros [? ?]|intros ?]); simplify_eq; eauto; lia.
  - destruct (- Z.of_nat len <=? i)%Z eqn:E1;
      (split; [intros [? ?]|intros ?]); simplify_eq; eauto; lia.
Qed.

Lemma position_nonneg len k : k < len → Py.position len (Z.of_nat k) = Some k.
Proof.
  intros H. unfold Py.position.
  destruct (0 <=? Z.of_nat k)%Z eqn:E0; [|lia].
  destruct (Z.of_nat k <? Z.of_nat len)%Z eqn:E1; [|lia].
  by rewrite Nat2Z.id.
Qed.

Lemma getitem_Ok l i x :
  Py.getitem l i = Ok x ↔ ∃ k, Py.position (length l) i = Some k ∧ l !! k = Some x.
Proof.
  unfold Py.getitem. split.
  - destruct (Py.position (length l) i) as [k|]; [|done].
    destruct (l !! k) eqn:E; [|done]. intros [= ->]. eauto.
  - intros (k & -> & ->). done.
Qed.

Lemma getitem_Raise l i e :
  Py.getitem l i = Raise e ↔ Py.position (length l) i = None ∧ e = IndexError.
Proof.
  unfold Py.getitem. split.
  - destruct (Py.position (length l) i) as [k|] eqn:E.
    + apply position_lt, lookup_lt_is_Some_2 in E as [x ->]. done.
    + by intros [= <-].
  - by intros [-> ->].
Qed.

Lemma setitem_Ok l i x l' :
  Py.setitem l i x = Ok l' ↔ ∃ k, Py.position (length l) i = Some k ∧ l' = <[k := x]> l.
Proof.
  unfold Py.setitem. split.
  - destruct (Py.position (length l) i) as [k|]; [|done]. intros [= <-]. eauto.
  - intros (k & -> & ->). done.
Qed.

Lemma lookup_enumerate_from start l k :
  Py.enumerate_from start l !! k = (λ x, ((start + Z.of_nat k)%Z, x)) <$> l !! k.
Proof.
  revert start k. induction l as [|x l IH]; intros start [|k]; simpl; try done.
  - by rewrite Z.add_0_r.
  - rewrite IH. destruct (l !! k); simpl; [|done]. do 2 f_equal. lia.
Qed.

Lemma length_enumerate_from start l : length (Py.enumerate_from start l) = length l.
Proof. revert start. induction l; intros; simpl; auto. Qed.

Lemma fmap_snd_enumerate_from start l : snd <$> Py.enumerate_from start l = l.
Proof. revert start. induction l; intros; simpl; f_equal; auto. Qed.

Lemma fmap_fst_enumerate_from start l :
  fst <$> Py.enumerate_from start l = seqZ start (Z.of_nat (length l)).
Proof.
  revert start. induction l as [|x l IH]; intros; simpl length.
  - done.
  - rewrite Nat2Z.inj_succ, seqZ_cons by lia. simpl. f_equal.
    rewrite IH. f_equal; lia.
Qed.
End PyFacts.

Section DictFacts.
Context {V : Type}.
Implicit Types (d : Py.dict V) (k : string) (v : V).

Lemma dict_get_set_eq d k v : Py.dict_get (Py.dict_set d k v) k = Some v.
Proof.
  induction d as [|[k' v'] d IH]; simpl.
  - by rewrite decide_True.
  - destruct (decide (k' = k)) as [->|Hne]; simpl.
    + by rewrite decide_True.
    + by rewrite decide_False.
Qed.

Lemma dict_get_set_ne d k k' v :
  k ≠ k' → Py.dict_get (Py.dict_set d k v) k' = Py.dict_get d k'.
Proof.
  intros Hne. induction d as [|[k0 v0] d IH]; simpl.
  - by rewrite decide_False.
  - destruct (decide (k0 = k)) as [->|Hne0]; simpl.
    + by rewrite !decide_False.
    + by rewrite IH.
Qed.

(** Assigning to a key that is there changes neither the keys nor their
    order. *)
Lemma keys_dict_set_present d k v :
  is_Some (Py.dict_get d k) → Py.keys (Py.dict_set d k v) = Py.keys d.
Proof.
  unfold Py.keys. induction d as [|[k0 v0] d IH]; simpl.
  - by intros [? ?].
  - destruct (decide (k0 = k)) as [->|Hne0]; simpl; [done|].
    intros H. f_equal. by apply IH.
Qed.

(** Assigning to a new key appends it. *)
Lemma dict_set_fresh d k v :
  k ∉ Py.keys d → Py.dict_set d k v = d ++ [(k, v)].
Proof.
  unfold Py.keys. induction d as [|[k0 v0] d IH]; simpl; [done|].
  rewrite not_elem_of_cons. intros [Hne Hnot].
  rewrite decide_False by done. by rewrite IH.
Qed.

Lemma dict_get_Some_keys d k v : Py.dict_get d k = Some v → k ∈ Py.keys d.
Proof.
  unfold Py.keys. induction d as [|[k0 v0] d IH]; simpl; [done|].
  destruct (decide (k0 = k)) as [->|Hne0]; [left|right; auto].
Qed.

Lemma dict_get_Some_elem d k v : Py.dict_get d k = Some v → (k, v) ∈ d.
Proof.
  induction d as [|[k0 v0] d IH]; simpl; [done|].
  destruct (decide (k0 = k)) as [->|Hne0].
  - intros [= ->]. left.
  - right; auto.
Qed.

Lemma dict_get_NoDup d k v :
  NoDup (Py.keys d) → (k, v) ∈ d → Py.dict_get d k = Some v.
Proof.
  unfold Py.keys. induction d as [|[k0 v0] d IH]; simpl.
  - by intros _ ?%elem_of_nil.
  - rewrite NoDup_cons, elem_of_cons. intros [Hnot Hnd] [[= -> ->]|Hin].
    + by rewrite decide_True.
    + rewrite decide_False; [auto|].
      intros ->. apply Hnot. apply list_elem_of_fmap. by exists (k, v).
Qed.

(** The values of the dictionary after an assignment to a present key:
    the one at that key is replaced where it stands. *)
Lemma dict_set_present_lookup d k v v0 :
  Py.dict_get d k = Some v0 →
  ∃ n, d !! n = Some (k, v0) ∧ Py.dict_set d k v = <[n := (k, v)]> d.
Proof.
  induction d as [|[k0 w] d IH]; simpl; [done|].
  destruct (decide (k0 = k)) as [->|Hne0].
  - intros [= ->]. by exists 0.
  - intros H. destruct (IH H) as (n & Hn & ->). by exists (S n).
Qed.
End DictFacts.

Section ForEach.
Context {S A : Type}.
Implicit Types (body : S → A → Py.result S) (s : S) (l : list A).

(** A property kept by every successful step holds after the loop. *)
Lemma for_each_invariant (P : S → Prop) body s l s' :
  (∀ s x s', x ∈ l → P s → body s x = Ok s' → P s') →
  P s → Py.for_each body s l = Ok s' → P s'.
Proof.
  revert s. induction l as [|x l IH]; intros s Hstep Hs; simpl.
  - by intros [= <-].
  - destruct (body s x) as [s1|e] eqn:E; simpl; [|done].
    apply IH.
    + intros ?????. eapply Hstep; [by right|done..].
    + eapply Hstep; [by left|done..].
Qed.

(** Every step of a successful loop succeeded, from a state related to
    the first one by the steps' invariant. *)
Lemma for_each_Ok_steps (P : S → Prop) body s l s' x :
  (∀ s x s', x ∈ l → P s → body s x = Ok s' → P s') →
  P s → Py.for_each body s l = Ok s' → x ∈ l →
  ∃ s0 s1, P s0 ∧ body s0 x = Ok s1.
Proof.
  revert s. induction l as [|y l IH]; intros s Hstep Hs; simpl.
  - by intros _ ?%elem_of_nil.
  - destruct (body s y) as [s1|e] eqn:E; simpl; [|done].
    intros Hloop [->|Hin]%elem_of_cons; [eauto|].
    eapply IH; [| |exact Hloop|exact Hin].
    + intros ?????. eapply Hstep; [by right|done..].
    + eapply Hstep; [by left|done..].
Qed.

Lemma for_each_app body s l1 l2 :
  Py.for_each body s (l1 ++ l2)
  = s1 ← Py.for_each body s l1; Py.for_each body s1 l2.
Proof.
  revert s. induction l1 as [|x l1 IH]; intros s; simpl; [done|].
  destruct (body s x); simpl; auto.
Qed.

(** The exceptions of a loop are those of its body. *)
Lemma for_each_Raise (Q : Py.exn → Prop) body s l e :
  (∀ s x e, body s x = Raise e → Q e) →
  Py.for_each body s l = Raise e → Q e.
Proof.
  intros Hbody. revert s. induction l as [|x l IH]; intros s; simpl; [done|].
  destruct (body s x) as [s1|e1] eqn:E; simpl; [apply IH|].
  intros [= <-]. eauto.
Qed.
End ForEach.

Lemma app_String a s t : String a s +:+ t = String a (s +:+ t).
Proof. reflexivity. Qed.

Lemma app_empty t : EmptyString +:+ t = t.
Proof. reflexivity. Qed.

(** ** Sanity checks of the Python fragment and of the extractor *)

Example split_ids : Py.split " " "doi:10/1 pmid:2" = ["doi:10/1"; "pmid:2"].
Proof. reflexivity. Qed.
Example split_blank : Py.split " " "a  b " = ["a"; ""; "b"; ""].
Proof. reflexivity. Qed.
Example split_agents : Py.split "; " "A [orcid:1]; B;C; D" = ["A [orcid:1]"; "B;C"; "D"].
Proof. reflexivity. Qed.
Example int_row :
  Py.int " -12 " = Ok (-12)%Z ∧ Py.int "1_0" = Ok 10%Z
  ∧ Py.int "1__0" = Raise (ValueError "1__0")
  ∧ Py.int "" = Raise (ValueError "")
  ∧ Py.int (String "028" "7") = Raise (ValueError (String "028" "7"))
  ∧ Py.int (String "160" "7") = Ok 7%Z.
Proof. repeat split; reflexivity. Qed.
Example getitem_neg : Py.getitem [10; 20; 30] (-1) = Ok 30 ∧ Py.getitem [10; 20; 30] 3 = Raise IndexError
  ∧ Py.getitem [10; 20; 30] (-4) = Raise IndexError.
Proof. repeat split; reflexivity. Qed.
Example parse_smith :
  AgentItem._parse "Smith, J. [orcid:0000-0001 viaf:123]"
  = ("Smith, J.", ["orcid:0000-0001"; "viaf:123"]).
Proof. reflexivity. Qed.
Example parse_greedy :
  parse_ids agent_schemes "x orcid:a]b]c] viaf:1 ror:2" = ["orcid:a]b]c]"; "viaf:1"].
Proof. reflexivity. Qed.
Example parse_overlap :
  parse_ids agent_schemes "[orcid:viaf:1]" = ["orcid:viaf:1"].
Proof. reflexivity. Qed.

(** ** The item extractor *)

Section Strings.
Implicit Types (s t u : string).

Lemma string_app_assoc s t u : (s +:+ t) +:+ u = s +:+ t +:+ u.
Proof. induction s as [|c s IH]; [done|]. rewrite !app_String. by rewrite IH. Qed.

Lemma string_app_nil_r s : s +:+ EmptyString = s.
Proof. induction s as [|c s IH]; [done|]. rewrite app_String. by rewrite IH. Qed.

Lemma string_length_app s t :
  String.length (s +:+ t) = String.length s + String.length t.
Proof. induction s as [|c s IH]; [done|]. rewrite app_String. simpl. by rewrite IH. Qed.

Lemma strip_prefix_Some p s rest :
  Py.strip_prefix p s = Some rest ↔ s = p +:+ rest.
Proof.
  revert s. induction p as [|a p IH]; intros s; simpl.
  - rewrite app_empty. split; congruence.
  - destruct s as [|b s]; rewrite app_String; [split; congruence|].
    case_decide as Hab.
    + subst b. rewrite IH. split; congruence.
    + split; [done|]. by intros [= -> _].
Qed.

Lemma before_first_Some c s pre :
  Py.before_first c s = Some pre ↔
  ∃ post, s = pre +:+ String c post
          ∧ ∀ pre1 post1, pre ≠ pre1 +:+ String c post1.
Proof.
  revert pre. induction s as [|a s IH]; intros pre; simpl.
  - split; [done|]. intros (post & H & _). by destruct pre.
  - case_decide as Hac.
    + subst a. split.
      * intros [= <-]. exists s. split; [done|]. by intros [|??] ?.
      * intros (post & Heq & Hfirst). destruct pre as [|b pre]; [done|].
        rewrite app_String in Heq. injection Heq as <- _.
        by destruct (Hfirst EmptyString pre).
    + split.
      * destruct (Py.before_first c s) as [pre'|] eqn:E; [|done].
        intros [= <-]. destruct (proj1 (IH pre') eq_refl) as (post & -> & Hfirst).
        exists post. split; [done|]. intros [|b pre1] post1.
        -- rewrite app_empty. by intros [= ->].
        -- rewrite app_String. intros [= <- ->]. by eapply Hfirst.
      * intros (post & Heq & Hfirst). destruct pre as [|b pre].
        { rewrite app_empty in Heq. by injection Heq as ->. }
        rewrite app_String in Heq. injection Heq as <- ->.
        assert (Py.before_first c (pre +:+ String c post) = Some pre) as ->; [|done].
        apply IH. exists post. split; [done|]. intros pre1 post1 ->.
        by apply (Hfirst (String a pre1) post1).
Qed.

Lemma before_first_None c s :
  Py.before_first c s = None ↔ ∀ pre post, s ≠ pre +:+ String c post.
Proof.
  split.
  - intros Hnone pre post ->.
    assert (∃ p, Py.before_first c (pre +:+ String c post) = Some p) as [p Hp];
      [|congruence].
    clear Hnone. induction pre as [|a pre IH].
    + rewrite app_empty. simpl. rewrite decide_True by done. eauto.
    + rewrite app_String. simpl. case_decide; [eauto|].
      destruct IH as [p ->]. simpl. eauto.
  - intros Hs. destruct (Py.before_first c s) as [pre|] eqn:E; [|done].
    apply before_first_Some in E as (post & -> & _). by destruct (Hs pre post).
Qed.

Lemma string_app_inj_length s1 t1 s2 t2 :
  s1 +:+ t1 = s2 +:+ t2 → String.length s1 = String.length s2 →
  s1 = s2 ∧ t1 = t2.
Proof.
  revert s2. induction s1 as [|a s1 IH]; intros [|b s2]; simpl; try done.
  rewrite !app_String. intros [= -> Heq] [= Hlen].
  destruct (IH s2 Heq Hlen) as [-> ->]. done.
Qed.

(** Of two prefixes of one text, the shorter is a prefix of the longer. *)
Lemma string_app_split s1 t1 s2 t2 :
  s1 +:+ t1 = s2 +:+ t2 → String.length s1 < String.length s2 →
  ∃ u, u ≠ EmptyString ∧ s2 = s1 +:+ u ∧ t1 = u +:+ t2.
Proof.
  revert s2. induction s1 as [|a s1 IH]; intros [|b s2]; simpl; try lia.
  - rewrite !app_empty. intros -> _. by exists (String b s2).
  - rewrite !app_String. intros [= -> Heq] Hlen.
    destruct (IH s2 Heq) as (u & Hu & -> & ->); [lia|]. by exists u.
Qed.

Lemma all_nonspace_app s t :
  all_nonspace (s +:+ t) = all_nonspace s && all_nonspace t.
Proof.
  induction s as [|c s IH]; [done|]. rewrite app_String. simpl.
  rewrite IH. by rewrite andb_assoc.
Qed.

End Strings.

Section Extractor.
Variable schemes : list string.

Lemma nonspace_run_Some s k :
  Re.nonspace_run s = Some k →
  ∃ d post,
    s = Re.take k s +:+ String d post
    ∧ Re.take k s ≠ EmptyString
    ∧ all_nonspace (Re.take k s) = true
    ∧ Re.delimiter d = true
    ∧ String.length (Re.take k s) = k.
Proof.
  revert k. induction s as [|c s IH]; intros k; simpl; [done|].
  destruct (Py.isspace c) eqn:Hc; [done|].
  destruct (Re.nonspace_run s) as [k'|] eqn:Hrun.
  - intros [= <-].
    destruct (IH k' eq_refl) as (d & post & Hs & _ & Hall & Hd & Hlen).
    exists d, post. simpl. rewrite app_String, <-Hs, Hc, Hall, Hlen. done.
  - destruct s as [|d s']; [done|].
    destruct (Re.delimiter d) eqn:Hd; [|done]. intros [= <-].
    exists d, s'. simpl. by rewrite Hc.
Qed.

Lemma nonspace_run_complete body d post :
  body ≠ EmptyString → all_nonspace body = true → Re.delimiter d = true →
  is_Some (Re.nonspace_run (body +:+ String d post)).
Proof.
  induction body as [|c body IH]; [done|]. intros _ Hall Hd.
  simpl in Hall. apply andb_true_iff in Hall as [Hc%negb_true_iff Hall].
  rewrite app_String. simpl. rewrite Hc.
  destruct body as [|c' body].
  - rewrite app_empty. destruct (Re.nonspace_run (String d post)); [eauto|].
    rewrite Hd. eauto.
  - destruct IH as [k ->]; [done..|]. eauto.
Qed.

Lemma match_here_Some s m :
  Re.match_here schemes s = Some m →
  identifier_of schemes m
  ∧ ∃ d post, s = m +:+ String d post ∧ Re.delimiter d = true.
Proof.
  unfold identifier_of. induction schemes as [|scheme schemes' IH]; simpl; [done|].
  destruct (Py.strip_prefix (scheme +:+ ":") s) as [rest|] eqn:Hpre; simpl.
  - destruct (Re.nonspace_run rest) as [k|] eqn:Hrun; simpl.
    + intros [= <-]. apply strip_prefix_Some in Hpre as ->.
      destruct (nonspace_run_Some _ _ Hrun)
        as (d & post & Hrest & Hne & Hall & Hd & _).
      split.
      * exists scheme, (Re.take k rest). split_and!; [by left|done..].
      * exists d, post. split; [|done].
        rewrite !string_app_assoc. by rewrite <-Hrest.
    + intros (Hid & Hs)%IH. split; [|done].
      destruct Hid as (sc & body & Hin & H). exists sc, body. split; [by right|done].
  - intros (Hid & Hs)%IH. split; [|done].
    destruct Hid as (sc & body & Hin & H). exists sc, body. split; [by right|done].
Qed.

Lemma match_here_complete id d post :
  identifier_of schemes id → Re.delimiter d = true →
  is_Some (Re.match_here schemes (id +:+ String d post)).
Proof.
  intros (scheme & body & Hin & -> & Hne & Hall) Hd.
  induction schemes as [|sc schemes' IH]; [by apply elem_of_nil in Hin|].
  simpl.
  destruct (Py.strip_prefix (sc +:+ ":") _ ≫= _) as [m|] eqn:Hattempt; [eauto|].
  apply elem_of_cons in Hin as [->|Hin]; [|by apply IH].
  exfalso.
  assert (Py.strip_prefix (sc +:+ ":")
            ((sc +:+ ":" +:+ body) +:+ String d post)
          = Some (body +:+ String d post)) as Hpre.
  { apply strip_prefix_Some. by rewrite !string_app_assoc. }
  rewrite Hpre in Hattempt. simpl in Hattempt.
  destruct (nonspace_run_complete body d post Hne Hall Hd) as [k Hk].
  by rewrite Hk in Hattempt.
Qed.

(** The greedy [\S+] keeps the longest text that the lookahead allows. *)
Lemma nonspace_run_longest body d post k :
  Re.nonspace_run (body +:+ String d post) = Some k →
  body ≠ EmptyString → all_nonspace body = true → Re.delimiter d = true →
  String.length body ≤ k.
Proof.
  revert k. induction body as [|c body IH]; intros k; [done|].
  rewrite app_String. simpl. intros Hrun _ Hall Hd.
  apply andb_true_iff in Hall as [Hc%negb_true_iff Hall]. rewrite Hc in Hrun.
  destruct body as [|c' body].
  - rewrite app_empty in Hrun.
    destruct (Re.nonspace_run (String d post));
      [injection Hrun as <-; simpl; lia|].
    rewrite Hd in Hrun. injection Hrun as <-. simpl. lia.
  - destruct (nonspace_run_complete (String c' body) d post) as [k' Hk'];
      [done..|].
    rewrite Hk' in Hrun. injection Hrun as <-.
    specialize (IH k' Hk'). simpl in *. apply le_n_S. by apply IH.
Qed.

(** A match is at least as long as any identifier that stands before a
    delimiter at the same place, when no scheme has whitespace in it. *)
Lemma match_here_longest s m id d post :
  Forall (λ scheme, all_nonspace scheme = true) schemes →
  Re.match_here schemes s = Some m →
  s = id +:+ String d post →
  identifier_of schemes id → Re.delimiter d = true →
  String.length id ≤ String.length m.
Proof.
  intros Hschemes Hm Hs (scheme' & body' & Hin' & -> & Hne' & Hall') Hd.
  assert (all_nonspace (scheme' +:+ ":" +:+ body') = true) as Hid.
  { rewrite !all_nonspace_app, Hall'.
    rewrite (proj1 (Forall_forall _ _) Hschemes _ Hin'). done. }
  clear Hin'. revert Hm.
  induction schemes as [|scheme schemes' IH]; simpl; [done|].
  destruct (Py.strip_prefix (scheme +:+ ":") s) as [rest|] eqn:Hpre; simpl;
    [|by apply IH; eapply Forall_inv_tail].
  destruct (Re.nonspace_run rest) as [k|] eqn:Hrun; simpl;
    [|by apply IH; eapply Forall_inv_tail].
  intros [= <-]. apply strip_prefix_Some in Hpre.
  destruct (nonspace_run_Some _ _ Hrun) as (_ & _ & _ & _ & _ & _ & Hlen).
  rewrite <-(string_app_assoc scheme), !(string_length_app (scheme +:+ ":")), Hlen.
  destruct (decide (String.length (scheme +:+ ":")
                    < String.length (scheme' +:+ ":" +:+ body'))) as [Hlt|]; [|lia].
  rewrite Hs in Hpre.
  destruct (string_app_split _ _ _ _ (eq_sym Hpre) Hlt) as (u & Hu & Hidu & ->).
  rewrite Hidu, all_nonspace_app in Hid. apply andb_true_iff in Hid as [_ Hall].
  pose proof (nonspace_run_longest u d post k Hrun Hu Hall Hd).
  rewrite Hidu, string_length_app. lia.
Qed.

Lemma identifier_of_length id : identifier_of schemes id → 0 < String.length id.
Proof.
  intros (scheme & body & _ & -> & _). rewrite !string_length_app. simpl. lia.
Qed.

(** Every match the scan reports is a match of the expression at the
    place the scan says. *)
Lemma scan_match s skip offset o m :
  (o, m) ∈ Re.scan schemes skip offset s →
  ∃ pre tail,
    s = pre +:+ tail
    ∧ o = offset + String.length pre
    ∧ Re.match_here schemes tail = Some m.
Proof.
  revert skip offset. induction s as [|c s IH]; intros skip offset; simpl.
  - by intros ?%elem_of_nil.
  - assert (∀ skip',
              (o, m) ∈ Re.scan schemes skip' (S offset) s →
              ∃ pre tail,
                String c s = pre +:+ tail
                ∧ o = offset + String.length pre
                ∧ Re.match_here schemes tail = Some m) as Hlater.
    { intros skip' (pre & tail & -> & -> & Hm)%IH.
      exists (String c pre), tail. rewrite app_String. simpl.
      split_and!; [done|lia|done]. }
    destruct skip as [|k]; [|apply Hlater].
    destruct (Re.match_here schemes (String c s)) as [m'|] eqn:Hm; [|apply Hlater].
    intros [[= -> ->]|Hin]%elem_of_cons; [|by eapply Hlater].
    exists EmptyString, (String c s). rewrite app_empty. simpl.
    split_and!; [done|lia|done].
Qed.

(** It is an identifier, and it stands there before a delimiter. *)
Lemma scan_sound s skip offset o m :
  (o, m) ∈ Re.scan schemes skip offset s →
  identifier_of schemes m
  ∧ ∃ pre d post,
      s = pre +:+ m +:+ String d post
      ∧ o = offset + String.length pre
      ∧ Re.delimiter d = true.
Proof.
  intros (pre & tail & -> & -> & Hm)%scan_match.
  apply match_here_Some in Hm as (Hid & d & post & -> & Hd). split; [done|].
  by exists pre, d, post.
Qed.

(** It is the longest identifier that stands there before a delimiter. *)
Lemma scan_longest s skip offset o m pre id d post :
  Forall (λ scheme, all_nonspace scheme = true) schemes →
  (o, m) ∈ Re.scan schemes skip offset s →
  s = pre +:+ id +:+ String d post →
  o = offset + String.length pre →
  identifier_of schemes id → Re.delimiter d = true →
  String.length id ≤ String.length m.
Proof.
  intros Hschemes (pre' & tail & Hs & Ho & Hm)%scan_match Hs' Ho' Hid Hd.
  rewrite Hs in Hs'. apply string_app_inj_length in Hs' as [_ ->]; [|lia].
  by eapply match_here_longest.
Qed.

(** No identifier before a delimiter is passed over: where one starts,
    at or after the point the scan has reached, a reported match covers
    its first character. *)
Lemma scan_cover s skip offset pre id d post :
  s = pre +:+ id +:+ String d post →
  skip ≤ String.length pre →
  identifier_of schemes id → Re.delimiter d = true →
  ∃ o m, (o, m) ∈ Re.scan schemes skip offset s
         ∧ o ≤ offset + String.length pre < o + String.length m.
Proof.
  revert skip offset pre. induction s as [|c s IH]; intros skip offset pre Hs Hskip Hid Hd.
  { destruct pre; [|done]. rewrite app_empty in Hs.
    apply identifier_of_length in Hid. by destruct id. }
  assert (∀ skip' pre',
            pre = String c pre' → skip' ≤ String.length pre' →
            ∃ o m, (o, m) ∈ Re.scan schemes skip' (S offset) s
                   ∧ o ≤ offset + String.length pre < o + String.length m)
    as Hlater.
  { intros skip' pre' -> Hskip'. rewrite app_String in Hs. injection Hs as ->.
    destruct (IH skip' (S offset) pre' eq_refl Hskip' Hid Hd) as (o & m & Hin & Ho).
    exists o, m. split; [done|]. simpl. lia. }
  simpl. destruct skip as [|k].
  - destruct (Re.match_here schemes (String c s)) as [m|] eqn:Hm.
    + destruct (decide (String.length pre < String.length m)) as [Hlt|Hge].
      * exists offset, m. split; [by left|lia].
      * pose proof (identifier_of_length _ (proj1 (match_here_Some _ _ Hm))).
        destruct pre as [|c' pre']; [simpl in Hge; lia|].
        rewrite app_String in Hs. injection Hs as -> Hs.
        destruct (Hlater (String.length m - 1) pre' eq_refl) as (o & m' & Hin & Ho);
          [simpl in Hge; lia|].
        exists o, m'. split; [by right|done].
    + destruct pre as [|c' pre'].
      * rewrite app_empty in Hs.
        destruct (match_here_complete id d post Hid Hd) as [m' Hm'].
        congruence.
      * rewrite app_String in Hs. injection Hs as -> Hs.
        apply (Hlater 0 pre' eq_refl). lia.
  - destruct pre as [|c' pre']; [simpl in Hskip; lia|].
    rewrite app_String in Hs. injection Hs as -> Hs.
    apply (Hlater k pre' eq_refl). simpl in Hskip. lia.
Qed.

End Extractor.

Lemma scan_ordered schemes s skip offset :
  Forall (λ om, offset + skip ≤ om.1) (Re.scan schemes skip offset s)
  ∧ StronglySorted ends_before (Re.scan schemes skip offset s).
Proof.
  revert skip offset. induction s as [|c s IH]; intros skip offset; simpl.
  - split; constructor.
  - destruct skip as [|k].
    + destruct (Re.match_here schemes (String c s)) as [m|] eqn:Hm.
      * pose proof (identifier_of_length _ _ (proj1 (match_here_Some _ _ _ Hm))) as Hlen.
        destruct (IH (String.length m - 1) (S offset)) as [Hfrom Hsorted].
        split.
        -- constructor; [simpl; lia|].
           eapply Forall_impl; [done|]. intros [o m'] Ho. simpl in *. lia.
        -- constructor; [done|].
           eapply Forall_impl; [done|]. intros [o m'] Ho.
           unfold ends_before. simpl in *. lia.
      * destruct (IH 0 (S offset)) as [Hfrom Hsorted]. split; [|done].
        eapply Forall_impl; [done|]. intros [o m'] Ho. simpl in *. lia.
    + destruct (IH k (S offset)) as [Hfrom Hsorted]. split; [|done].
      eapply Forall_impl; [done|]. intros [o m'] Ho. simpl in *. lia.
Qed.

(** C8, as stated, fails: not every identifier that stands before a
    closing bracket is collected.  Where the bracket is itself followed by
    whitespace or by another closing bracket, the match runs on over the
    bracket, and what is collected is the identifier with the bracket. *)
Lemma identifier_before_bracket_is_not_collected :
  ¬ (∀ raw offset id,
       identifier_of agent_schemes id →
       delimited_at raw offset id →
       id ∈ AgentItem.ids (AgentItem.__init__ raw)).
Proof.
  intros H.
  specialize (H "Smith [orcid:1] [viaf:2]" 7 "orcid:1").
  assert (AgentItem.ids (AgentItem.__init__ "Smith [orcid:1] [viaf:2]")
          = ["orcid:1]"; "viaf:2"]) as Hids by reflexivity.
  rewrite Hids in H.
  assert ("orcid:1" ∈ ["orcid:1]"; "viaf:2"]) as Hin.
  { apply H.
    - exists "orcid", "1". split_and!; [|reflexivity|discriminate|reflexivity].
      unfold agent_schemes. right. left.
    - exists "Smith [", "]"%char, " [viaf:2]". split_and!; reflexivity. }
  repeat (apply elem_of_cons in Hin as [Hin|Hin]; [discriminate|]).
  by apply elem_of_nil in Hin.
Qed.

(** C8, amended: the identifiers collected from a raw item are the matches
    of a scan from left to right, none overlapping another: each is a
    scheme of the allowed set, a colon and a non-empty text without
    whitespace, stands immediately before a whitespace character or a
    closing bracket, and is the longest such text at its place, closing
    brackets inside it included.  A text of that form in the raw item need
    not be collected itself, but none is passed over: the first character
    of each lies in a collected match.  The name is the text before the
    first opening bracket, or the whole text when there is none, stripped
    of the whitespace around it.  On
    ["Smith, J. [orcid:0000-0001 viaf:123]"] the agent extractor yields the
    name ["Smith, J."] and the identifiers [orcid:0000-0001] and [viaf:123],
    in that order. *)
Theorem item_extraction (schemes : list string) (raw : string) :
  (∀ id, id ∈ parse_ids schemes raw →
         identifier_of schemes id ∧ ∃ offset, delimited_at raw offset id)
  ∧ (∀ offset id,
       identifier_of schemes id → delimited_at raw offset id →
       ∃ o m, (o, m) ∈ Re.finditer schemes raw
              ∧ m ∈ parse_ids schemes raw
              ∧ delimited_at raw o m
              ∧ o ≤ offset < o + String.length m)
  ∧ (Forall (λ scheme, all_nonspace scheme = true) schemes →
     ∀ o m id,
       (o, m) ∈ Re.finditer schemes raw →
       identifier_of schemes id → delimited_at raw o id →
       String.length id ≤ String.length m)
  ∧ StronglySorted ends_before (Re.finditer schemes raw)
  ∧ (∀ before after,
       raw = before +:+ String "[" after →
       (∀ b a, before ≠ b +:+ String "[" a) →
       parse_name raw = Py.strip before)
  ∧ ((∀ before after, raw ≠ before +:+ String "[" after) →
     parse_name raw = Py.strip raw)
  ∧ AgentItem._parse raw = (parse_name raw, parse_ids agent_schemes raw)
  ∧ VenueInfo._parse raw = (parse_name raw, parse_ids venue_schemes raw)
  ∧ Forall (λ scheme, all_nonspace scheme = true) (agent_schemes ++ venue_schemes)
  ∧ AgentItem._parse "Smith, J. [orcid:0000-0001 viaf:123]"
    = ("Smith, J.", ["orcid:0000-0001"; "viaf:123"]).
Proof.
  assert (∀ o m, (o, m) ∈ Re.finditer schemes raw →
                 identifier_of schemes m ∧ delimited_at raw o m) as Hsound.
  { intros o m (Hid & pre & d & post & Hraw & -> & Hd)%scan_sound.
    split; [done|]. by exists pre, d, post. }
  split_and!.
  - intros id ([o m] & -> & Hin)%list_elem_of_fmap.
    destruct (Hsound _ _ Hin) as [Hid Hat]. eauto.
  - intros offset id Hid (pre & d & post & Hraw & <- & Hd).
    destruct (scan_cover schemes raw 0 0 pre id d post Hraw) as (o & m & Hin & Ho);
      [lia|done..|].
    exists o, m. split_and!; [done| |by apply Hsound|lia..].
    apply list_elem_of_fmap. by exists (o, m).
  - intros Hschemes o m id Hin Hid (pre & d & post & Hraw & <- & Hd).
    by eapply (scan_longest schemes raw 0 0).
  - apply scan_ordered.
  - intros before after Hraw Hfirst. unfold parse_name.
    assert (Py.before_first "[" raw = Some before) as ->; [|done].
    apply before_first_Some. eauto.
  - intros Hnone. unfold parse_name.
    assert (Py.before_first "[" raw = None) as ->; [|done].
    by apply before_first_None.
  - done.
  - done.
  - repeat constructor.
  - reflexivity.
Qed.

(** ** The row modeler *)

(** A label without a dash is recovered from a "label-suffix" text. *)
Lemma label_suffix_inj l1 l2 s1 s2 :
  no_dash l1 → no_dash l2 →
  l1 +:+ "-" +:+ s1 = l2 +:+ "-" +:+ s2 → l1 = l2 ∧ s1 = s2.
Proof.
  revert l2. induction l1 as [|a l1 IH]; intros [|b l2]; simpl;
    rewrite ?app_String, ?app_empty.
  - intros _ _ [= ->]. done.
  - intros _ [Hb _]%andb_prop_elim [= <- _]. by rewrite bool_decide_true in Hb.
  - intros [Ha _]%andb_prop_elim _ [= -> _]. by rewrite bool_decide_true in Ha.
  - intros [_ H1]%andb_prop_elim [_ H2]%andb_prop_elim [= -> Heq].
    destruct (IH l2 H1 H2 Heq) as [-> ->]. done.
Qed.

Lemma item_id_inj row_idx l1 l2 s1 s2 :
  no_dash l1 → no_dash l2 →
  Py.str row_idx +:+ "-" +:+ l1 +:+ "-" +:+ s1
  = Py.str row_idx +:+ "-" +:+ l2 +:+ "-" +:+ s2 →
  l1 = l2 ∧ s1 = s2.
Proof.
  intros H1 H2 Heq. apply (inj (String.app _)) in Heq.
  rewrite !app_String, !app_empty in Heq. injection Heq as Heq.
  by apply label_suffix_inj.
Qed.

Lemma field_value_model_values row_idx label items_in_field :
  items_in_field ≠ [] →
  field_value_model row_idx label items_in_field
  = (λ '(i, v), value_item row_idx label i v) <$> Py.enumerate items_in_field.
Proof. by destruct items_in_field. Qed.

Lemma field_value_model_ids row_idx label items_in_field :
  item_id <$> field_value_model row_idx label items_in_field
  = (λ s, Py.str row_idx +:+ "-" +:+ label +:+ "-" +:+ s)
      <$> id_suffixes items_in_field.
Proof.
  destruct items_in_field as [|v vs]; [done|].
  rewrite field_value_model_values by done.
  unfold id_suffixes, Py.enumerate.
  rewrite <-(fmap_fst_enumerate_from 0 (v :: vs)).
  rewrite <-!list_fmap_compose. apply list_fmap_ext. by intros ? [??].
Qed.

Lemma NoDup_id_suffixes items_in_field : NoDup (id_suffixes items_in_field).
Proof.
  destruct items_in_field as [|v vs]; simpl.
  - apply NoDup_singleton.
  - apply (NoDup_fmap_2 (pretty : Z → string)), NoDup_seqZ.
Qed.

Lemma field_value_model_NoDup row_idx label items_in_field :
  NoDup (item_id <$> field_value_model row_idx label items_in_field).
Proof.
  rewrite field_value_model_ids.
  apply NoDup_fmap_2_strong; [|apply NoDup_id_suffixes].
  intros s1 s2 _ _ Heq. by do 4 apply (inj (String.app _)) in Heq.
Qed.

(** The loop of [model_row_default] on a dictionary with distinct keys
    makes one entry per field, in the order of the fields. *)
Lemma model_fields_of_flat row_idx (flat : Py.dict (list string))
    (built : Py.dict (list ItemRecord)) :
  NoDup (Py.keys built ++ Py.keys flat) →
  foldl (λ fields '(field_label, items_in_field),
           Py.dict_set fields field_label
             (field_value_model row_idx field_label items_in_field))
        built flat
  = built ++ ((λ '(l, vs), (l, field_value_model row_idx l vs)) <$> flat).
Proof.
  revert built. induction flat as [|[l vs] flat IH]; intros built Hnd; simpl.
  - by rewrite app_nil_r.
  - unfold Py.keys in *. simpl in Hnd.
    rewrite dict_set_fresh.
    + rewrite IH.
      * by rewrite <-app_assoc.
      * unfold Py.keys. rewrite fmap_app, <-app_assoc. done.
    + apply NoDup_app in Hnd as (_ & Hdisj & _).
      intros Hin. apply (Hdisj _ Hin). left.
Qed.

Lemma flat_serialise_keys_NoDup row : NoDup (Py.keys (flat_serialise row)).
Proof. destruct row; apply (bool_decide_unpack _); by vm_compute. Qed.

Lemma flat_serialise_keys_no_dash row :
  Forall (λ l, no_dash l) (Py.keys (flat_serialise row)).
Proof. destruct row; repeat constructor. Qed.

Lemma fields_model_row_default row row_idx :
  fields (model_row_default row row_idx)
  = (λ '(l, vs), (l, field_value_model row_idx l vs)) <$> flat_serialise row.
Proof.
  unfold model_row_default; simpl.
  rewrite (model_fields_of_flat row_idx (flat_serialise row) []); [done|].
  apply flat_serialise_keys_NoDup.
Qed.

Lemma dict_get_fmap {V W : Type} (g : string → V → W) (d : Py.dict V) k :
  Py.dict_get ((λ '(l, v), (l, g l v)) <$> d) k = g k <$> Py.dict_get d k.
Proof.
  induction d as [|[l v] d IH]; simpl; [done|].
  destruct (decide (l = k)) as [->|]; simpl; auto.
Qed.

Lemma keys_fmap {V W : Type} (g : string → V → W) (d : Py.dict V) :
  Py.keys ((λ '(l, v), (l, g l v)) <$> d) = Py.keys d.
Proof.
  unfold Py.keys. rewrite <-list_fmap_compose. apply list_fmap_ext. by intros ? [??].
Qed.

Lemma flat_ids_NoDup row_idx (flat : Py.dict (list string)) :
  NoDup (Py.keys flat) → Forall (λ l, no_dash l) (Py.keys flat) →
  NoDup (item_id <$>
           concat (Py.values ((λ '(l, vs), (l, field_value_model row_idx l vs)) <$> flat))).
Proof.
  unfold Py.keys, Py.values.
  induction flat as [|[l vs] flat IH]; simpl; [constructor|].
  rewrite NoDup_cons, Forall_cons. intros [Hl Hnd] [Hdash Hdashes].
  rewrite fmap_app. apply NoDup_app. split_and!.
  - apply field_value_model_NoDup.
  - intros x Hx Hx'. rewrite field_value_model_ids in Hx.
    apply list_elem_of_fmap in Hx as (s & -> & _).
    apply list_elem_of_fmap in Hx' as (it & Hid & Hit).
    apply list_elem_of_In, in_concat in Hit as (items & Hitems & Hit).
    apply list_elem_of_In in Hitems, Hit.
    apply list_elem_of_fmap in Hitems as ([l' items'] & -> & Hentry).
    apply list_elem_of_fmap in Hentry as ([l'' vs'] & [= -> ->] & Hflat).
    assert (item_id it ∈ item_id <$> field_value_model row_idx l'' vs') as Hin
      by by apply list_elem_of_fmap_2.
    rewrite field_value_model_ids in Hin.
    apply list_elem_of_fmap in Hin as (s' & Hid' & _).
    rewrite Hid' in Hid.
    assert (l'' ∈ flat.*1) as Hl'' by (apply list_elem_of_fmap; by exists (l'', vs')).
    apply item_id_inj in Hid as [-> _]; [done|done|].
    by eapply (proj1 (Forall_forall _ _) Hdashes).
  - by apply IH.
Qed.

(** C6: modelling a row gives every field of the flattened row, in order,
    one item per flattened value in the order of the values, with no issue
    and the identifier [{row_idx}-{field_label}-{index}], or, for a field
    without values, the one placeholder item with empty text and the
    identifier [{row_idx}-{field_label}-empty]; no two items of the row
    have the same identifier. *)
Theorem model_row_default_items (row : Row) (row_idx : Z) :
  let m := model_row_default row row_idx in
  contains_issue m = false
  ∧ Py.keys (fields m) = Py.keys (flat_serialise row)
  ∧ (∀ label values,
       Py.dict_get (flat_serialise row) label = Some values →
       ∃ items,
         Py.dict_get (fields m) label = Some items
         ∧ (values = [] → items = [sentinel_item row_idx label])
         ∧ (values ≠ [] →
            length items = length values
            ∧ ∀ i value,
                values !! i = Some value →
                items !! i = Some (value_item row_idx label (Z.of_nat i) value)))
  ∧ NoDup (item_id <$> all_items m).
Proof.
  intros m. subst m. unfold all_items. rewrite fields_model_row_default.
  split_and!.
  - done.
  - apply keys_fmap.
  - intros label values Hget.
    rewrite (dict_get_fmap (field_value_model row_idx)), Hget. simpl.
    eexists; split; [done|]. split.
    + by intros ->.
    + intros Hne. rewrite field_value_model_values by done. split.
      * rewrite length_fmap. apply length_enumerate_from.
      * intros i value Hi. unfold Py.enumerate.
        rewrite list_lookup_fmap, lookup_enumerate_from, Hi. done.
  - apply flat_ids_NoDup.
    + apply flat_serialise_keys_NoDup.
    + apply flat_serialise_keys_no_dash.
Qed.

(** ** Scalar fields of a metadata row *)

Lemma flat_serialise_scalar raw_row field :
  field ∈ scalar_fields →
  Py.dict_get (flat_serialise (Metadata (MetadataRow.__init__ raw_row))) field
  = Some (MetadataRow.scalar (Py.dict_get raw_row field)).
Proof.
  unfold scalar_fields. intros Hin.
  repeat (apply elem_of_cons in Hin as [->|Hin]); try reflexivity.
  by apply elem_of_nil in Hin.
Qed.

(** C3, as stated, fails: an empty cell of a scalar field is not turned
    into an absent value; it is kept as the empty text, which makes one
    ordinary item and not the placeholder. *)
Lemma scalar_empty_text_is_kept :
  ¬ (∀ raw_row field row_idx,
       field ∈ scalar_fields →
       (Py.dict_get raw_row field = None
        ∨ Py.dict_get raw_row field = Some EmptyString) →
       modelled_as_sentinel raw_row field row_idx).
Proof.
  intros H.
  destruct (H [("title", EmptyString)] "title" 0%Z) as [Hflat _].
  - unfold scalar_fields. repeat constructor.
  - by right.
  - vm_compute in Hflat. discriminate.
Qed.

(** C3, amended: a scalar field missing from the raw row is absent, is
    flattened to the empty list and is modelled as the one placeholder
    item; a scalar field that is present, the empty text included, is
    passed through as it is, flattened to the list of that one text and
    modelled as the one ordinary item of index 0. *)
Theorem scalar_field_modelled (raw_row : RawRow) (field : string) (row_idx : Z) :
  field ∈ scalar_fields →
  (Py.dict_get raw_row field = None →
   modelled_as_sentinel raw_row field row_idx)
  ∧ (∀ s, Py.dict_get raw_row field = Some s →
          modelled_as_value raw_row field row_idx s).
Proof.
  intros Hin. unfold modelled_as_sentinel, modelled_as_value.
  rewrite fields_model_row_default, (dict_get_fmap (field_value_model row_idx)).
  rewrite flat_serialise_scalar by done.
  split; [intros ->|intros s ->]; done.
Qed.

Lemma scalar_field_modelled_witness :
  "title" ∈ scalar_fields
  ∧ Py.dict_get [("id", "doi:10.1/x")] "title" = None
  ∧ Py.dict_get [("id", "doi:10.1/x"); ("title", EmptyString)] "title"
    = Some EmptyString
  ∧ modelled_as_sentinel [("id", "doi:10.1/x")] "title" 4
  ∧ modelled_as_value [("id", "doi:10.1/x"); ("title", EmptyString)] "title" 4
      EmptyString.
Proof.
  assert ("title" ∈ scalar_fields) as Hin by (unfold scalar_fields; repeat constructor).
  split_and!; [exact Hin|reflexivity|reflexivity| |].
  - apply (scalar_field_modelled [("id", "doi:10.1/x")] "title" 4 Hin).
    reflexivity.
  - apply (scalar_field_modelled
             [("id", "doi:10.1/x"); ("title", EmptyString)] "title" 4 Hin).
    reflexivity.
Defined.

(** ** Attaching an error to items *)

Lemma add_issue_raw err_id it : raw (add_issue err_id it) = raw it.
Proof. unfold add_issue. by case_bool_decide. Qed.

Lemma add_issue_item_id err_id it : item_id (add_issue err_id it) = item_id it.
Proof. unfold add_issue. by case_bool_decide. Qed.

Lemma add_issue_elem err_id it : err_id ∈ issues (add_issue err_id it).
Proof.
  unfold add_issue. case_bool_decide; [done|]. simpl.
  apply elem_of_app. right. constructor.
Qed.

Lemma add_issue_present err_id it :
  err_id ∈ issues it → add_issue err_id it = it.
Proof. intros H. unfold add_issue. by rewrite bool_decide_eq_true_2. Qed.

Lemma add_issue_absent err_id it :
  err_id ∉ issues it → issues (add_issue err_id it) = issues it ++ [err_id].
Proof. intros H. unfold add_issue. by rewrite bool_decide_eq_false_2. Qed.

Lemma add_issue_idempotent err_id it :
  add_issue err_id (add_issue err_id it) = add_issue err_id it.
Proof. apply add_issue_present, add_issue_elem. Qed.

Lemma add_issue_NoDup err_id it :
  NoDup (issues it) → NoDup (issues (add_issue err_id it)).
Proof.
  intros Hnd. unfold add_issue. case_bool_decide; [done|]. simpl.
  apply NoDup_app. split_and!; [done| |apply NoDup_singleton].
  intros x Hx ->%list_elem_of_singleton. done.
Qed.

Lemma add_issue_nonempty err_id it : issues (add_issue err_id it) ≠ [].
Proof.
  intros H. pose proof (add_issue_elem err_id it) as Hin.
  rewrite H in Hin. by apply elem_of_nil in Hin.
Qed.

(** What one step of the innermost loop does when it succeeds. *)
Lemma enrich_item_Ok err_id label fields j fields' :
  enrich_item err_id label fields j = Ok fields' ↔
  ∃ items k it,
    Py.dict_get fields label = Some items
    ∧ Py.position (length items) j = Some k
    ∧ items !! k = Some it
    ∧ fields' = Py.dict_set fields label (<[k := add_issue err_id it]> items).
Proof.
  unfold enrich_item, Py.dict_getitem. split.
  - destruct (Py.dict_get fields label) as [items|]; simpl; [|done].
    destruct (Py.getitem items j) as [it|] eqn:Hget; simpl; [|done].
    apply getitem_Ok in Hget as (k & Hk & Hit).
    unfold Py.setitem. rewrite Hk. simpl. intros [= <-]. by exists items, k, it.
  - intros (items & k & it & -> & Hk & Hit & ->). simpl.
    assert (Py.getitem items j = Ok it) as -> by (apply getitem_Ok; eauto).
    simpl. unfold Py.setitem. by rewrite Hk.
Qed.

(** ... and when it fails: the label is unknown to the row, or the index
    is outside the items of the field. *)
Lemma enrich_item_Raise err_id label fields j e :
  enrich_item err_id label fields j = Raise e ↔
  (Py.dict_get fields label = None ∧ e = KeyError label)
  ∨ (∃ items, Py.dict_get fields label = Some items
              ∧ Py.position (length items) j = None ∧ e = IndexError).
Proof.
  unfold enrich_item, Py.dict_getitem. split.
  - destruct (Py.dict_get fields label) as [items|]; simpl.
    + destruct (Py.getitem items j) as [it|] eqn:Hget; simpl.
      * apply getitem_Ok in Hget as (k & Hk & Hit).
        unfold Py.setitem. by rewrite Hk.
      * apply getitem_Raise in Hget as [Hk ->]. intros [= <-]. right. eauto.
    + intros [= <-]. by left.
  - intros [[-> ->]|(items & -> & Hk & ->)]; simpl; [done|].
    assert (Py.getitem items j = Raise IndexError) as ->
      by by apply getitem_Raise.
    done.
Qed.

(** The number of items of every field: what the bounds of a report are
    checked against.  Enrichment never changes it. *)
Lemma enrich_item_sizes err_id label fields j fields' l :
  enrich_item err_id label fields j = Ok fields' →
  field_size fields' l = field_size fields l.
Proof.
  intros (items & k & it & Hitems & Hk & Hit & ->)%enrich_item_Ok.
  unfold field_size. destruct (decide (label = l)) as [->|Hne].
  - rewrite dict_get_set_eq, Hitems. simpl. by rewrite length_insert.
  - by rewrite dict_get_set_ne.
Qed.

Lemma enrich_item_keys err_id label fields j fields' :
  enrich_item err_id label fields j = Ok fields' →
  Py.keys fields' = Py.keys fields.
Proof.
  intros (items & k & it & Hitems & Hk & Hit & ->)%enrich_item_Ok.
  apply keys_dict_set_present. by rewrite Hitems.
Qed.

(** A property of items kept by [add_issue] is kept by the step. *)
Lemma enrich_item_Forall (P : ItemRecord → Prop) err_id label fields j fields' :
  (∀ it, P it → P (add_issue err_id it)) →
  Forall P (concat (Py.values fields)) →
  enrich_item err_id label fields j = Ok fields' →
  Forall P (concat (Py.values fields')).
Proof.
  intros HP Hall (items & k & it & Hitems & Hk & Hit & ->)%enrich_item_Ok.
  destruct (dict_set_present_lookup fields label
              (<[k := add_issue err_id it]> items) items Hitems)
    as (n & Hn & ->).
  unfold Py.values in *. rewrite Forall_concat in Hall |- *.
  rewrite list_fmap_insert. simpl. apply Forall_insert; [done|].
  assert (Forall P items) as Hitems'.
  { eapply (proj1 (Forall_forall _ _) Hall).
    apply list_elem_of_fmap. exists (label, items).
    split; [done|]. by eapply list_elem_of_lookup_2. }
  apply Forall_insert; [done|]. apply HP.
  eapply (proj1 (Forall_forall _ _) Hitems').
  by eapply list_elem_of_lookup_2.
Qed.

(** ** Enriching a row *)

Lemma enrich_row_Ok row err err_id row' :
  enrich_row row err err_id = Ok row' ↔
  ∃ fields',
    Py.for_each (enrich_table_entry err_id) (fields row)
      (ErrorObject.table (ErrorObject.position err)) = Ok fields'
    ∧ row' = {| contains_issue := true; row_idx := row_idx row; fields := fields' |}.
Proof.
  unfold enrich_row. split.
  - destruct (Py.for_each _ _ _) as [fields'|]; simpl; [|done].
    intros [= <-]. eauto.
  - intros (fields' & -> & ->). done.
Qed.

(** Whatever every single attachment keeps, the enrichment of a row keeps. *)
Lemma enrich_row_fields_invariant (I : Py.dict (list ItemRecord) → Prop)
    row err err_id row' :
  (∀ label fields j fields',
     I fields → enrich_item err_id label fields j = Ok fields' → I fields') →
  I (fields row) → enrich_row row err err_id = Ok row' → I (fields row').
Proof.
  intros Hstep Hrow (fields' & Hloop & ->)%enrich_row_Ok. simpl.
  revert Hloop. apply for_each_invariant; [|done].
  intros f1 [key field_info] f2 _ Hf1. simpl.
  apply for_each_invariant; [|done].
  intros f3 [label items_indexes] f4 _ Hf3. simpl.
  apply for_each_invariant; [|done].
  intros f5 j f6 _ Hf5. by apply Hstep.
Qed.

Lemma enrich_row_contains_issue row err err_id row' :
  enrich_row row err err_id = Ok row' → contains_issue row' = true.
Proof. by intros (fields' & _ & ->)%enrich_row_Ok. Qed.

Lemma enrich_row_row_idx row err err_id row' :
  enrich_row row err err_id = Ok row' → row_idx row' = row_idx row.
Proof. by intros (fields' & _ & ->)%enrich_row_Ok. Qed.

Lemma enrich_row_sizes row err err_id row' l :
  enrich_row row err err_id = Ok row' →
  field_size (fields row') l = field_size (fields row) l.
Proof.
  apply (enrich_row_fields_invariant
           (λ f, field_size f l = field_size (fields row) l)); [|done].
  intros label f j f' Hf Hstep.
  by rewrite (enrich_item_sizes _ _ _ _ _ _ Hstep).
Qed.

Lemma enrich_row_keys row err err_id row' :
  enrich_row row err err_id = Ok row' →
  Py.keys (fields row') = Py.keys (fields row).
Proof.
  apply (enrich_row_fields_invariant
           (λ f, Py.keys f = Py.keys (fields row))); [|done].
  intros label f j f' Hf Hstep.
  by rewrite (enrich_item_keys _ _ _ _ _ Hstep).
Qed.

Lemma enrich_row_Forall (P : ItemRecord → Prop) row err err_id row' :
  (∀ it, P it → P (add_issue err_id it)) →
  Forall P (all_items row) → enrich_row row err err_id = Ok row' →
  Forall P (all_items row').
Proof.
  intros HP. unfold all_items.
  apply (enrich_row_fields_invariant (λ f, Forall P (concat (Py.values f)))).
  intros label f j f' Hf Hstep. by eapply enrich_item_Forall.
Qed.

(** ** Enriching the rows named by an error *)

Lemma enrich_rows_Ok out_data err err_id out_data' :
  enrich_rows out_data err err_id = Ok out_data' ↔
  ∃ rows,
    Py.comprehension Py.int
      (Py.keys (ErrorObject.table (ErrorObject.position err))) = Ok rows
    ∧ Py.for_each
        (λ out_data i,
           row ← Py.getitem out_data i;
           row' ← enrich_row row err err_id;
           Py.setitem out_data i row')
        out_data rows = Ok out_data'.
Proof.
  unfold enrich_rows. split.
  - destruct (Py.comprehension _ _) as [rows|]; simpl; [eauto|done].
  - intros (rows & -> & H). done.
Qed.

(** One assignment [out_data[i] = enrich_row(out_data[i], ...)]. *)
Lemma enrich_rows_step_Ok (out_data : list RowModel) err err_id i out_data' :
  (row ← Py.getitem out_data i;
   row' ← enrich_row row err err_id;
   Py.setitem out_data i row') = Ok out_data' ↔
  ∃ k row row',
    Py.position (length out_data) i = Some k
    ∧ out_data !! k = Some row
    ∧ enrich_row row err err_id = Ok row'
    ∧ out_data' = <[k := row']> out_data.
Proof.
  split.
  - destruct (Py.getitem out_data i) as [row|] eqn:Hget; simpl; [|done].
    apply getitem_Ok in Hget as (k & Hk & Hrow).
    destruct (enrich_row row err err_id) as [row'|] eqn:Hrow'; simpl; [|done].
    unfold Py.setitem. rewrite Hk. intros [= <-]. by exists k, row, row'.
  - intros (k & row & row' & Hk & Hrow & Hrow' & ->).
    assert (Py.getitem out_data i = Ok row) as -> by (apply getitem_Ok; eauto).
    simpl. rewrite Hrow'. simpl. unfold Py.setitem. by rewrite Hk.
Qed.

(** Whatever the enrichment of one row keeps, the block keeps for every
    row of the table. *)
Lemma enrich_rows_Forall (J : RowModel → Prop) out_data err err_id out_data' :
  (∀ row row', J row → enrich_row row err err_id = Ok row' → J row') →
  Forall J out_data → enrich_rows out_data err err_id = Ok out_data' →
  Forall J out_data'.
Proof.
  intros HJ Hall (rows & _ & Hloop)%enrich_rows_Ok.
  revert Hloop. apply for_each_invariant; [|done].
  intros d i d' _ Hd (k & row & row' & Hk & Hrow & Hrow' & ->)%enrich_rows_step_Ok.
  apply Forall_insert; [done|]. eapply HJ; [|done].
  eapply (proj1 (Forall_forall _ _) Hd). by eapply list_elem_of_lookup_2.
Qed.

(** Row by row: the block keeps every relation to the row that was there
    before that the enrichment of a row keeps. *)
Lemma enrich_rows_pointwise (R : RowModel → RowModel → Prop)
    out_data err err_id out_data' :
  (∀ row, R row row) →
  (∀ row0 row row', R row0 row → enrich_row row err err_id = Ok row' → R row0 row') →
  enrich_rows out_data err err_id = Ok out_data' →
  Forall2 R out_data out_data'.
Proof.
  intros Hrefl HR (rows & _ & Hloop)%enrich_rows_Ok.
  revert Hloop. apply for_each_invariant.
  - intros d i d' _ Hd (k & row & row' & Hk & Hrow & Hrow' & ->)%enrich_rows_step_Ok.
    destruct (Forall2_lookup_r _ _ _ _ _ Hd Hrow) as (row0 & Hrow0 & HR0).
    rewrite <-(list_insert_id out_data k row0) by done.
    apply Forall2_insert; [done|]. by eapply HR.
  - by apply Forall_Forall2_diag, Forall_true.
Qed.

(** ** The loop over the report *)

Section MapErrors.
Variable fl : Q → Q.
Variable choice : gset string → nat.
Implicit Types (data : list Row) (report : list ErrorObject.t).
Implicit Types (out_data : list RowModel) (out_errors : Py.dict ErrorInfo.t).
Implicit Types (colors : gset string).

Lemma map_error_Ok table_type out_data out_errors colors k err
    out_data' out_errors' colors' :
  map_error choice table_type (out_data, out_errors, colors) (k, err)
  = Ok (out_data', out_errors', colors') ↔
  ∃ c,
    set_pop choice colors = Ok (c, colors')
    ∧ out_errors'
      = Py.dict_set out_errors (error_id table_type k)
          {| ErrorInfo.message := ErrorObject.message err;
             ErrorInfo.label := ErrorObject.error_label err;
             ErrorInfo.level := ErrorObject.error_type err;
             ErrorInfo.color := c |}
    ∧ enrich_rows out_data err (error_id table_type k) = Ok out_data'.
Proof.
  unfold map_error. split.
  - destruct (set_pop choice colors) as [[c colors1]|]; simpl; [|done].
    destruct (enrich_rows _ _ _) as [d1|]; simpl; [|done].
    intros [= <- <- <-]. eauto.
  - intros (c & -> & -> & H). simpl. by rewrite H.
Qed.

(** An invariant of the table of row models, indexed by the number of
    errors mapped so far, is carried through the loop. *)
Lemma map_loop_data_invariant (I : Z → list RowModel → Prop)
    table_type report k st st' :
  (∀ j err out_data out_data',
     report !! j = Some err →
     I (k + Z.of_nat j)%Z out_data →
     enrich_rows out_data err (error_id table_type (k + Z.of_nat j)) = Ok out_data' →
     I (k + Z.of_nat j + 1)%Z out_data') →
  I k st.1.1 →
  Py.for_each (map_error choice table_type) st (Py.enumerate_from k report) = Ok st' →
  I (k + Z.of_nat (length report))%Z st'.1.1.
Proof.
  revert k st. induction report as [|err report IH]; intros k st Hstep Hk; simpl.
  - intros [= <-]. by rewrite Z.add_0_r.
  - destruct st as [[d errs] colors].
    destruct (map_error choice table_type (d, errs, colors) (k, err))
      as [[[d1 errs1] colors1]|] eqn:E; simpl; [|done].
    apply map_error_Ok in E as (c & _ & _ & Hrows).
    intros Hloop. apply IH in Hloop.
    + by replace (k + Z.of_nat (S (length report)))%Z
        with (k + 1 + Z.of_nat (length report))%Z by lia.
    + intros j err' d2 d3 Hj Hd2 Hd3.
      replace (k + 1 + Z.of_nat j + 1)%Z with (k + Z.of_nat (S j) + 1)%Z by lia.
      apply (Hstep (S j) err' d2); [done| |].
      * by replace (k + Z.of_nat (S j))%Z with (k + 1 + Z.of_nat j)%Z by lia.
      * by replace (k + Z.of_nat (S j))%Z with (k + 1 + Z.of_nat j)%Z by lia.
    + simpl. specialize (Hstep 0 err d d1 eq_refl).
      rewrite Z.add_0_r in Hstep. by apply Hstep.
Qed.

(** A run that returns: the table is not empty, colour allocation came to
    an end, and every turn of the loop succeeded. *)
Lemma map_errors_to_data_Ok draws data report out_data out_errors :
  map_errors_to_data fl choice draws data report = Some (Ok (out_data, out_errors)) ↔
  ∃ first colors colors',
    data !! 0 = Some first
    ∧ generate_error_colors fl draws (length report) = Some colors
    ∧ Py.for_each (map_error choice (table_type_of first))
        (model_rows data, [], colors) (Py.enumerate report)
      = Ok (out_data, out_errors, colors').
Proof.
  unfold map_errors_to_data. split.
  - destruct (Py.getitem data 0) as [first|] eqn:Hfirst; [|done].
    apply getitem_Ok in Hfirst as (k & Hk & Hfirst).
    assert (k = 0) as -> by (unfold Py.position in Hk; simpl in Hk;
      destruct (0 <? Z.of_nat (length data))%Z; by simplify_eq).
    destruct (generate_error_colors fl draws (length report)) as [colors|];
      simpl; [|done].
    destruct (Py.for_each _ _ _) as [[[d errs] colors']|] eqn:Hloop;
      simpl; [|done].
    intros [= <- <-]. by exists first, colors, colors'.
  - intros (first & colors & colors' & Hfirst & -> & Hloop).
    assert (Py.getitem data 0 = Ok first) as ->.
    { apply getitem_Ok. exists 0. split; [|done].
      apply (position_nonneg _ 0). apply lookup_lt_Some in Hfirst. lia. }
    simpl. by rewrite Hloop.
Qed.

Lemma map_errors_data_invariant (I : Z → list RowModel → Prop)
    draws data report out_data out_errors :
  map_errors_to_data fl choice draws data report = Some (Ok (out_data, out_errors)) →
  (∀ first j err d d',
     data !! 0 = Some first →
     report !! j = Some err →
     I (Z.of_nat j) d →
     enrich_rows d err (error_id (table_type_of first) (Z.of_nat j)) = Ok d' →
     I (Z.of_nat j + 1)%Z d') →
  I 0%Z (model_rows data) →
  I (Z.of_nat (length report)) out_data.
Proof.
  intros (first & colors & colors' & Hfirst & _ & Hloop)%map_errors_to_data_Ok
    Hstep H0.
  apply (map_loop_data_invariant I) in Hloop; [done| |done].
  intros j err d d' Hj. rewrite !Z.add_0_l. by apply Hstep.
Qed.

End MapErrors.

(** ** The whole-field wildcard *)

(** One coordinate, in the body of the loop over the fields: item indexes
    [None] are handled as the index list [[0]], so that this one coordinate
    sends the identifier to the first item of the field, which in the model
    of a row is the placeholder item when the field has no value and the
    item of the first value otherwise, and leaves every other item of the
    field, and every other field, as it was. *)
Lemma whole_field_wildcard (err_id label : string)
    (fields0 : Py.dict (list ItemRecord)) (it : ItemRecord)
    (rest : list ItemRecord) :
  Py.dict_get fields0 label = Some (it :: rest) →
  enrich_field err_id fields0 (label, None)
  = enrich_field err_id fields0 (label, Some [0%Z])
  ∧ (∃ fields',
       enrich_field err_id fields0 (label, None) = Ok fields'
       ∧ Py.dict_get fields' label = Some (add_issue err_id it :: rest)
       ∧ ∀ l, l ≠ label → Py.dict_get fields' l = Py.dict_get fields0 l)
  ∧ err_id ∈ issues (add_issue err_id it)
  ∧ raw (add_issue err_id it) = raw it
  ∧ item_id (add_issue err_id it) = item_id it
  ∧ (∀ row row_idx values,
       fields0 = fields (model_row_default row row_idx) →
       Py.dict_get (flat_serialise row) label = Some values →
       it = match values with
            | [] => sentinel_item row_idx label
            | value :: _ => value_item row_idx label 0 value
            end).
Proof.
  intros Hget. split_and!.
  - done.
  - exists (Py.dict_set fields0 label (add_issue err_id it :: rest)).
    split_and!.
    + simpl. unfold enrich_item, Py.dict_getitem. rewrite Hget. done.
    + apply dict_get_set_eq.
    + intros l Hl. by apply dict_get_set_ne.
  - apply add_issue_elem.
  - apply add_issue_raw.
  - apply add_issue_item_id.
  - intros row row_idx values -> Hvalues.
    rewrite fields_model_row_default,
      (dict_get_fmap (field_value_model row_idx)), Hvalues in Hget.
    destruct values; simpl in Hget; by simplify_eq.
Qed.

(** C5 fails on the code: the identifier of an entry whose item indexes
    for a field of a row are [None] does not stay on the first item of that
    field.  [enrich_row] walks the coordinates the entry lists under every
    row key, so on an entry that names the whole [author] field of row 0
    and the third author of row 1, the third author of row 0 receives the
    identifier as well, although no coordinate of the entry addresses
    it. *)
Lemma wildcard_reaches_another_item :
  ∃ out_data out_errors,
    map_errors_to_data Sample.fl Sample.choice Sample.draws
      [Sample.trio; Sample.trio] [Sample.wildcard_and_third]
    = Some (Ok (out_data, out_errors))
    ∧ Py.dict_get
        (ErrorObject.table (ErrorObject.position Sample.wildcard_and_third)) "0"
      = Some [("author", None)]
    ∧ raws <$> (out_data !! 0 ≫= λ row, Py.dict_get (fields row) "author")
      = Some ["A"; "B"; "C"]
    ∧ issues_at out_data 0 "author" 0 = Some ["meta-0"]
    ∧ issues_at out_data 0 "author" 1 = Some []
    ∧ issues_at out_data 0 "author" 2 = Some ["meta-0"]
    ∧ ¬ addresses (model_rows [Sample.trio; Sample.trio])
          Sample.wildcard_and_third 0 "author" 2.
Proof.
  eexists _, _. split_and!.
  - vm_compute. reflexivity.
  - reflexivity.
  - reflexivity.
  - reflexivity.
  - reflexivity.
  - reflexivity.
  - intros (key & field_info & r & row & items_indexes & j & items
            & Hentry & Hint & Hpos & Hrow & Hfield & Hj & Hitems & Hk).
    simpl in Hentry.
    apply elem_of_cons in Hentry as [[= -> ->]|Hentry].
    + apply elem_of_cons in Hfield as [[= ->]|Hfield];
        [|by apply elem_of_nil in Hfield].
      simpl in Hj. apply list_elem_of_singleton in Hj as ->.
      vm_compute in Hrow. injection Hrow as <-.
      vm_compute in Hitems. injection Hitems as <-.
      vm_compute in Hk. discriminate.
    + apply elem_of_cons in Hentry as [[= -> ->]|Hentry];
        [|by apply elem_of_nil in Hentry].
      vm_compute in Hint. injection Hint as <-.
      vm_compute in Hpos. discriminate.
Qed.

(** ** The [issues] of an item: an ordered set *)

Global Instance error_id_inj table_type : Inj (=) (=) (error_id table_type).
Proof.
  intros i j H. unfold error_id in H.
  do 2 apply (inj (String.app _)) in H. by apply (inj pretty) in H.
Qed.

Lemma report_ids_snoc table_type (j : nat) :
  report_ids table_type (Z.of_nat j + 1)
  = report_ids table_type (Z.of_nat j) ++ [error_id table_type (Z.of_nat j)].
Proof.
  unfold report_ids. rewrite seqZ_app by lia. by rewrite fmap_app.
Qed.

Lemma report_ids_NoDup table_type n : NoDup (report_ids table_type n).
Proof. apply (NoDup_fmap_2 _), NoDup_seqZ. Qed.

Lemma sublist_snoc_absent {A} (l k : list A) x :
  l `sublist_of` k ++ [x] → x ∉ l → l `sublist_of` k.
Proof.
  intros (l1 & l2 & -> & H1 & H2)%sublist_app_r Hx.
  destruct l2 as [|y l2].
  - by rewrite app_nil_r.
  - apply sublist_cons_l in H2 as (k1 & k2 & Hk & _).
    destruct k1 as [|? [|??]]; simplify_eq/=. set_solver.
Qed.

Lemma add_issue_sublist table_type (j : nat) it :
  issues it `sublist_of` report_ids table_type (Z.of_nat j + 1) →
  issues (add_issue (error_id table_type (Z.of_nat j)) it)
    `sublist_of` report_ids table_type (Z.of_nat j + 1).
Proof.
  intros H. destruct (decide (error_id table_type (Z.of_nat j) ∈ issues it)) as [Hin|Hout].
  - by rewrite add_issue_present.
  - rewrite add_issue_absent by done. rewrite report_ids_snoc in H |- *.
    apply sublist_app; [|done]. by eapply sublist_snoc_absent.
Qed.

Lemma field_value_model_no_issue row_idx label items_in_field :
  Forall (λ it, issues it = []) (field_value_model row_idx label items_in_field).
Proof.
  destruct items_in_field as [|v vs].
  - by repeat constructor.
  - rewrite field_value_model_values by done.
    apply Forall_fmap, Forall_true. by intros [??].
Qed.

Lemma model_row_default_no_issue row row_idx :
  Forall (λ it, issues it = []) (all_items (model_row_default row row_idx)).
Proof.
  unfold all_items. rewrite fields_model_row_default.
  apply Forall_concat. unfold Py.values. rewrite <-list_fmap_compose.
  apply Forall_fmap, Forall_true. intros [l vs]. simpl.
  apply field_value_model_no_issue.
Qed.

Lemma model_rows_no_issue data :
  Forall (λ row, Forall (λ it, issues it = []) (all_items row)) (model_rows data).
Proof.
  unfold model_rows. apply Forall_fmap, Forall_true. intros [idx row]. simpl.
  apply model_row_default_no_issue.
Qed.

Lemma dict_set_set {V} (d : Py.dict V) k v v' :
  Py.dict_set (Py.dict_set d k v) k v' = Py.dict_set d k v'.
Proof.
  induction d as [|[k0 v0] d IH]; simpl.
  - by rewrite decide_True.
  - destruct (decide (k0 = k)) as [->|Hne]; simpl.
    + by rewrite decide_True.
    + rewrite decide_False by done. by rewrite IH.
Qed.

(** Attaching the identifier a second time changes nothing. *)
Lemma enrich_item_twice err_id label fields j fields' :
  enrich_item err_id label fields j = Ok fields' →
  enrich_item err_id label fields' j = Ok fields'.
Proof.
  intros (items & k & it & Hitems & Hk & Hit & ->)%enrich_item_Ok.
  apply enrich_item_Ok.
  exists (<[k := add_issue err_id it]> items), k, (add_issue err_id it).
  pose proof (position_lt _ _ _ Hk) as Hlt.
  split_and!.
  - apply dict_get_set_eq.
  - by rewrite length_insert.
  - by apply list_lookup_insert_eq.
  - by rewrite dict_set_set, add_issue_idempotent, list_insert_insert_eq.
Qed.

(** C7: the [issues] of an item behave as an append-only set in report
    order.  A missing identifier is appended at the end and one that is
    there is not added again, so that attaching the same identifier to the
    same item a second time changes nothing; and after a run that returns,
    the [issues] of every item have no duplicate and list identifiers of
    the report in the order of the report. *)
Theorem issues_append_only_set :
  (∀ err_id it,
     issues (add_issue err_id it)
     = if bool_decide (err_id ∈ issues it) then issues it
       else issues it ++ [err_id])
  ∧ (∀ err_id label fields j fields',
       enrich_item err_id label fields j = Ok fields' →
       enrich_item err_id label fields' j = Ok fields')
  ∧ (∀ (fl : Q → Q) (choice : gset string → nat) (draws : list (Q * Q * Q))
       (data : list Row) (report : list ErrorObject.t)
       (out_data : list RowModel) (out_errors : Py.dict ErrorInfo.t)
       (first : Row) (row : RowModel) (it : ItemRecord),
       map_errors_to_data fl choice draws data report
       = Some (Ok (out_data, out_errors)) →
       data !! 0 = Some first →
       row ∈ out_data → it ∈ all_items row →
       NoDup (issues it)
       ∧ issues it `sublist_of`
           report_ids (table_type_of first) (Z.of_nat (length report))).
Proof.
  split_and!.
  - intros err_id it. unfold add_issue. by case_bool_decide.
  - apply enrich_item_twice.
  - intros fl choice draws data report out_data out_errors first row it
      Hrun Hfirst Hrow Hit.
    assert (Forall (λ row, Forall (λ it,
        issues it `sublist_of`
          report_ids (table_type_of first) (Z.of_nat (length report)))
        (all_items row)) out_data) as Hall.
    { apply (map_errors_data_invariant fl choice
        (λ n d, Forall (λ row, Forall (λ it,
           issues it `sublist_of` report_ids (table_type_of first) n)
           (all_items row)) d) _ _ _ _ _ Hrun).
      - intros first' j err d d' Hfirst' Herr Hd. simplify_eq.
        apply enrich_rows_Forall.
        + intros row1 row'. apply enrich_row_Forall.
          intros it1. apply add_issue_sublist.
        + eapply Forall_impl; [done|]. intros row1 Hrow1. simpl in *.
          eapply Forall_impl; [done|]. intros it1 Hit1. simpl in *.
          rewrite report_ids_snoc. by apply sublist_inserts_r.
      - eapply Forall_impl; [apply model_rows_no_issue|].
        intros row1 Hrow1. simpl in *.
        eapply Forall_impl; [done|]. intros it1 ->. apply sublist_nil_l. }
    rewrite Forall_forall in Hall. specialize (Hall _ Hrow).
    rewrite Forall_forall in Hall. specialize (Hall _ Hit).
    split; [|done]. eapply sublist_NoDup; [|done]. apply report_ids_NoDup.
Qed.

(** ** The flag [contains_issue] *)

Lemma comprehension_Ok {A B} (f : A → Py.result B) l ys :
  Py.comprehension f l = Ok ys ↔ Forall2 (λ x y, f x = Ok y) l ys.
Proof.
  revert ys. induction l as [|x l IH]; intros ys; simpl.
  - split; [intros [= <-]; constructor|by intros ->%Forall2_nil_inv_l].
  - split.
    + destruct (f x) as [y|] eqn:E; simpl; [|done].
      destruct (Py.comprehension f l) as [ys'|]; simpl; [|done].
      intros [= <-]. constructor; [done|]. by apply IH.
    + intros (y & ys' & Hy & Hys & ->)%Forall2_cons_inv_l.
      rewrite Hy. simpl. apply IH in Hys. by rewrite Hys.
Qed.

(** The rows the block assigns to, and what it leaves alone. *)
Lemma enrich_loop_positions err err_id rows (d d' : list RowModel) :
  Py.for_each
    (λ out_data i,
       row ← Py.getitem out_data i;
       row' ← enrich_row row err err_id;
       Py.setitem out_data i row')
    d rows = Ok d' →
  length d' = length d
  ∧ (∀ r, r ∈ rows → is_Some (Py.position (length d) r))
  ∧ (∀ i, Exists (λ r, Py.position (length d) r = Some i) rows →
          ∃ row', d' !! i = Some row' ∧ contains_issue row' = true)
  ∧ (∀ i, ¬ Exists (λ r, Py.position (length d) r = Some i) rows →
          d' !! i = d !! i).
Proof.
  revert d. induction rows as [|r rows IH]; intros d.
  - simpl. intros [= <-]. split_and!; [done|by intros ? ?%elem_of_nil| |done].
    by intros i ?%Exists_nil.
  - match goal with |- context [Py.for_each ?f] => set (step := f) in * end.
    simpl. destruct (step d r) as [d1|] eqn:E; simpl; [|done].
    apply enrich_rows_step_Ok in E as (k & row & row' & Hk & Hrow & Hrow' & ->).
    intros (Hlen & Hpos & Hset & Hkeep)%IH.
    rewrite length_insert in Hlen, Hpos, Hset, Hkeep.
    split_and!.
    + done.
    + intros r' [->|Hin]%elem_of_cons; eauto.
    + intros i Hi.
      destruct (decide (Exists (λ r, Py.position (length d) r = Some i) rows))
        as [Hrows|Hrows]; [by apply Hset|].
      apply Exists_cons in Hi as [Hi|Hi]; [|done]. simplify_eq.
      rewrite (Hkeep _ Hrows).
      rewrite list_lookup_insert_eq by by eapply lookup_lt_Some.
      eexists; split; [done|]. by eapply enrich_row_contains_issue.
    + intros i Hi. rewrite Exists_cons in Hi.
      rewrite Hkeep by tauto.
      apply list_lookup_insert_ne. intros ->. tauto.
Qed.

Lemma row_named_snoc n report err i :
  row_named n (report ++ [err]) i ↔
  row_named n report i
  ∨ ∃ key r, key ∈ Py.keys (ErrorObject.table (ErrorObject.position err))
             ∧ Py.int key = Ok r ∧ Py.position n r = Some i.
Proof.
  unfold row_named. split.
  - intros (err' & key & r & [Hin| ->%list_elem_of_singleton]%elem_of_app & H);
      [left|right]; eauto.
  - intros [(err' & key & r & Hin & H)|(key & r & H)].
    + exists err', key, r. split; [apply elem_of_app; by left|done].
    + exists err, key, r. split; [apply elem_of_app; right; by left|done].
Qed.

Lemma model_rows_length data : length (model_rows data) = length data.
Proof. unfold model_rows. rewrite length_fmap. apply length_enumerate_from. Qed.

Lemma model_rows_lookup data i row :
  data !! i = Some row →
  model_rows data !! i = Some (model_row_default row (Z.of_nat i)).
Proof.
  intros H. unfold model_rows, Py.enumerate.
  by rewrite list_lookup_fmap, lookup_enumerate_from, H.
Qed.

Lemma flags_follow_names_init data report :
  flags_follow_names (length data) report 0 (model_rows data).
Proof.
  split; [apply model_rows_length|]. intros i row Hrow.
  assert (∃ r, row = model_row_default r (Z.of_nat i)) as [r ->].
  { destruct (data !! i) as [r|] eqn:E.
    - exists r. apply model_rows_lookup in E. congruence.
    - apply lookup_ge_None in E. apply lookup_lt_Some in Hrow.
      rewrite model_rows_length in Hrow. lia. }
  split.
  - simpl. split; [done|]. by intros (? & ? & ? & ?%elem_of_nil & _).
  - intros _. apply model_row_default_no_issue.
Qed.

Lemma flags_follow_names_step n report (j : nat) err err_id d d' :
  report !! j = Some err →
  flags_follow_names n report (Z.of_nat j) d →
  enrich_rows d err err_id = Ok d' →
  flags_follow_names n report (Z.of_nat j + 1) d'.
Proof.
  intros Herr [Hlen Hd] (rows & Hrows%comprehension_Ok & Hloop)%enrich_rows_Ok.
  apply enrich_loop_positions in Hloop as (Hlen' & Hpos & Hset & Hkeep).
  split; [congruence|]. intros i row' Hrow'.
  replace (Z.to_nat (Z.of_nat j + 1)) with (S j) by lia.
  rewrite Nat2Z.id in Hd.
  rewrite (take_S_r _ _ _ Herr), row_named_snoc.
  assert (Exists (λ r, Py.position (length d) r = Some i) rows ↔
          ∃ key r, key ∈ Py.keys (ErrorObject.table (ErrorObject.position err))
                   ∧ Py.int key = Ok r ∧ Py.position n r = Some i) as Hnamed.
  { rewrite Exists_exists, Hlen. split.
    - intros (r & Hr & Hi).
      apply list_elem_of_lookup in Hr as [m Hm].
      destruct (Forall2_lookup_r _ _ _ _ _ Hrows Hm) as (key & Hkey & Hint).
      exists key, r. split; [by eapply list_elem_of_lookup_2|done].
    - intros (key & r & Hkey & Hint & Hi).
      apply list_elem_of_lookup in Hkey as [m Hm].
      destruct (Forall2_lookup_l _ _ _ _ _ Hrows Hm) as (r' & Hr' & Hint').
      exists r'. split; [by eapply list_elem_of_lookup_2|congruence]. }
  destruct (decide (Exists (λ r, Py.position (length d) r = Some i) rows))
    as [Hex|Hex].
  - destruct (Hset _ Hex) as (row'' & Hrow'' & Hflag). simplify_eq.
    split; [|by rewrite Hflag].
    split; [intros _; right; by apply Hnamed|done].
  - rewrite (Hkeep _ Hex) in Hrow'. destruct (Hd _ _ Hrow') as [Hiff Hclean].
    split; [|done]. rewrite Hiff. rewrite <-Hnamed. tauto.
Qed.

(** C4, as stated, fails: an error that names a row with an empty list of
    item indexes flags the row although no item of the row has an issue. *)
Lemma flag_without_issue :
  ¬ (∀ (fl : Q → Q) (choice : gset string → nat) (draws : list (Q * Q * Q))
       (data : list Row) (report : list ErrorObject.t)
       (out_data : list RowModel) (out_errors : Py.dict ErrorInfo.t)
       (row : RowModel),
       map_errors_to_data fl choice draws data report
       = Some (Ok (out_data, out_errors)) →
       row ∈ out_data →
       (contains_issue row = true ↔ has_issue row)).
Proof.
  intros H.
  eassert (map_errors_to_data Sample.fl Sample.choice Sample.draws
             [Sample.note] [Sample.error "empty_index_list" [("0", [("id", Some [])])]]
           = Some (Ok (_, _))) as Hrun
    by (vm_compute; reflexivity).
  destruct (H _ _ _ _ _ _ _ _ Hrun (list_elem_of_here _ _)) as [Hflag _].
  destruct (Hflag eq_refl) as (it & Hit & Hne).
  unfold all_items in Hit. vm_compute in Hit.
  repeat (apply elem_of_cons in Hit as [->|Hit]; [by apply Hne|]).
  by apply elem_of_nil in Hit.
Qed.

(** C4, amended: after a run that returns, the flag of a row is set
    exactly when a row key of some error of the report names the row; every
    row that has an item with an issue is flagged (a flagged row need not
    have one); and the enrichment of a row always leaves the flag set, so
    that no later error resets it. *)
Theorem contains_issue_flag :
  (∀ (fl : Q → Q) (choice : gset string → nat) (draws : list (Q * Q * Q))
     (data : list Row) (report : list ErrorObject.t)
     (out_data : list RowModel) (out_errors : Py.dict ErrorInfo.t)
     (i : nat) (row : RowModel),
     map_errors_to_data fl choice draws data report
     = Some (Ok (out_data, out_errors)) →
     out_data !! i = Some row →
     (contains_issue row = true ↔ row_named (length data) report i)
     ∧ (has_issue row → contains_issue row = true))
  ∧ (∀ row err err_id row',
       enrich_row row err err_id = Ok row' → contains_issue row' = true).
Proof.
  split; [|apply enrich_row_contains_issue].
  intros fl choice draws data report out_data out_errors i row Hrun Hrow.
  assert (flags_follow_names (length data) report
            (Z.of_nat (length report)) out_data) as [_ Hflags].
  { apply (map_errors_data_invariant fl choice
             (flags_follow_names (length data) report) _ _ _ _ _ Hrun).
    - intros first j err d d' _. apply flags_follow_names_step.
    - apply flags_follow_names_init. }
  destruct (Hflags _ _ Hrow) as [Hiff Hclean].
  rewrite Nat2Z.id, firstn_all in Hiff. split; [done|].
  intros (it & Hit & Hne).
  destruct (contains_issue row) eqn:E; [done|].
  specialize (Hclean eq_refl). rewrite Forall_forall in Hclean.
  by destruct Hne; apply Hclean.
Qed.

(** ** The coordinates of an error *)

(** C1 fails on the code: [enrich_row] walks the whole position table of
    the error for every row it is called on and does not compare the row key
    with the row at hand.  On an error that names the first identifier of
    row 0 and the second identifier of row 1, the second identifier of row 0
    receives the error identifier although no coordinate of the error
    addresses it. *)
Lemma enrich_row_ignores_row_key :
  ∃ out_data out_errors,
    map_errors_to_data Sample.fl Sample.choice Sample.draws
      [Sample.article; Sample.article] [Sample.duplicate_id]
    = Some (Ok (out_data, out_errors))
    ∧ issues_at out_data 0 "id" 0 = Some ["meta-0"]
    ∧ issues_at out_data 0 "id" 1 = Some ["meta-0"]
    ∧ ¬ addresses (model_rows [Sample.article; Sample.article])
          Sample.duplicate_id 0 "id" 1.
Proof.
  eexists _, _. split_and!.
  - vm_compute. reflexivity.
  - reflexivity.
  - reflexivity.
  - intros (key & field_info & r & row & items_indexes & j & items
            & Hentry & Hint & Hpos & Hrow & Hfield & Hj & Hitems & Hk).
    simpl in Hentry.
    apply elem_of_cons in Hentry as [[= -> ->]|Hentry].
    + apply elem_of_cons in Hfield as [[= ->]|Hfield];
        [|by apply elem_of_nil in Hfield].
      simpl in Hj. apply list_elem_of_singleton in Hj as ->.
      vm_compute in Hrow. injection Hrow as <-.
      vm_compute in Hitems. injection Hitems as <-.
      vm_compute in Hk. discriminate.
    + apply elem_of_cons in Hentry as [[= -> ->]|Hentry];
        [|by apply elem_of_nil in Hentry].
      vm_compute in Hint. injection Hint as <-.
      vm_compute in Hpos. discriminate.
Qed.

(** ** The catalogue of errors and the table type *)

Section Catalogue.
Variable fl : Q → Q.
Variable choice : gset string → nat.

(** An invariant of the whole state of the loop, indexed by the number of
    errors mapped so far. *)
Lemma map_loop_invariant
    (I : Z → list RowModel * Py.dict ErrorInfo.t * gset string → Prop)
    table_type report k st st' :
  (∀ j err st1 st2,
     report !! j = Some err →
     I (k + Z.of_nat j)%Z st1 →
     map_error choice table_type st1 ((k + Z.of_nat j)%Z, err) = Ok st2 →
     I (k + Z.of_nat j + 1)%Z st2) →
  I k st →
  Py.for_each (map_error choice table_type) st (Py.enumerate_from k report) = Ok st' →
  I (k + Z.of_nat (length report))%Z st'.
Proof.
  revert k st. induction report as [|err report IH]; intros k st Hstep Hk; simpl.
  - intros [= <-]. by rewrite Z.add_0_r.
  - destruct (map_error choice table_type st (k, err)) as [st1|] eqn:E;
      simpl; [|done].
    intros Hloop. apply IH in Hloop.
    + by replace (k + Z.of_nat (S (length report)))%Z
        with (k + 1 + Z.of_nat (length report))%Z by lia.
    + intros j err' s1 s2 Hj Hs1 Hs2.
      replace (k + 1 + Z.of_nat j + 1)%Z with (k + Z.of_nat (S j) + 1)%Z by lia.
      apply (Hstep (S j) err' s1); [done| |].
      * by replace (k + Z.of_nat (S j))%Z with (k + 1 + Z.of_nat j)%Z by lia.
      * by replace (k + Z.of_nat (S j))%Z with (k + 1 + Z.of_nat j)%Z by lia.
    + specialize (Hstep 0 err st st1 eq_refl).
      rewrite Z.add_0_r in Hstep. by apply Hstep.
Qed.

(** The catalogue gets one entry per error, keyed by the identifiers of
    the report in order. *)
Lemma map_loop_keys table_type report (st st' : list RowModel * Py.dict ErrorInfo.t * gset string) :
  st.1.2 = [] →
  Py.for_each (map_error choice table_type) st (Py.enumerate report) = Ok st' →
  Py.keys st'.1.2 = report_ids table_type (Z.of_nat (length report)).
Proof.
  intros Hst Hloop.
  apply (map_loop_invariant
           (λ n s, (0 ≤ n)%Z ∧ Py.keys s.1.2 = report_ids table_type n))
    in Hloop; [by destruct Hloop| |by rewrite Hst].
  intros j err [[d errs] colors] [[d' errs'] colors'] _ [_ Hkeys]
    (c & _ & -> & _)%map_error_Ok.
  rewrite !Z.add_0_l in *. simpl in *. split; [lia|].
  rewrite dict_set_fresh.
  - unfold Py.keys in *. rewrite fmap_app, Hkeys. simpl.
    by rewrite report_ids_snoc.
  - rewrite Hkeys. unfold report_ids.
    intros (i & Hi%(inj _) & Hin%elem_of_seqZ)%list_elem_of_fmap. lia.
Qed.

(** C10: with no row, the run fails with [IndexError] on [data[0]],
    whatever the report, the empty one included; with a first row, the
    identifiers of the catalogue are [cits-0, cits-1, ...] when that row is
    a citations row and [meta-0, meta-1, ...] when it is not. *)
Theorem table_type_from_first_row (draws : list (Q * Q * Q)) :
  (∀ report, map_errors_to_data fl choice draws [] report = Some (Raise IndexError))
  ∧ (∀ first rest report out_data out_errors,
       map_errors_to_data fl choice draws (first :: rest) report
       = Some (Ok (out_data, out_errors)) →
       Py.keys out_errors
       = (λ i, (if is_citations first then "cits" else "meta") +:+ "-" +:+ Py.str i)
           <$> seqZ 0 (Z.of_nat (length report))).
Proof.
  split; [done|].
  intros first rest report out_data out_errors
    (first' & colors & colors' & Hfirst & _ & Hloop)%map_errors_to_data_Ok.
  simplify_eq/=. by apply map_loop_keys in Hloop.
Qed.

End Catalogue.

(** ** Colour allocation *)

Lemma format_02x_byte k :
  (0 ≤ k ≤ 255)%Z →
  ∃ c1 c2, format_02x k = String c1 (String c2 EmptyString)
           ∧ is_hex_digit c1 = true ∧ is_hex_digit c2 = true.
Proof.
  intros Hk.
  assert (forallb
            (λ k, match format_02x k with
                  | String c1 (String c2 EmptyString) =>
                      is_hex_digit c1 && is_hex_digit c2
                  | _ => false
                  end) (seqZ 0 256) = true) as Hall by (vm_compute; reflexivity).
  rewrite forallb_forall in Hall. specialize (Hall k).
  destruct (format_02x k) as [|c1 [|c2 [|]]];
    try (discriminate Hall; apply list_elem_of_In, elem_of_seqZ; lia).
  exists c1, c2. split; [done|]. apply andb_true_iff, Hall.
  apply list_elem_of_In, elem_of_seqZ. lia.
Qed.

Lemma int_of_float_floor x :
  (0 <= x)%Q →
  (0 ≤ int_of_float x)%Z
  ∧ (inject_Z (int_of_float x) <= x)%Q
  ∧ (x < inject_Z (int_of_float x) + 1)%Q.
Proof.
  destruct x as [n d]. unfold int_of_float, Qle, Qlt. simpl.
  rewrite !Z.mul_1_r. intros Hn.
  rewrite Z.quot_div_nonneg by lia.
  pose proof (Z.div_pos n (Z.pos d)) as H0.
  pose proof (Z.mul_div_le n (Z.pos d)) as H1.
  pose proof (Z.mul_succ_div_gt n (Z.pos d)) as H2.
  split_and!; [lia|lia|]. nia.
Qed.

Lemma int_of_float_byte x :
  (0 <= x)%Q → (x <= 255)%Q → (0 ≤ int_of_float x ≤ 255)%Z.
Proof.
  intros H0 H255. destruct (int_of_float_floor x H0) as (Hpos & Hle & _).
  split; [done|]. rewrite Zle_Qle.
  change (inject_Z 255) with 255%Q. lra.
Qed.

Section ColorFacts.
Variable fl : Q → Q.
Hypothesis fl_rounding : rounding fl.

Local Abbreviation unit x := (0 <= x ∧ x <= 1)%Q.

Lemma fl_unit x : unit x → unit (fl x).
Proof.
  destruct fl_rounding as (Hmono & H0 & H1 & _). intros [Hx0 Hx1].
  pose proof (Hmono _ _ Hx0). pose proof (Hmono _ _ Hx1). split; lra.
Qed.

Lemma fl_nonneg x : (0 <= x)%Q → (0 <= fl x)%Q.
Proof.
  destruct fl_rounding as (Hmono & H0 & _). intros Hx.
  pose proof (Hmono _ _ Hx). lra.
Qed.

Lemma fl_byte x : (0 <= x)%Q → (x <= 255)%Q → (0 <= fl x)%Q ∧ (fl x <= 255)%Q.
Proof.
  destruct fl_rounding as (Hmono & H0 & _ & H255). intros Hx0 Hx1.
  pose proof (Hmono _ _ Hx0). pose proof (Hmono _ _ Hx1). split; lra.
Qed.

Lemma unit_mul x y : unit x → unit y → unit (x * y).
Proof. intros [??] [??]. split; nra. Qed.

Lemma unit_compl x : unit x → unit (1 - x).
Proof. intros [??]. split; lra. Qed.

(** [colorsys.hsv_to_rgb] keeps its results between 0 and 1. *)
Lemma hsv_to_rgb_unit h s v :
  (0 <= h)%Q → unit s → unit v →
  let '(r, g, b) := hsv_to_rgb fl h s v in unit r ∧ unit g ∧ unit b.
Proof.
  intros Hh Hs Hv. unfold hsv_to_rgb.
  destruct (Qeq_bool s 0); [done|].
  set (x := fl (h * 6)).
  set (i := int_of_float x).
  set (f := fl (x - inject_Z i)).
  assert (unit f) as Hf.
  { apply fl_unit.
    assert (0 <= x)%Q as Hx by (apply fl_nonneg; lra).
    destruct (int_of_float_floor x Hx) as (_ & Hle & Hlt). fold i in Hle, Hlt.
    split; lra. }
  assert (unit (fl (v * fl (1 - s)))) as Hp
    by (apply fl_unit, unit_mul; [done|]; by apply fl_unit, unit_compl).
  assert (unit (fl (v * fl (1 - fl (s * f))))) as Hq.
  { apply fl_unit, unit_mul; [done|]. apply fl_unit, unit_compl.
    by apply fl_unit, unit_mul. }
  assert (unit (fl (v * fl (1 - fl (s * fl (1 - f)))))) as Ht.
  { apply fl_unit, unit_mul; [done|]. apply fl_unit, unit_compl.
    apply fl_unit, unit_mul; [done|]. by apply fl_unit, unit_compl. }
  repeat (match goal with |- context [if ?b then _ else _] => destruct b end);
    done.
Qed.

Lemma hex_color_format r g b :
  unit r → unit g → unit b → is_hex_color (hex_color fl (r, g, b)) = true.
Proof.
  intros Hr Hg Hb. unfold hex_color.
  assert (∀ x, unit x →
            ∃ c1 c2, format_02x (int_of_float (fl (x * 255)))
                     = String c1 (String c2 EmptyString)
                     ∧ is_hex_digit c1 = true ∧ is_hex_digit c2 = true) as Hbyte.
  { intros x [Hx0 Hx1]. apply format_02x_byte.
    destruct (fl_byte (x * 255)) as [H0 H255]; [lra..|].
    by apply int_of_float_byte. }
  destruct (Hbyte r Hr) as (r1 & r2 & -> & Hr1 & Hr2).
  destruct (Hbyte g Hg) as (g1 & g2 & -> & Hg1 & Hg2).
  destruct (Hbyte b Hb) as (b1 & b2 & -> & Hb1 & Hb2).
  change (is_hex_color
            (String "#" (String r1 (String r2 (String g1 (String g2
               (String b1 (String b2 EmptyString))))))) = true).
  unfold is_hex_color, all_hex_digits.
  by rewrite Hr1, Hr2, Hg1, Hg2, Hb1, Hb2.
Qed.

Lemma drawn_color_format draw :
  drawn_in_range draw →
  is_hex_color (hex_color fl (hsv_to_rgb fl draw.1.1 draw.1.2 draw.2)) = true.
Proof.
  destruct draw as [[h s] v]. intros (Hh0 & Hh1 & Hs0 & Hs1 & Hv0 & Hv1). simpl.
  pose proof (hsv_to_rgb_unit h s v) as Hunit.
  destruct (hsv_to_rgb fl h s v) as [[r g] b].
  destruct Hunit as (Hr & Hg & Hb); [lra|split; lra..|].
  by apply hex_color_format.
Qed.

(** The loop ends with exactly [n] colours, each of them drawn or there
    from the start. *)
Lemma generate_error_colors_loop_Some draws n colors colors' :
  size colors ≤ n →
  generate_error_colors_loop fl draws n colors = Some colors' →
  size colors' = n
  ∧ ∀ c, c ∈ colors' → c ∈ colors ∨ c ∈ drawn_colors fl draws.
Proof.
  revert colors. induction draws as [|[[h s] v] draws IH]; intros colors Hsize;
    simpl; case_decide as Hlt; try done.
  - intros [= <-]. split; [lia|auto].
  - intros Hloop. apply IH in Hloop as [Hn Hfrom].
    + split; [done|]. intros c Hc.
      destruct (Hfrom c Hc) as [[->%elem_of_singleton|Hin]%elem_of_union|Hin];
        [right; left|by left|right; by right].
    + pose proof (size_union_alt {[hex_color fl (hsv_to_rgb fl h s v)]} colors) as Hu.
      rewrite size_singleton in Hu.
      assert (size (colors ∖ {[hex_color fl (hsv_to_rgb fl h s v)]}) ≤ size colors)
        by (apply subseteq_size; by intros x [??]%elem_of_difference).
      lia.
  - intros [= <-]. split; [lia|auto].
Qed.

(** The loop comes to an end on draws that hold enough distinct colours. *)
Lemma generate_error_colors_loop_ends draws n colors :
  n ≤ size (colors ∪ list_to_set (drawn_colors fl draws)) →
  is_Some (generate_error_colors_loop fl draws n colors).
Proof.
  revert colors. induction draws as [|[[h s] v] draws IH]; intros colors Hsize;
    simpl; case_decide as Hlt; eauto.
  - simpl in Hsize. rewrite (right_id_L ∅ (∪)) in Hsize. lia.
  - apply IH. simpl in Hsize.
    by rewrite (assoc_L (∪)), (comm_L (∪) colors) in Hsize.
Qed.

End ColorFacts.

Section ColorUse.
Variable fl : Q → Q.
Variable choice : gset string → nat.

Lemma set_pop_Ok colors c colors' :
  set_pop choice colors = Ok (c, colors') ↔
  (elements colors !! (choice colors mod size colors) = Some c)
  ∧ colors' = colors ∖ {[ c ]}.
Proof.
  unfold set_pop. split.
  - destruct (elements colors !! _) as [c0|]; [|done]. by intros [= <- <-].
  - by intros [-> ->].
Qed.

Lemma set_pop_elem colors c colors' :
  set_pop choice colors = Ok (c, colors') →
  c ∈ colors ∧ (c ∉ colors') ∧ (colors = {[ c ]} ∪ colors')
  ∧ size colors = S (size colors').
Proof.
  intros [Hc ->]%set_pop_Ok.
  apply list_elem_of_lookup_2, elem_of_elements in Hc.
  split_and!; [done| | |].
  - rewrite elem_of_difference, elem_of_singleton. tauto.
  - apply set_eq. intros x. rewrite elem_of_union, elem_of_difference,
      elem_of_singleton. destruct (decide (x = c)) as [->|]; tauto.
  - rewrite (size_difference colors {[c]}).
    + rewrite size_singleton. assert (size colors ≠ 0); [|lia].
      intros Hempty%size_empty_inv. apply (Hempty c) in Hc.
      by apply elem_of_empty in Hc.
    + by apply singleton_subseteq_l.
Qed.

(** A set that is not empty can be popped. *)
Lemma set_pop_nonempty colors :
  size colors ≠ 0 → ∃ c colors', set_pop choice colors = Ok (c, colors').
Proof.
  intros Hne. unfold set_pop.
  destruct (elements colors !! (choice colors mod size colors)) as [c|] eqn:E;
    [eauto|].
  apply lookup_ge_None in E. pose proof (Nat.mod_upper_bound (choice colors) _ Hne).
  unfold size, set_size in *. simpl in *. lia.
Qed.

Lemma catalogue_colors_snoc (out_errors : Py.dict ErrorInfo.t) k v :
  k ∉ Py.keys out_errors →
  catalogue_colors (Py.dict_set out_errors k v)
  = catalogue_colors out_errors ++ [ErrorInfo.color v].
Proof.
  intros Hk. rewrite dict_set_fresh by done.
  unfold catalogue_colors, Py.values. by rewrite !fmap_app.
Qed.

Lemma colors_split_step table_type allocated (j : nat) err st st' :
  colors_split table_type allocated (Z.of_nat j) st →
  map_error choice table_type st (Z.of_nat j, err) = Ok st' →
  colors_split table_type allocated (Z.of_nat j + 1) st'.
Proof.
  destruct st as [[d errs] colors], st' as [[d' errs'] colors'].
  intros (Hkeys & Hnd & Hdisj & Hunion) (c & Hpop & -> & _)%map_error_Ok.
  apply set_pop_elem in Hpop as (Hc & Hc' & Hcolors & _).
  assert (error_id table_type (Z.of_nat j) ∉ Py.keys errs) as Hfresh.
  { rewrite Hkeys. unfold report_ids.
    intros (i & Hi%(inj _) & Hin%elem_of_seqZ)%list_elem_of_fmap. lia. }
  unfold colors_split. rewrite catalogue_colors_snoc by done. simpl.
  split_and!.
  - rewrite dict_set_fresh by done. unfold Py.keys in *.
    by rewrite fmap_app, Hkeys, report_ids_snoc.
  - apply NoDup_app. split_and!; [done| |apply NoDup_singleton].
    intros x Hx ->%list_elem_of_singleton. by apply (Hdisj c).
  - intros x [Hx| ->%list_elem_of_singleton]%elem_of_app; [|done].
    intros Hx'. apply (Hdisj x Hx). rewrite Hcolors. apply elem_of_union. by right.
  - rewrite Hunion, Hcolors, list_to_set_app_L. simpl.
    rewrite (right_id_L ∅ (∪)). by rewrite (assoc_L (∪)).
Qed.

(** A run that returns has handed every colour of the allocated set to one
    entry of the catalogue. *)
Lemma map_loop_colors table_type report d allocated st' :
  size allocated = length report →
  Py.for_each (map_error choice table_type) (d, [], allocated) (Py.enumerate report)
  = Ok st' →
  catalogue_colors st'.1.2 ≡ₚ elements allocated.
Proof.
  intros Hsize Hloop.
  apply (map_loop_invariant choice
           (λ n s, (0 ≤ n)%Z ∧ colors_split table_type allocated n s)) in Hloop.
  - destruct st' as [[d' errs'] colors']. simpl in *.
    destruct Hloop as (_ & Hkeys & Hnd & Hdisj & Hunion).
    assert (length (catalogue_colors errs') = length report) as Hlen.
    { unfold catalogue_colors, Py.values. rewrite !length_fmap.
      rewrite <-(length_fmap fst). unfold Py.keys in Hkeys. rewrite Hkeys.
      unfold report_ids. rewrite length_fmap, length_seqZ. lia. }
    assert (colors' = ∅) as ->.
    { apply leibniz_equiv, size_empty_iff.
      assert (size allocated
              = size (list_to_set (C := gset string) (catalogue_colors errs'))
                + size colors') as Hsum.
      { rewrite Hunion at 1. apply size_union.
        intros x Hx%elem_of_list_to_set Hx'. by apply (Hdisj x). }
      rewrite size_list_to_set in Hsum by done. lia. }
    rewrite Hunion, (right_id_L ∅ (∪)). symmetry. by apply elements_list_to_set.
  - intros j err s1 s2 _ [_ Hs1] Hstep. rewrite Z.add_0_l in *.
    split; [lia|]. by eapply colors_split_step.
  - split; [done|]. unfold colors_split, catalogue_colors. simpl.
    split_and!; [done|constructor|by intros ? ?%elem_of_nil|].
    by rewrite (left_id_L ∅ (∪)).
Qed.

End ColorUse.

(** C9: on draws within the ranges of the random calls that hold [n]
    distinct colours, colour allocation for [n] errors returns a set of
    exactly [n] entries, all distinct, each of the form [#] followed by six
    of the digits [0-9a-f]; and a run of the error mapping over a report of
    [n] errors hands every colour of that set to exactly one entry of the
    catalogue, none being used twice. *)
Theorem color_allocation (fl : Q → Q) (choice : gset string → nat)
    (draws : list (Q * Q * Q)) (n : nat) :
  rounding fl →
  Forall drawn_in_range draws →
  n ≤ size (list_to_set (C := gset string) (drawn_colors fl draws)) →
  ∃ colors,
    generate_error_colors fl draws n = Some colors
    ∧ size colors = n
    ∧ NoDup (elements colors)
    ∧ length (elements colors) = n
    ∧ (∀ c, c ∈ colors → is_hex_color c = true)
    ∧ (∀ data report out_data out_errors,
         length report = n →
         map_errors_to_data fl choice draws data report
         = Some (Ok (out_data, out_errors)) →
         catalogue_colors out_errors ≡ₚ elements colors).
Proof.
  intros Hfl Hdraws Henough.
  destruct (generate_error_colors_loop_ends fl draws n ∅) as [colors Hcolors].
  { by rewrite (left_id_L ∅ (∪)). }
  exists colors.
  destruct (generate_error_colors_loop_Some fl draws n ∅ colors) as [Hsize Hfrom];
    [rewrite size_empty; lia|done|].
  split_and!; [done|done|apply NoDup_elements|done| |].
  - intros c Hc. destruct (Hfrom c Hc) as [Hin|Hin]; [by apply elem_of_empty in Hin|].
    apply list_elem_of_fmap in Hin as (draw & -> & Hdraw).
    apply drawn_color_format; [done|].
    by eapply (proj1 (Forall_forall _ _) Hdraws).
  - intros data report out_data out_errors <-
      (first & colors0 & colors' & _ & Hcolors0 & Hloop)%map_errors_to_data_Ok.
    unfold generate_error_colors in Hcolors0. simplify_eq.
    by apply (map_loop_colors choice) in Hloop.
Qed.

(** ** References out of range *)

Lemma enrich_field_invariant (I : Py.dict (list ItemRecord) → Prop)
    err_id fields entry fields' :
  (∀ label f j f', I f → enrich_item err_id label f j = Ok f' → I f') →
  I fields → enrich_field err_id fields entry = Ok fields' → I fields'.
Proof.
  intros Hstep Hf. destruct entry as [label items_indexes]. simpl.
  apply for_each_invariant; [|done]. intros f j f' _. apply Hstep.
Qed.

Lemma enrich_table_entry_invariant (I : Py.dict (list ItemRecord) → Prop)
    err_id fields entry fields' :
  (∀ label f j f', I f → enrich_item err_id label f j = Ok f' → I f') →
  I fields → enrich_table_entry err_id fields entry = Ok fields' → I fields'.
Proof.
  intros Hstep Hf. destruct entry as [key field_info]. simpl.
  apply for_each_invariant; [|done]. intros f e f' _ Hf1.
  by apply enrich_field_invariant.
Qed.

(** A row is enriched only if every coordinate of the error, under
    whatever row key it stands, fits the row. *)
Lemma enrich_row_in_bounds row err err_id row' key field_info label items_indexes j :
  enrich_row row err err_id = Ok row' →
  (key, field_info) ∈ ErrorObject.table (ErrorObject.position err) →
  (label, items_indexes) ∈ field_info →
  j ∈ default [0%Z] items_indexes →
  ∃ size, field_size (fields row) label = Some size
          ∧ is_Some (Py.position size j).
Proof.
  intros (fields' & Hloop & _)%enrich_row_Ok Hentry Hfield Hj.
  set (P := λ f : Py.dict (list ItemRecord),
              ∀ l, field_size f l = field_size (fields row) l).
  assert (∀ label f j f', P f → enrich_item err_id label f j = Ok f' → P f')
    as Hstep.
  { intros l f j' f' Hf Hitem l'.
    by rewrite (enrich_item_sizes _ _ _ _ _ _ Hitem). }
  destruct (for_each_Ok_steps P _ _ _ _ (key, field_info)
              (λ s x s' _ Hs, enrich_table_entry_invariant P err_id s x s' Hstep Hs)
              (λ _, eq_refl) Hloop Hentry)
    as (f0 & f1 & Hf0 & Hloop1).
  simpl in Hloop1.
  destruct (for_each_Ok_steps P _ _ _ _ (label, items_indexes)
              (λ s x s' _ Hs, enrich_field_invariant P err_id s x s' Hstep Hs)
              Hf0 Hloop1 Hfield)
    as (f2 & f3 & Hf2 & Hloop2).
  simpl in Hloop2.
  destruct (for_each_Ok_steps P _ _ _ _ j
              (λ s x s' _ Hs, Hstep label s x s' Hs)
              Hf2 Hloop2 Hj)
    as (f4 & f5 & Hf4 & Hitem).
  apply enrich_item_Ok in Hitem as (items & k & it & Hitems & Hk & _).
  exists (length items). split; [|eauto].
  rewrite <-Hf4. unfold field_size. by rewrite Hitems.
Qed.

Lemma same_sizes_refl row : same_sizes row row.
Proof. done. Qed.

Lemma same_sizes_enrich_row row0 row err err_id row' :
  same_sizes row0 row → enrich_row row err err_id = Ok row' →
  same_sizes row0 row'.
Proof.
  intros H Hrow l. rewrite (enrich_row_sizes _ _ _ _ _ Hrow). apply H.
Qed.

Lemma same_sizes_trans row0 row1 row2 :
  same_sizes row0 row1 → same_sizes row1 row2 → same_sizes row0 row2.
Proof. intros H1 H2 l. rewrite H2. apply H1. Qed.

Lemma enrich_rows_step_same_sizes (d0 d : list RowModel) err err_id i d' :
  Forall2 same_sizes d0 d →
  (row ← Py.getitem d i;
   row' ← enrich_row row err err_id;
   Py.setitem d i row') = Ok d' →
  Forall2 same_sizes d0 d'.
Proof.
  intros Hd (k & row & row' & Hk & Hrow & Hrow' & ->)%enrich_rows_step_Ok.
  destruct (Forall2_lookup_r _ _ _ _ _ Hd Hrow) as (row0 & Hrow0 & Hsame).
  rewrite <-(list_insert_id d0 k row0) by done.
  apply Forall2_insert; [done|]. by eapply same_sizes_enrich_row.
Qed.

(** The block succeeds only if the error names rows of the table and
    coordinates that fit each of them. *)
Lemma enrich_rows_in_bounds d err err_id d' :
  enrich_rows d err err_id = Ok d' →
  ¬ row_out_of_range (length d) err ∧ ¬ item_out_of_range d err.
Proof.
  intros (rows & Hrows%comprehension_Ok & Hloop)%enrich_rows_Ok.
  assert (∀ key r,
            key ∈ Py.keys (ErrorObject.table (ErrorObject.position err)) →
            Py.int key = Ok r → r ∈ rows) as Hnamed.
  { intros key r [m Hm]%list_elem_of_lookup Hint.
    destruct (Forall2_lookup_l _ _ _ _ _ Hrows Hm) as (r' & Hr' & Hint').
    assert (r' = r) as -> by congruence. by eapply list_elem_of_lookup_2. }
  split.
  - intros (key & r & Hkey & Hint & Hout).
    apply enrich_loop_positions in Hloop as (_ & Hpos & _).
    apply Hout, position_is_Some, Hpos. eauto.
  - intros (key & field_info & r & i & row & label & items_indexes & j & items
            & Hentry & Hint & Hi & Hrow & Hfield & Hj & Hitems & Hout).
    assert (r ∈ rows) as Hr.
    { eapply Hnamed; [|done]. apply list_elem_of_fmap. by exists (key, field_info). }
    pose proof (λ H1 H2,
      for_each_Ok_steps (Forall2 same_sizes d) _ d rows d' r H1 H2 Hloop Hr)
      as Hsteps.
    destruct Hsteps as (d0 & d1 & Hd0 & Hstep).
    { intros s x s' _. apply enrich_rows_step_same_sizes. }
    { apply Forall_Forall2_diag, Forall_true, same_sizes_refl. }
    apply enrich_rows_step_Ok in Hstep as (k & row0 & row1 & Hk & Hrow0 & Henrich & _).
    rewrite <-(Forall2_length _ _ _ Hd0) in Hk. simplify_eq.
    destruct (Forall2_lookup_r _ _ _ _ _ Hd0 Hrow0) as (row' & Hrow' & Hsame).
    simplify_eq.
    destruct (enrich_row_in_bounds _ _ _ _ _ _ _ _ _ Henrich Hentry Hfield Hj)
      as (size & Hsize & Hpos).
    rewrite Hsame in Hsize. unfold field_size in Hsize. rewrite Hitems in Hsize.
    simplify_eq/=. by apply Hout, position_is_Some.
Qed.

Lemma item_out_of_range_same_sizes d0 d err :
  Forall2 same_sizes d0 d → item_out_of_range d0 err → item_out_of_range d err.
Proof.
  intros Hd (key & field_info & r & i & row & label & items_indexes & j & items
             & Hentry & Hint & Hi & Hrow & Hfield & Hj & Hitems & Hout).
  destruct (Forall2_lookup_l _ _ _ _ _ Hd Hrow) as (row' & Hrow' & Hsame).
  specialize (Hsame label). unfold field_size in Hsame. rewrite Hitems in Hsame.
  destruct (Py.dict_get (fields row') label) as [items'|] eqn:Hitems';
    simplify_eq/=.
  exists key, field_info, r, i, row', label, items_indexes, j, items'.
  rewrite <-(Forall2_length _ _ _ Hd). split_and!; try done. congruence.
Qed.

Lemma in_bounds_so_far_step data report (j : nat) err err_id d d' :
  report !! j = Some err →
  in_bounds_so_far data report (Z.of_nat j) d →
  enrich_rows d err err_id = Ok d' →
  in_bounds_so_far data report (Z.of_nat j + 1) d'.
Proof.
  intros Herr [Hd Hsofar] Hrows. split.
  - eapply Forall2_trans; [apply same_sizes_trans|done|].
    eapply enrich_rows_pointwise; [apply same_sizes_refl| |done].
    intros row0 row row'. apply same_sizes_enrich_row.
  - replace (Z.to_nat (Z.of_nat j + 1)) with (S j) by lia.
    rewrite Nat2Z.id in Hsofar. rewrite (take_S_r _ _ _ Herr).
    intros err' [Hin| ->%list_elem_of_singleton]%elem_of_app; [by apply Hsofar|].
    apply enrich_rows_in_bounds in Hrows as [Hrow Hitem].
    rewrite <-(Forall2_length _ _ _ Hd), model_rows_length in Hrow.
    split; [done|]. intros Hout. by eapply Hitem, item_out_of_range_same_sizes.
Qed.

(** The exceptions the program can raise are Python's own. *)
Lemma getitem_builtin {A} (l : list A) i e :
  Py.getitem l i = Raise e → builtin_exception e.
Proof. by intros [_ ->]%getitem_Raise. Qed.

Lemma setitem_builtin {A} (l : list A) i x e :
  Py.setitem l i x = Raise e → builtin_exception e.
Proof. unfold Py.setitem. destruct (Py.position _ _); [done|]. by intros [= <-]. Qed.

Lemma int_builtin s e : Py.int s = Raise e → builtin_exception e.
Proof.
  unfold Py.int. cbv zeta.
  destruct (match Py.strip_with _ s with EmptyString => _ | _ => _ end);
    [|by intros [= <-]].
  destruct (N.ltb _ _); [by intros [= <-]|done].
Qed.

Lemma comprehension_builtin {A B} (f : A → Py.result B) l e :
  (∀ x e, f x = Raise e → builtin_exception e) →
  Py.comprehension f l = Raise e → builtin_exception e.
Proof.
  intros Hf. induction l as [|x l IH]; simpl; [done|].
  destruct (f x) as [y|e'] eqn:E; simpl.
  - destruct (Py.comprehension f l); simpl; [done|]. intros [= <-]. by apply IH.
  - intros [= <-]. eauto.
Qed.

Lemma enrich_row_builtin row err err_id e :
  enrich_row row err err_id = Raise e → builtin_exception e.
Proof.
  unfold enrich_row.
  destruct (Py.for_each _ _ _) as [f|e'] eqn:E; simpl; [done|].
  intros [= <-]. revert E. apply for_each_Raise.
  intros f1 [key field_info] e1. simpl. apply for_each_Raise.
  intros f2 [label items_indexes] e2. simpl. apply for_each_Raise.
  intros f3 j e3 [[_ ->]|(items & _ & _ & ->)]%enrich_item_Raise; done.
Qed.

Lemma enrich_rows_builtin d err err_id e :
  enrich_rows d err err_id = Raise e → builtin_exception e.
Proof.
  unfold enrich_rows.
  destruct (Py.comprehension _ _) as [rows|e'] eqn:E; simpl.
  - apply for_each_Raise. intros d1 i e1.
    destruct (Py.getitem d1 i) as [row|e2] eqn:E1; simpl.
    + destruct (enrich_row row err err_id) as [row'|e3] eqn:E2; simpl.
      * apply setitem_builtin.
      * intros [= <-]. by eapply enrich_row_builtin.
    + intros [= <-]. by eapply getitem_builtin.
  - intros [= <-]. revert E. apply comprehension_builtin, int_builtin.
Qed.

Lemma map_errors_to_data_builtin fl choice draws data report e :
  map_errors_to_data fl choice draws data report = Some (Raise e) →
  builtin_exception e.
Proof.
  unfold map_errors_to_data.
  destruct (Py.getitem data 0) as [first|e'] eqn:E.
  - destruct (generate_error_colors fl draws (length report)); simpl; [|done].
    destruct (Py.for_each _ _ _) as [[[d errs] colors']|e'] eqn:Hloop;
      simpl; [done|].
    intros [= <-]. revert Hloop. apply for_each_Raise.
    intros [[d errs] colors1] [k err] e1. unfold map_error, set_pop.
    destruct (elements colors1 !! _); simpl; [|by intros [= <-]].
    destruct (enrich_rows _ _ _) as [d1|e2] eqn:E2; simpl; [done|].
    intros [= <-]. by eapply enrich_rows_builtin.
  - intros [= <-]. by eapply getitem_builtin.
Qed.

Lemma map_errors_to_data_None fl choice draws data report :
  map_errors_to_data fl choice draws data report = None →
  generate_error_colors fl draws (length report) = None.
Proof.
  unfold map_errors_to_data. destruct (Py.getitem data 0); [|done].
  by destruct (generate_error_colors fl draws (length report)).
Qed.

(** C2, as stated, fails: a row index out of range surfaces as Python's own
    [IndexError], without coordinates; no [MappingError] is ever raised. *)
Lemma row_out_of_range_is_IndexError :
  ¬ (∀ (fl : Q → Q) (choice : gset string → nat) (draws : list (Q * Q * Q))
       (data : list Row) (report : list ErrorObject.t) (colors : gset string)
       (err : ErrorObject.t),
       generate_error_colors fl draws (length report) = Some colors →
       err ∈ report →
       (∃ key r,
          key ∈ Py.keys (ErrorObject.table (ErrorObject.position err))
          ∧ Py.int key = Ok r
          ∧ ¬ (0 ≤ r < Z.of_nat (length data))%Z) →
       raises_mapping_error (map_errors_to_data fl choice draws data report)).
Proof.
  intros H.
  destruct (generate_error_colors Sample.fl Sample.draws
              (length [Sample.row_999])) as [colors|] eqn:Hcolors;
    [|vm_compute in Hcolors; discriminate].
  destruct (H Sample.fl Sample.choice Sample.draws Sample.ten_rows
              [Sample.row_999] colors Sample.row_999 Hcolors)
    as (r & l & i & Hrun).
  - by left.
  - exists "999", 999%Z. split_and!; [by left|done|]. simpl. lia.
  - vm_compute in Hrun. discriminate.
Qed.

(** ** Which exception a reference out of range raises *)

Lemma for_each_Raise_inv {S A} (P : S → Prop) (Q : Py.exn → Prop)
    (body : S → A → Py.result S) s l e :
  (∀ s x s', x ∈ l → P s → body s x = Ok s' → P s') →
  (∀ s x e, x ∈ l → P s → body s x = Raise e → Q e) →
  P s → Py.for_each body s l = Raise e → Q e.
Proof.
  revert s. induction l as [|x l IH]; intros s Hok Hraise Hs; simpl; [done|].
  destruct (body s x) as [s1|e1] eqn:E; simpl.
  - apply IH.
    + intros ?????. eapply Hok; [by right|done..].
    + intros ?????. eapply Hraise; [by right|done..].
    + eapply Hok; [by left|done..].
  - intros [= <-]. eapply Hraise; [by left|done..].
Qed.

Lemma comprehension_Raise {A B} (f : A → Py.result B) l e :
  Py.comprehension f l = Raise e → ∃ x, x ∈ l ∧ f x = Raise e.
Proof.
  induction l as [|x l IH]; simpl; [done|].
  destruct (f x) as [y|e'] eqn:E; simpl.
  - destruct (Py.comprehension f l); simpl; [done|]. intros [= <-].
    destruct IH as (x' & Hin & Hx'); [done|]. exists x'. split; [by right|done].
  - intros [= <-]. exists x. split; [by left|done].
Qed.

Lemma dict_get_None_keys {V} (d : Py.dict V) k :
  Py.dict_get d k = None → k ∉ Py.keys d.
Proof.
  unfold Py.keys. induction d as [|[k0 v0] d IH]; simpl.
  - intros _ ?%elem_of_nil. done.
  - case_decide; [done|]. intros Hnone [->|Hin]%elem_of_cons; [done|].
    by apply IH.
Qed.

Lemma enrich_row_IndexError row err err_id e :
  (∀ key field_info label items_indexes,
     (key, field_info) ∈ ErrorObject.table (ErrorObject.position err) →
     (label, items_indexes) ∈ field_info →
     label ∈ Py.keys (fields row)) →
  enrich_row row err err_id = Raise e → e = IndexError.
Proof.
  intros Hlabels. unfold enrich_row.
  destruct (Py.for_each _ _ _) as [f|e'] eqn:E; simpl; [done|]. intros [= <-].
  set (P := λ f : Py.dict (list ItemRecord), Py.keys f = Py.keys (fields row)).
  assert (∀ label f j f', P f → enrich_item err_id label f j = Ok f' → P f')
    as Hstep.
  { intros label f j f' Hf Hitem. unfold P.
    by rewrite (enrich_item_keys _ _ _ _ _ Hitem). }
  revert E. apply (for_each_Raise_inv P (λ e, e = IndexError)); [| |done].
  { intros f x f' _. by apply enrich_table_entry_invariant. }
  intros f1 [key field_info] e1 Hentry Hf1. simpl.
  apply (for_each_Raise_inv P (λ e, e = IndexError)); [| |done].
  { intros f x f' _. by apply enrich_field_invariant. }
  intros f2 [label items_indexes] e2 Hfield Hf2. simpl.
  apply (for_each_Raise_inv P (λ e, e = IndexError)); [| |done].
  { intros f j f' _. apply Hstep. }
  intros f3 j e3 _ Hf3 [[Hnone ->]|(items & _ & _ & ->)]%enrich_item_Raise;
    [|done].
  apply dict_get_None_keys in Hnone. destruct Hnone. rewrite Hf3. eauto.
Qed.

Lemma enrich_rows_IndexError d err err_id e :
  well_addressed d err →
  enrich_rows d err err_id = Raise e → e = IndexError.
Proof.
  intros [Hkeys Hlabels]. unfold enrich_rows.
  destruct (Py.comprehension _ _) as [rows|e'] eqn:E; simpl.
  - set (K := λ row : RowModel,
             ∀ key field_info label items_indexes,
               (key, field_info) ∈ ErrorObject.table (ErrorObject.position err) →
               (label, items_indexes) ∈ field_info →
               label ∈ Py.keys (fields row)).
    apply (for_each_Raise_inv (Forall K) (λ e, e = IndexError)).
    + intros d1 i d2 _ Hd1
        (k & row & row' & Hk & Hrow & Hrow' & ->)%enrich_rows_step_Ok.
      apply Forall_insert; [done|].
      intros key field_info label items_indexes Hentry Hfield.
      rewrite (enrich_row_keys _ _ _ _ Hrow').
      eapply (proj1 (Forall_forall _ _) Hd1); [|done..].
      by eapply list_elem_of_lookup_2.
    + intros d1 i e1 _ Hd1.
      destruct (Py.getitem d1 i) as [row|e2] eqn:E1; simpl.
      * destruct (enrich_row row err err_id) as [row'|e3] eqn:E2; simpl.
        -- unfold Py.setitem. destruct (Py.position _ _); [done|]. by intros [= <-].
        -- intros [= <-]. apply (enrich_row_IndexError _ _ _ _) in E2; [done|].
           apply getitem_Ok in E1 as (k & _ & Hrow).
           eapply (proj1 (Forall_forall _ _) Hd1). by eapply list_elem_of_lookup_2.
      * intros [= <-]. by apply getitem_Raise in E1 as [_ ->].
    + apply Forall_forall. intros row Hrow key field_info label items_indexes ??.
      by eapply Hlabels.
  - intros [= <-]. apply comprehension_Raise in E as (key & Hkey & Hint).
    destruct (Hkeys key Hkey) as [r Hr]. congruence.
Qed.

Lemma well_addressed_same_keys d d' err :
  Forall2 (λ row row', Py.keys (fields row') = Py.keys (fields row)) d d' →
  well_addressed d err → well_addressed d' err.
Proof.
  intros Hd [Hkeys Hlabels]. split; [done|].
  intros key field_info label items_indexes row' Hentry Hfield
    [n Hn]%list_elem_of_lookup.
  destruct (Forall2_lookup_r _ _ _ _ _ Hd Hn) as (row & Hrow & ->).
  eapply Hlabels; [done..|]. by eapply list_elem_of_lookup_2.
Qed.

Lemma enrich_rows_same_keys d err err_id d' :
  enrich_rows d err err_id = Ok d' →
  Forall2 (λ row row', Py.keys (fields row') = Py.keys (fields row)) d d'.
Proof.
  apply (enrich_rows_pointwise
           (λ row row', Py.keys (fields row') = Py.keys (fields row))); [done|].
  intros row0 row row' H Hrow. by rewrite (enrich_row_keys _ _ _ _ Hrow).
Qed.

Lemma map_loop_IndexError choice table_type l k d errs colors e :
  (∀ err, err ∈ l → well_addressed d err) →
  length l ≤ size colors →
  Py.for_each (map_error choice table_type) (d, errs, colors)
    (Py.enumerate_from k l) = Raise e →
  e = IndexError.
Proof.
  revert k d errs colors. induction l as [|err l IH];
    intros k d errs colors Hwell Hsize; simpl; [done|].
  unfold map_error at 1.
  destruct (set_pop_nonempty choice colors) as (c & colors' & Hpop);
    [simpl in Hsize; lia|].
  rewrite Hpop. simpl.
  destruct (enrich_rows d err (error_id table_type k)) as [d'|e'] eqn:Hrows; simpl.
  - apply IH.
    + intros err' Hin. eapply well_addressed_same_keys.
      * by eapply enrich_rows_same_keys.
      * apply Hwell. by right.
    + apply set_pop_elem in Hpop as (_ & _ & _ & Hsz). simpl in Hsize. lia.
  - intros [= <-]. eapply enrich_rows_IndexError; [|done]. apply Hwell. by left.
Qed.

(** C2, amended: once colour allocation has come to an end, a report with
    an error that names a row index outside [-len(models), len(models)), or
    an item index outside [-len(items), len(items)) for the items of a field
    it addresses, makes the run abort with one of Python's own exceptions,
    which carries no coordinates: the [IndexError] of the subscript that
    fails, unless a row key that is not an integer or a field label that the
    rows do not have raises [ValueError] or [KeyError] first.  Nothing is
    skipped and no model is returned. *)
Theorem out_of_range_aborts (fl : Q → Q) (choice : gset string → nat)
    (draws : list (Q * Q * Q)) (data : list Row) (report : list ErrorObject.t)
    (colors : gset string) (err : ErrorObject.t) :
  generate_error_colors fl draws (length report) = Some colors →
  err ∈ report →
  row_out_of_range (length data) err ∨ item_out_of_range (model_rows data) err →
  ∃ e, map_errors_to_data fl choice draws data report = Some (Raise e)
       ∧ builtin_exception e
       ∧ ((∀ err', err' ∈ report → well_addressed (model_rows data) err') →
          e = IndexError).
Proof.
  intros Hcolors Herr Hout.
  destruct (map_errors_to_data fl choice draws data report)
    as [[[out_data out_errors]|e]|] eqn:Hrun.
  - exfalso.
    assert (in_bounds_so_far data report (Z.of_nat (length report)) out_data)
      as [_ Hall].
    { apply (map_errors_data_invariant fl choice
               (in_bounds_so_far data report) _ _ _ _ _ Hrun).
      - intros first j err' d d' _. apply in_bounds_so_far_step.
      - split; [apply Forall_Forall2_diag, Forall_true, same_sizes_refl|].
        by intros ? ?%elem_of_nil. }
    rewrite Nat2Z.id, firstn_all in Hall.
    destruct (Hall _ Herr) as [Hrow Hitem]. tauto.
  - exists e. split_and!; [done|by eapply map_errors_to_data_builtin|].
    intros Hwell. revert Hrun. unfold map_errors_to_data.
    destruct (Py.getitem data 0) as [first|e'] eqn:Hfirst.
    + rewrite Hcolors. simpl.
      destruct (Py.for_each _ _ _) as [[[d1 errs1] colors1]|e'] eqn:Hloop;
        simpl; [done|].
      intros [= <-]. eapply map_loop_IndexError; [done| |done].
      destruct (generate_error_colors_loop_Some fl draws (length report) ∅ colors)
        as [Hsize _]; [rewrite size_empty; lia|done|lia].
    + intros [= <-]. by apply getitem_Raise in Hfirst as [_ ->].
  - apply map_errors_to_data_None in Hrun. congruence.
Qed.

(** ** The mapping on a sample report *)

(** Two errors on the same item are listed in the order of the report. *)
Example two_errors_on_one_item :
  issues_at Sample.out_data 0 "id" 0 = Some ["meta-0"; "meta-2"].
Proof. reflexivity. Qed.

(** An error on a whole field that is empty goes to the placeholder item. *)
Example whole_empty_field :
  issues_at Sample.out_data 2 "venue" 0 = Some ["meta-1"]
  ∧ (contains_issue <$> Sample.out_data) = [true; true; true].
Proof. split; reflexivity. Qed.

(** A row key [-1] is accepted and names the last row. *)
Example negative_row_key :
  ∃ out_data out_errors,
    map_errors_to_data Sample.fl Sample.choice Sample.draws Sample.data
      [Sample.error "last_row" [("-1", [("id", Some [(-1)%Z])])]]
    = Some (Ok (out_data, out_errors))
    ∧ (contains_issue <$> out_data) = [false; false; true]
    ∧ issues_at out_data 2 "id" 0 = Some ["meta-0"].
Proof. eexists _, _. split_and!; [vm_compute; reflexivity|reflexivity..]. Qed.

(** A row key of more digits than [int] allows raises [ValueError],
    whatever number it spells; with one digit less it names row 1. *)
Example long_row_key :
  Py.int Sample.long_key = Raise (ValueError Sample.long_key)
  ∧ Py.int (String.string_of_list_ascii (replicate 4299 "0"%char) +:+ "1") = Ok 1%Z
  ∧ map_errors_to_data Sample.fl Sample.choice Sample.draws Sample.data
      [Sample.error "long_key" [(Sample.long_key, [("id", Some [0%Z])])]]
    = Some (Raise (ValueError Sample.long_key)).
Proof. split_and!; vm_compute; reflexivity. Qed.

(** A field label that the rows do not have raises [KeyError]. *)
Example unknown_field_label :
  map_errors_to_data Sample.fl Sample.choice Sample.draws Sample.data
    [Sample.error "unknown" [("0", [("citing_id", None)])]]
  = Some (Raise (KeyError "citing_id")).
Proof. vm_compute. reflexivity. Qed.

(** ** The statements at sample inputs *)

Lemma sample_run :
  map_errors_to_data Sample.fl Sample.choice Sample.draws Sample.data Sample.report
  = Some (Ok (Sample.out_data, Sample.out_errors)).
Proof. vm_compute. reflexivity. Defined.

Lemma model_row_default_items_witness :
  Py.dict_get (flat_serialise Sample.article) "venue" = Some []
  ∧ ∃ items,
      Py.dict_get (fields (model_row_default Sample.article 0)) "venue" = Some items
      ∧ items = [sentinel_item 0 "venue"].
Proof.
  split; [reflexivity|].
  destruct (model_row_default_items Sample.article 0) as (_ & _ & Hfields & _).
  destruct (Hfields "venue" [] eq_refl) as (items & Hitems & Hempty & _).
  exists items. split; [exact Hitems|]. apply Hempty. reflexivity.
Defined.

Lemma model_rows_keys data row :
  row ∈ model_rows data →
  ∃ r, r ∈ data ∧ Py.keys (fields row) = Py.keys (flat_serialise r).
Proof.
  intros [n Hn]%list_elem_of_lookup.
  destruct (data !! n) as [r|] eqn:E.
  - exists r. split; [by eapply list_elem_of_lookup_2|].
    rewrite (model_rows_lookup _ _ _ E) in Hn. injection Hn as <-.
    rewrite fields_model_row_default. apply keys_fmap.
  - apply lookup_ge_None in E. apply lookup_lt_Some in Hn.
    rewrite model_rows_length in Hn. lia.
Defined.

Lemma sample_row_999_well_addressed :
  ∀ err, err ∈ [Sample.row_999] →
         well_addressed (model_rows Sample.ten_rows) err.
Proof.
  intros err ->%list_elem_of_singleton. split.
  - intros key ->%list_elem_of_singleton. exists 999%Z. reflexivity.
  - intros key field_info label items_indexes row
      [= -> ->]%list_elem_of_singleton [= -> ->]%list_elem_of_singleton
      (r & ->%elem_of_replicate_inv & ->)%model_rows_keys.
    simpl. repeat constructor.
Defined.

Lemma out_of_range_aborts_witness :
  Sample.row_999 ∈ [Sample.row_999]
  ∧ row_out_of_range (length Sample.ten_rows) Sample.row_999
  ∧ map_errors_to_data Sample.fl Sample.choice Sample.draws
      Sample.ten_rows [Sample.row_999] = Some (Raise IndexError).
Proof.
  assert (Sample.row_999 ∈ [Sample.row_999]) as Hin by constructor.
  assert (row_out_of_range (length Sample.ten_rows) Sample.row_999) as Hout.
  { exists "999", 999%Z. split_and!; [constructor|reflexivity|simpl; lia]. }
  split_and!; [exact Hin|exact Hout|].
  destruct (generate_error_colors Sample.fl Sample.draws
              (length [Sample.row_999])) as [colors|] eqn:Hcolors;
    [|vm_compute in Hcolors; discriminate].
  destruct (out_of_range_aborts Sample.fl Sample.choice Sample.draws
              Sample.ten_rows [Sample.row_999] colors Sample.row_999
              Hcolors Hin (or_introl Hout))
    as (e & Hrun & _ & Hindex).
  rewrite <-(Hindex sample_row_999_well_addressed). exact Hrun.
Defined.

Lemma contains_issue_flag_witness :
  map_errors_to_data Sample.fl Sample.choice Sample.draws Sample.data Sample.report
  = Some (Ok (Sample.out_data, Sample.out_errors))
  ∧ ∃ row,
      Sample.out_data !! 2 = Some row
      ∧ (contains_issue row = true ↔ row_named (length Sample.data) Sample.report 2)
      ∧ (has_issue row → contains_issue row = true).
Proof.
  split; [exact sample_run|].
  eexists. split; [reflexivity|].
  apply (proj1 contains_issue_flag Sample.fl Sample.choice Sample.draws
           Sample.data Sample.report Sample.out_data Sample.out_errors 2).
  - exact sample_run.
  - reflexivity.
Defined.

Lemma whole_field_wildcard_witness :
  Py.dict_get (fields (model_row_default Sample.note 2)) "venue"
  = Some [sentinel_item 2 "venue"]
  ∧ ∃ fields',
      enrich_field "meta-1" (fields (model_row_default Sample.note 2)) ("venue", None)
      = Ok fields'
      ∧ Py.dict_get fields' "venue"
        = Some [add_issue "meta-1" (sentinel_item 2 "venue")].
Proof.
  split; [reflexivity|].
  destruct (whole_field_wildcard "meta-1" "venue"
              (fields (model_row_default Sample.note 2))
              (sentinel_item 2 "venue") [] eq_refl)
    as (_ & (fields' & Hrun & Hget & _) & _).
  exists fields'. split; [exact Hrun|exact Hget].
Defined.

Lemma issues_append_only_set_witness :
  map_errors_to_data Sample.fl Sample.choice Sample.draws Sample.data Sample.report
  = Some (Ok (Sample.out_data, Sample.out_errors))
  ∧ Sample.data !! 0 = Some Sample.article
  ∧ ∀ row it,
      row ∈ Sample.out_data → it ∈ all_items row →
      NoDup (issues it)
      ∧ issues it `sublist_of`
          report_ids (table_type_of Sample.article)
            (Z.of_nat (length Sample.report)).
Proof.
  split_and!; [exact sample_run|reflexivity|].
  intros row it.
  apply (proj2 (proj2 issues_append_only_set) Sample.fl Sample.choice
           Sample.draws Sample.data Sample.report Sample.out_data
           Sample.out_errors Sample.article row it).
  - exact sample_run.
  - reflexivity.
Defined.

Lemma item_extraction_witness :
  "viaf:123" ∈ parse_ids agent_schemes "Smith, J. [orcid:0000-0001 viaf:123]"
  ∧ identifier_of agent_schemes "viaf:123"
  ∧ ∃ offset, delimited_at "Smith, J. [orcid:0000-0001 viaf:123]" offset "viaf:123".
Proof.
  assert ("viaf:123" ∈ parse_ids agent_schemes "Smith, J. [orcid:0000-0001 viaf:123]")
    as Hin by (vm_compute; repeat constructor).
  split; [exact Hin|].
  exact (proj1 (item_extraction agent_schemes "Smith, J. [orcid:0000-0001 viaf:123]")
           "viaf:123" Hin).
Defined.

Lemma sample_rounding : rounding Sample.fl.
Proof.
  unfold rounding, Sample.fl. split_and!; [intros x y Hxy; exact Hxy|reflexivity..].
Defined.

Lemma color_allocation_witness :
  rounding Sample.fl
  ∧ Forall drawn_in_range Sample.draws
  ∧ 3 ≤ size (list_to_set (C := gset string) (drawn_colors Sample.fl Sample.draws))
  ∧ ∃ colors,
      generate_error_colors Sample.fl Sample.draws 3 = Some colors
      ∧ size colors = 3
      ∧ (∀ c, c ∈ colors → is_hex_color c = true)
      ∧ catalogue_colors Sample.out_errors ≡ₚ elements colors.
Proof.
  assert (Forall drawn_in_range Sample.draws) as Hdraws.
  { unfold Sample.draws. repeat constructor; unfold Qle, Qlt; simpl; lia. }
  assert (3 ≤ size (list_to_set (C := gset string)
                      (drawn_colors Sample.fl Sample.draws))) as Henough.
  { vm_compute. lia. }
  split_and!; [exact sample_rounding|exact Hdraws|exact Henough|].
  destruct (color_allocation Sample.fl Sample.choice Sample.draws 3
              sample_rounding Hdraws Henough)
    as (colors & Hcolors & Hsize & _ & _ & Hformat & Huse).
  exists colors. split_and!; [exact Hcolors|exact Hsize|exact Hformat|].
  apply (Huse Sample.data Sample.report Sample.out_data Sample.out_errors).
  - reflexivity.
  - exact sample_run.
Defined.

Lemma table_type_from_first_row_witness :
  map_errors_to_data Sample.fl Sample.choice Sample.draws
    (Sample.article :: [Sample.article; Sample.note]) Sample.report
  = Some (Ok (Sample.out_data, Sample.out_errors))
  ∧ Py.keys Sample.out_errors = ["meta-0"; "meta-1"; "meta-2"].
Proof.
  split; [exact sample_run|].
  exact (proj2 (table_type_from_first_row Sample.fl Sample.choice Sample.draws)
           Sample.article [Sample.article; Sample.note] Sample.report
           Sample.out_data Sample.out_errors sample_run).
Defined.

(** * Further properties *)

(** ** Splitting a cell and joining its items *)

Section SplitJoin.
Implicit Types (s t cur sep : string).

Lemma rev_app_app s t : String.rev_app s t = String.rev s +:+ t.
Proof.
  unfold String.rev. revert t. induction s as [|c s IH]; intros t; simpl.
  - by rewrite app_empty.
  - rewrite IH, (IH (String c EmptyString)), string_app_assoc.
    by rewrite app_String, app_empty.
Qed.

Lemma rev_String c s : String.rev (String c s) = String.rev s +:+ String c EmptyString.
Proof. unfold String.rev at 1. simpl. apply rev_app_app. Qed.

Lemma split_go_nonempty sep skip cur s : Py.split_go sep skip cur s ≠ [].
Proof.
  revert skip cur. induction s as [|c s IH]; intros skip cur; simpl; [done|].
  destruct skip; [|done]. by destruct (Py.strip_prefix sep (String c s)).
Qed.

Lemma join_cons sep x l :
  l ≠ [] → Py.join sep (x :: l) = x +:+ sep +:+ Py.join sep l.
Proof. by destruct l. Qed.

(** Passing over the rest of a separator. *)
Lemma split_go_skip sep u rest cur :
  Py.split_go sep (String.length u) cur (u +:+ rest)
  = Py.split_go sep 0 cur rest.
Proof.
  induction u as [|c u IH]; simpl.
  - by rewrite app_empty.
  - done.
Qed.

Lemma join_split_go sep cur s :
  sep ≠ EmptyString →
  Py.join sep (Py.split_go sep 0 cur s) = String.rev cur +:+ s.
Proof.
  intros Hsep.
  remember (String.length s) as n eqn:Hn.
  revert cur s Hn. induction (lt_wf n) as [n _ IH]. intros cur s ->.
  destruct s as [|c s]; simpl.
  - by rewrite string_app_nil_r.
  - destruct (Py.strip_prefix sep (String c s)) as [rest|] eqn:E.
    + apply strip_prefix_Some in E.
      destruct sep as [|a sep]; [done|].
      rewrite app_String in E. injection E as <- ->.
      replace (String.length (String c sep) - 1) with (String.length sep)
        by (simpl; lia).
      rewrite split_go_skip, join_cons by apply split_go_nonempty.
      rewrite (IH (String.length rest)); [| |done].
      * change (String.rev EmptyString) with EmptyString.
        by rewrite app_empty, app_String.
      * simpl. rewrite string_length_app. lia.
    + rewrite (IH (String.length s)); [|simpl; lia|done].
      by rewrite rev_String, string_app_assoc, app_String, app_empty.
Qed.

(** Joining with the separator what was split at it gives the text back. *)
Lemma join_split sep s :
  sep ≠ EmptyString → Py.join sep (Py.split sep s) = s.
Proof. intros Hsep. unfold Py.split. by rewrite join_split_go. Qed.

Lemma count_char_app c s t :
  count_char c (s +:+ t) = count_char c s + count_char c t.
Proof.
  induction s as [|a s IH]; [done|]. rewrite app_String. simpl. rewrite IH. lia.
Qed.

Lemma count_char_rev c s : count_char c (String.rev s) = count_char c s.
Proof.
  induction s as [|a s IH]; [done|].
  rewrite rev_String, count_char_app, IH. simpl. lia.
Qed.

(** Splitting at a single character. *)
Lemma split_go_char c cur s :
  length (Py.split_go (String c EmptyString) 0 cur s) = S (count_char c s)
  ∧ (count_char c cur = 0 →
     Forall (λ piece, count_char c piece = 0)
       (Py.split_go (String c EmptyString) 0 cur s)).
Proof.
  revert cur. induction s as [|a s IH]; intros cur; simpl.
  - split; [done|]. intros Hcur. constructor; [|done]. by rewrite count_char_rev.
  - case_decide as Hac.
    + subst a. rewrite decide_True by done. simpl.
      destruct (IH EmptyString) as [Hlen Hall]. split; [by rewrite Hlen|].
      intros Hcur. constructor; [by rewrite count_char_rev|]. by apply Hall.
    + rewrite decide_False by done. simpl.
      destruct (IH (String a cur)) as [Hlen Hall]. split; [done|].
      intros Hcur. apply Hall. simpl. rewrite decide_False by done. done.
Qed.

End SplitJoin.

(** ** The items of a cell *)

Lemma agents_parse_agent_field (value : option string) :
  MetadataRow.agents (MetadataRow._parse_agent_field value)
  = if falsy value then [] else Py.split "; " (default EmptyString value).
Proof.
  destruct value as [s|]; [|done].
  unfold MetadataRow._parse_agent_field.
  destruct (falsy (Some s)); [done|]. simpl.
  rewrite <-list_fmap_compose. by rewrite list_fmap_id.
Qed.

Lemma parse_id_field_default (value : option string) :
  _parse_id_field (default EmptyString value)
  = if falsy value then [] else Py.split " " (default EmptyString value).
Proof. by destruct value. Qed.

(** The flattened value of a field that holds a list of items. *)
Lemma flat_serialise_list_field raw_row field sep :
  field ∈ list_fields →
  Py.dict_get item_separators field = Some sep →
  Py.dict_get (flat_serialise (Metadata (read_metadata_row raw_row))) field
  = Some (if falsy (Py.dict_get raw_row field) then []
          else Py.split sep (default EmptyString (Py.dict_get raw_row field))).
Proof.
  unfold list_fields. intros Hin Hsep.
  repeat (apply elem_of_cons in Hin as [->|Hin]);
    [..|by apply elem_of_nil in Hin];
    injection Hsep as <-.
  - apply (f_equal Some), parse_id_field_default.
  - apply (f_equal Some), agents_parse_agent_field.
  - apply (f_equal Some), agents_parse_agent_field.
  - apply (f_equal Some), agents_parse_agent_field.
Qed.

Lemma flat_serialise_id_field raw_row field :
  field ∈ ["citing_id"; "cited_id"] →
  Py.dict_get (flat_serialise (Citations (read_citations_row raw_row))) field
  = Some (if falsy (Py.dict_get raw_row field) then []
          else Py.split " " (default EmptyString (Py.dict_get raw_row field))).
Proof.
  intros Hin.
  repeat (apply elem_of_cons in Hin as [->|Hin]);
    [..|by apply elem_of_nil in Hin];
    apply (f_equal Some), parse_id_field_default.
Qed.

Lemma raws_field_value_model row_idx label values :
  raws (field_value_model row_idx label values)
  = match values with [] => [EmptyString] | _ => values end.
Proof.
  destruct values as [|v vs]; [done|].
  rewrite field_value_model_values by done. unfold raws, Py.enumerate.
  rewrite <-list_fmap_compose.
  rewrite <-(fmap_snd_enumerate_from 0 (v :: vs)) at 2.
  apply list_fmap_ext. by intros ? [??].
Qed.

Lemma join_raws_field_value_model sep row_idx label values :
  Py.join sep (raws (field_value_model row_idx label values))
  = Py.join sep values.
Proof. rewrite raws_field_value_model. by destruct values. Qed.

Lemma join_split_cell sep (value : option string) :
  sep ≠ EmptyString →
  Py.join sep (if falsy value then []
               else Py.split sep (default EmptyString value))
  = default EmptyString value.
Proof.
  intros Hsep. destruct value as [s|]; [|done]. simpl.
  case_bool_decide as Hs; [by subst s|]. by apply join_split.
Qed.

(** X1: the separators that [make_gui] hands to the template are those the
    row parsers split at.  For every field that has a separator, joining
    the texts of the items of the modelled field with that separator gives
    back the text of the cell, and the empty text for a cell that is
    missing or empty. *)
Theorem separators_restore_cell (raw_row : RawRow) (row : Row)
    (label sep : string) (row_idx : Z) (items : list ItemRecord) :
  row = Metadata (read_metadata_row raw_row)
  ∨ row = Citations (read_citations_row raw_row) →
  Py.dict_get item_separators label = Some sep →
  Py.dict_get (fields (model_row_default row row_idx)) label = Some items →
  Py.join sep (raws items) = default EmptyString (Py.dict_get raw_row label).
Proof.
  intros Hrow Hsep Hitems.
  rewrite fields_model_row_default,
    (dict_get_fmap (field_value_model row_idx)) in Hitems.
  assert (sep ≠ EmptyString) as Hne.
  { apply dict_get_Some_elem in Hsep. unfold item_separators in Hsep.
    repeat (apply elem_of_cons in Hsep as [[= _ ->]|Hsep]); try done.
    by apply elem_of_nil in Hsep. }
  assert (Py.dict_get (flat_serialise row) label
          = Some (if falsy (Py.dict_get raw_row label) then []
                  else Py.split sep
                         (default EmptyString (Py.dict_get raw_row label)))
          ∨ Py.dict_get (flat_serialise row) label = None) as [Hflat|Hflat].
  { pose proof Hsep as Hin. apply dict_get_Some_elem in Hin.
    unfold item_separators in Hin.
    destruct Hrow as [-> | ->];
      repeat (apply elem_of_cons in Hin as [[= -> ->]|Hin]);
      try (by apply elem_of_nil in Hin);
      try (by right);
      left.
    - apply flat_serialise_list_field; [|done]. unfold list_fields. set_solver.
    - apply flat_serialise_list_field; [|done]. unfold list_fields. set_solver.
    - apply flat_serialise_list_field; [|done]. unfold list_fields. set_solver.
    - apply flat_serialise_list_field; [|done]. unfold list_fields. set_solver.
    - apply flat_serialise_id_field. set_solver.
    - apply flat_serialise_id_field. set_solver. }
  - rewrite Hflat in Hitems. injection Hitems as <-.
    rewrite join_raws_field_value_model. by apply join_split_cell.
  - by rewrite Hflat in Hitems.
Qed.

Lemma separators_restore_cell_witness :
  ∃ items,
    Py.dict_get item_separators "author" = Some "; "
    ∧ Py.dict_get (fields (model_row_default Sample.article 1)) "author"
      = Some items
    ∧ length items = 2
    ∧ Py.join "; " (raws items) = "Smith, J. [orcid:0000-0001 viaf:123]; Doe, A.".
Proof.
  eexists. split; [reflexivity|]. split; [vm_compute; reflexivity|].
  split; [reflexivity|].
  refine (separators_restore_cell
           [ ("id", "doi:10.1/a issn:1234-5678");
             ("title", "A title");
             ("author", "Smith, J. [orcid:0000-0001 viaf:123]; Doe, A.");
             ("pub_date", EmptyString) ]
           Sample.article "author" "; " 1 _ _ _ _).
  - left. reflexivity.
  - reflexivity.
  - vm_compute. reflexivity.
Defined.

(** X2: the identifiers of an [id], [citing_id] or [cited_id] cell.  An
    empty cell has none; a cell that is not empty has one more than it has
    blanks, empty pieces included, and no identifier holds a blank. *)
Theorem id_field_items (value : string) :
  (value = EmptyString → _parse_id_field value = [])
  ∧ (value ≠ EmptyString →
     length (_parse_id_field value) = S (count_char " " value)
     ∧ Forall (λ id, count_char " " id = 0) (_parse_id_field value)).
Proof.
  split; [by intros ->|]. intros Hne.
  unfold _parse_id_field. simpl. rewrite bool_decide_eq_false_2 by done.
  destruct (split_go_char " " EmptyString value) as [Hlen Hall].
  split; [done|]. by apply Hall.
Qed.

Lemma id_field_items_witness :
  "doi:10.1/a  issn:1234-5678" ≠ EmptyString
  ∧ _parse_id_field "doi:10.1/a  issn:1234-5678"
    = ["doi:10.1/a"; EmptyString; "issn:1234-5678"]
  ∧ length (_parse_id_field "doi:10.1/a  issn:1234-5678")
    = S (count_char " " "doi:10.1/a  issn:1234-5678").
Proof.
  assert ("doi:10.1/a  issn:1234-5678" ≠ EmptyString) as Hne by discriminate.
  split; [exact Hne|]. split; [reflexivity|].
  exact (proj1 (proj2 (id_field_items "doi:10.1/a  issn:1234-5678") Hne)).
Defined.

(** X3: the fields of a metadata row that are not scalar.  A cell of
    [id], [author], [publisher] or [editor] that is missing or empty is
    modelled as the one placeholder item, and one that has a text as one
    ordinary item per piece of the text split at the separator of the
    field; the text of an agent goes through [AgentItem] unchanged.  The
    [venue] cell is modelled as the placeholder when missing or empty and
    as one ordinary item holding the whole text otherwise. *)
Theorem composite_field_modelled (raw_row : RawRow) (row_idx : Z) :
  (∀ field sep,
     field ∈ list_fields →
     Py.dict_get item_separators field = Some sep →
     (falsy (Py.dict_get raw_row field) = true →
      modelled_as_sentinel raw_row field row_idx)
     ∧ (∀ s, Py.dict_get raw_row field = Some s → s ≠ EmptyString →
             modelled_as_values raw_row field row_idx (Py.split sep s)))
  ∧ (falsy (Py.dict_get raw_row "venue") = true →
     modelled_as_sentinel raw_row "venue" row_idx)
  ∧ (∀ s, Py.dict_get raw_row "venue" = Some s → s ≠ EmptyString →
          modelled_as_value raw_row "venue" row_idx s).
Proof.
  unfold modelled_as_sentinel, modelled_as_values, modelled_as_value.
  rewrite !fields_model_row_default.
  split_and!.
  - intros field sep Hfield Hsep.
    pose proof (flat_serialise_list_field raw_row _ _ Hfield Hsep) as Hflat.
    split.
    + intros Hfalsy. rewrite Hfalsy in Hflat.
      rewrite (dict_get_fmap (field_value_model row_idx)).
      unfold read_metadata_row in Hflat. by rewrite Hflat.
    + intros s Hs Hne. rewrite Hs in Hflat. unfold falsy in Hflat.
      rewrite bool_decide_eq_false_2 in Hflat by done.
      cbn [from_option] in Hflat.
      rewrite (dict_get_fmap (field_value_model row_idx)), Hflat.
      split_and!; [apply split_go_nonempty|done|].
      simpl. by rewrite field_value_model_values by apply split_go_nonempty.
  - rewrite (dict_get_fmap (field_value_model row_idx)).
    change (Py.dict_get (flat_serialise (Metadata (MetadataRow.__init__ raw_row))) "venue")
      with (Some match MetadataRow._parse_venue_field (Py.dict_get raw_row "venue") with
                 | Some v => [VenueInfo.__str__ v]
                 | None => []
                 end).
    destruct (Py.dict_get raw_row "venue") as [s|]; simpl; [|done].
    by intros ->.
  - intros s Hs Hne.
    rewrite (dict_get_fmap (field_value_model row_idx)).
    change (Py.dict_get (flat_serialise (Metadata (MetadataRow.__init__ raw_row))) "venue")
      with (Some match MetadataRow._parse_venue_field (Py.dict_get raw_row "venue") with
                 | Some v => [VenueInfo.__str__ v]
                 | None => []
                 end).
    rewrite Hs. simpl. by rewrite bool_decide_eq_false_2 by done.
Qed.

Lemma composite_field_modelled_witness :
  "author" ∈ list_fields
  ∧ Py.dict_get item_separators "author" = Some "; "
  ∧ modelled_as_values [("author", "Smith, J. [orcid:0000-0001]; Doe, A.")]
      "author" 4 ["Smith, J. [orcid:0000-0001]"; "Doe, A."]
  ∧ modelled_as_sentinel [("author", "Smith, J. [orcid:0000-0001]; Doe, A.")]
      "venue" 4.
Proof.
  assert ("author" ∈ list_fields) as Hin
    by (unfold list_fields; repeat constructor).
  destruct (composite_field_modelled
              [("author", "Smith, J. [orcid:0000-0001]; Doe, A.")] 4)
    as (Hlist & Hvenue & _).
  split; [exact Hin|]. split; [reflexivity|]. split.
  - apply (proj2 (Hlist "author" "; " Hin eq_refl)
             "Smith, J. [orcid:0000-0001]; Doe, A." eq_refl).
    discriminate.
  - apply Hvenue. reflexivity.
Defined.

(** ** The name of an agent or of a venue *)

Section Strip.
Variable space : ascii → bool.
Implicit Types (s t u : string).

Lemma rev_app s t : String.rev (s +:+ t) = String.rev t +:+ String.rev s.
Proof.
  induction s as [|c s IH].
  - rewrite app_empty. change (String.rev EmptyString) with EmptyString.
    by rewrite string_app_nil_r.
  - by rewrite app_String, !rev_String, IH, string_app_assoc.
Qed.

Lemma rev_involutive s : String.rev (String.rev s) = s.
Proof.
  induction s as [|c s IH]; [done|].
  rewrite rev_String, rev_app, IH. done.
Qed.

Lemma lstrip_with_suffix s : ∃ pre, s = pre +:+ Py.lstrip_with space s.
Proof.
  induction s as [|c s [pre IH]]; simpl.
  - by exists EmptyString.
  - destruct (space c).
    + exists (String c pre). by rewrite app_String, <-IH.
    + by exists EmptyString.
Qed.

Lemma lstrip_with_head s c rest :
  Py.lstrip_with space s = String c rest → space c = false.
Proof.
  induction s as [|a s IH]; simpl; [done|].
  destruct (space a) eqn:E; [done|]. by intros [= <- _].
Qed.

Lemma lstrip_with_snoc u c :
  space c = false →
  ∃ u', Py.lstrip_with space (u +:+ String c EmptyString)
        = u' +:+ String c EmptyString.
Proof.
  intros Hc. induction u as [|a u [u' IH]].
  - exists EmptyString. rewrite !app_empty. simpl. by rewrite Hc.
  - rewrite app_String. simpl. destruct (space a).
    + by exists u'.
    + exists (String a u). by rewrite app_String.
Qed.

Lemma rstrip_with_prefix s : ∃ post, s = Py.rstrip_with space s +:+ post.
Proof.
  unfold Py.rstrip_with.
  destruct (lstrip_with_suffix (String.rev s)) as [pre Hpre].
  exists (String.rev pre).
  by rewrite <-rev_app, <-Hpre, rev_involutive.
Qed.

Lemma rstrip_with_last s rest c :
  Py.rstrip_with space s = rest +:+ String c EmptyString → space c = false.
Proof.
  unfold Py.rstrip_with. intros H. apply (f_equal String.rev) in H.
  rewrite rev_involutive, rev_app in H.
  by apply lstrip_with_head in H.
Qed.

Lemma rstrip_with_head c rest :
  space c = false →
  ∃ rest', Py.rstrip_with space (String c rest) = String c rest'.
Proof.
  intros Hc. unfold Py.rstrip_with. rewrite rev_String.
  destruct (lstrip_with_snoc (String.rev rest) c Hc) as [u' ->].
  exists (String.rev u'). by rewrite rev_app.
Qed.

Lemma strip_with_head s c rest :
  Py.strip_with space s = String c rest → space c = false.
Proof.
  unfold Py.strip_with.
  destruct (Py.lstrip_with space s) as [|a t] eqn:E; [done|].
  apply lstrip_with_head in E.
  destruct (rstrip_with_head a t E) as [rest' ->]. by intros [= <- _].
Qed.

Lemma strip_with_last s rest c :
  Py.strip_with space s = rest +:+ String c EmptyString → space c = false.
Proof. apply rstrip_with_last. Qed.

Lemma strip_with_within s :
  ∃ pre post, s = pre +:+ Py.strip_with space s +:+ post.
Proof.
  unfold Py.strip_with.
  destruct (lstrip_with_suffix s) as [pre Hpre].
  destruct (rstrip_with_prefix (Py.lstrip_with space s)) as [post Hpost].
  exists pre, post. by rewrite <-Hpost.
Qed.

End Strip.

(** X4: the name of an agent or of a venue is a piece of the raw text
    that holds no opening bracket and neither starts nor ends with
    whitespace. *)
Theorem name_is_stripped (raw name : string) :
  name = AgentItem.name (AgentItem.__init__ raw)
  ∨ name = VenueInfo.name (VenueInfo.__init__ raw) →
  (∃ pre post, raw = pre +:+ name +:+ post)
  ∧ (∀ pre post, name ≠ pre +:+ String "[" post)
  ∧ (∀ c rest, name = String c rest → Py.isspace c = false)
  ∧ (∀ rest c, name = rest +:+ String c EmptyString → Py.isspace c = false).
Proof.
  intros Hname.
  assert (name = parse_name raw) as -> by (by destruct Hname as [-> | ->]).
  clear Hname. unfold parse_name, Py.strip.
  destruct (Py.before_first "[" raw) as [before|] eqn:E.
  - apply before_first_Some in E as (rest & -> & Hfirst).
    destruct (strip_with_within Py.isspace before) as (pre & post & Hbefore).
    split_and!.
    + exists pre, (post +:+ String "[" rest).
      rewrite Hbefore at 1. by rewrite !string_app_assoc.
    + intros a b Heq. rewrite Heq in Hbefore.
      apply (Hfirst (pre +:+ a) (b +:+ post)).
      rewrite Hbefore. by rewrite !string_app_assoc, app_String.
    + intros c rest'. apply strip_with_head.
    + intros rest' c. apply strip_with_last.
  - destruct (strip_with_within Py.isspace raw) as (pre & post & Hraw).
    split_and!.
    + by exists pre, post.
    + intros a b Heq. rewrite Heq in Hraw.
      eapply (proj1 (before_first_None _ _) E (pre +:+ a) (b +:+ post)).
      rewrite Hraw at 1. by rewrite !string_app_assoc, app_String.
    + intros c rest'. apply strip_with_head.
    + intros rest' c. apply strip_with_last.
Qed.

Lemma name_is_stripped_witness :
  AgentItem.name (AgentItem.__init__ "  Smith, J.  [orcid:0000-0001] x") = "Smith, J."
  ∧ ∀ c rest, "Smith, J." = String c rest → Py.isspace c = false.
Proof.
  split; [reflexivity|].
  apply (name_is_stripped "  Smith, J.  [orcid:0000-0001] x" "Smith, J.").
  left. reflexivity.
Defined.

(** ** What enrichment leaves alone *)

Lemma clear_item_add_issue err_id it : clear_item (add_issue err_id it) = clear_item it.
Proof. unfold add_issue. by case_bool_decide. Qed.

Lemma clear_item_no_issue (items : list ItemRecord) :
  Forall (λ it, issues it = []) items → clear_item <$> items = items.
Proof.
  induction 1 as [|[r i iss] items Hit _ IH]; [done|].
  rewrite fmap_cons, IH. simpl in Hit. by subst iss.
Qed.

Lemma clear_row_no_issue (row : RowModel) :
  contains_issue row = false →
  Forall (λ it, issues it = []) (all_items row) →
  clear_row row = row.
Proof.
  destruct row as [flag idx f]. unfold all_items, clear_row. simpl.
  intros -> Hall. f_equal.
  unfold Py.values in Hall. rewrite Forall_concat, Forall_fmap in Hall.
  unfold clear_fields.
  induction Hall as [|[l items] f Hitems _ IH]; [done|].
  rewrite fmap_cons, IH. simpl in *. by rewrite clear_item_no_issue.
Qed.

Lemma clear_fields_enrich_item err_id label fields j fields' :
  enrich_item err_id label fields j = Ok fields' →
  clear_fields fields' = clear_fields fields.
Proof.
  intros (items & k & it & Hitems & Hk & Hit & ->)%enrich_item_Ok.
  destruct (dict_set_present_lookup fields label
              (<[k := add_issue err_id it]> items) items Hitems)
    as (n & Hn & ->).
  unfold clear_fields. rewrite list_fmap_insert. apply list_insert_id.
  rewrite list_lookup_fmap, Hn. simpl.
  rewrite list_fmap_insert, clear_item_add_issue.
  rewrite list_insert_id; [done|]. by rewrite list_lookup_fmap, Hit.
Qed.

Lemma clear_row_enrich_row row err err_id row' :
  enrich_row row err err_id = Ok row' → clear_row row' = clear_row row.
Proof.
  intros Hrow. unfold clear_row.
  rewrite (enrich_row_row_idx _ _ _ _ Hrow). f_equal.
  revert Hrow.
  apply (enrich_row_fields_invariant
           (λ f, clear_fields f = clear_fields (fields row))); [|done].
  intros label f j f' Hf Hitem.
  by rewrite (clear_fields_enrich_item _ _ _ _ _ Hitem).
Qed.

Lemma clear_row_enrich_rows d err err_id d' :
  enrich_rows d err err_id = Ok d' → clear_row <$> d' = clear_row <$> d.
Proof.
  intros Hrows.
  apply (enrich_rows_pointwise (λ row row', clear_row row' = clear_row row))
    in Hrows.
  - induction Hrows as [|row row' d d' Hrow _ IH]; [done|].
    by rewrite !fmap_cons, Hrow, IH.
  - done.
  - intros row0 row row' H Hrow.
    by rewrite (clear_row_enrich_row _ _ _ _ Hrow).
Qed.

Lemma clear_row_model_rows data : clear_row <$> model_rows data = model_rows data.
Proof.
  unfold model_rows, Py.enumerate. generalize 0%Z.
  induction data as [|row data IH]; intros start; [done|].
  cbn [Py.enumerate_from]. rewrite !fmap_cons, IH. f_equal.
  apply clear_row_no_issue; [done|apply model_row_default_no_issue].
Qed.

Lemma clear_row_run fl choice draws data report out_data out_errors :
  map_errors_to_data fl choice draws data report
  = Some (Ok (out_data, out_errors)) →
  clear_row <$> out_data = model_rows data.
Proof.
  intros Hrun.
  apply (map_errors_data_invariant fl choice
           (λ _ d, clear_row <$> d = model_rows data) _ _ _ _ _ Hrun).
  - intros first j err d d' _ _ Hd Hrows.
    by rewrite (clear_row_enrich_rows _ _ _ _ Hrows).
  - apply clear_row_model_rows.
Qed.

(** X5: a run that returns has changed nothing of the modelled table but
    the issues of the items and the flags of the rows.  With the issues
    taken off and the flags down, the rows are the rows as modelled at the
    start: as many of them, in the same order, each with its index, its
    fields, and the text and the identifier of every item. *)
Theorem enrichment_frame (fl : Q → Q) (choice : gset string → nat)
    (draws : list (Q * Q * Q)) (data : list Row) (report : list ErrorObject.t)
    (out_data : list RowModel) (out_errors : Py.dict ErrorInfo.t) :
  map_errors_to_data fl choice draws data report
  = Some (Ok (out_data, out_errors)) →
  clear_row <$> out_data = model_rows data
  ∧ length out_data = length data.
Proof.
  intros Hrun. pose proof (clear_row_run _ _ _ _ _ _ _ Hrun) as Hclear.
  split; [done|].
  by rewrite <-(length_fmap clear_row), Hclear, model_rows_length.
Qed.

Lemma enrichment_frame_witness :
  map_errors_to_data Sample.fl Sample.choice Sample.draws Sample.data Sample.report
  = Some (Ok (Sample.out_data, Sample.out_errors))
  ∧ clear_row <$> Sample.out_data = model_rows Sample.data
  ∧ length Sample.out_data = 3.
Proof.
  split; [exact sample_run|].
  exact (enrichment_frame Sample.fl Sample.choice Sample.draws Sample.data
           Sample.report Sample.out_data Sample.out_errors sample_run).
Defined.

(** ** What the enrichment of a row does, coordinate by coordinate *)

Section Flatten.
Context {S A B : Type}.

Lemma for_each_fmap (body : S → B → Py.result S) (f : A → B) s l :
  Py.for_each body s (f <$> l) = Py.for_each (λ s x, body s (f x)) s l.
Proof.
  revert s. induction l as [|x l IH]; intros s; [done|].
  rewrite fmap_cons. simpl. destruct (body s (f x)); simpl; auto.
Qed.

Lemma for_each_bind (body : S → B → Py.result S) (f : A → list B) s l :
  Py.for_each body s (l ≫= f)
  = Py.for_each (λ s x, Py.for_each body s (f x)) s l.
Proof.
  revert s. induction l as [|x l IH]; intros s; [done|].
  rewrite bind_cons, for_each_app. simpl.
  destruct (Py.for_each body s (f x)); simpl; auto.
Qed.

Lemma for_each_ext (body1 body2 : S → A → Py.result S) s l :
  (∀ s x, body1 s x = body2 s x) →
  Py.for_each body1 s l = Py.for_each body2 s l.
Proof.
  intros Hext. revert s. induction l as [|x l IH]; intros s; [done|].
  simpl. rewrite Hext. destruct (body2 s x); simpl; auto.
Qed.

(** A loop all of whose steps succeed from every state that keeps
    an invariant succeeds. *)
Lemma for_each_progress (P : S → Prop) (body : S → A → Py.result S) s l :
  (∀ s x, x ∈ l → P s → ∃ s', body s x = Ok s' ∧ P s') →
  P s → ∃ s', Py.for_each body s l = Ok s' ∧ P s'.
Proof.
  revert s. induction l as [|x l IH]; intros s Hstep Hs; simpl; [eauto|].
  destruct (Hstep s x) as (s1 & -> & Hs1); [by left|done|]. simpl.
  apply IH; [|done]. intros s2 y Hy. apply Hstep. by right.
Qed.

End Flatten.

(** The three loops of [enrich_row] are one loop over the coordinates. *)
Lemma enrich_row_targets err_id fields err :
  Py.for_each (enrich_table_entry err_id) fields
    (ErrorObject.table (ErrorObject.position err))
  = Py.for_each (λ f t, enrich_item err_id t.1 f t.2) fields (targets err).
Proof.
  unfold targets. rewrite for_each_bind. apply for_each_ext.
  intros f [key field_info]. simpl.
  rewrite for_each_bind. apply for_each_ext.
  intros f1 [label items_indexes]. simpl.
  by rewrite for_each_fmap.
Qed.

Lemma elem_of_targets err label j :
  (label, j) ∈ targets err ↔
  ∃ key field_info items_indexes,
    (key, field_info) ∈ ErrorObject.table (ErrorObject.position err)
    ∧ (label, items_indexes) ∈ field_info
    ∧ j ∈ default [0%Z] items_indexes.
Proof.
  unfold targets. rewrite list_elem_of_bind. split.
  - intros ([key field_info] & Hin & Hentry). simpl in Hin.
    apply list_elem_of_bind in Hin as ([label' items_indexes] & Hin & Hfield).
    simpl in Hin. apply list_elem_of_fmap in Hin as (j' & [= -> ->] & Hj).
    by exists key, field_info, items_indexes.
  - intros (key & field_info & items_indexes & Hentry & Hfield & Hj).
    exists (key, field_info). split; [|done]. simpl.
    apply list_elem_of_bind. exists (label, items_indexes). split; [|done].
    simpl. apply list_elem_of_fmap. by exists j.
Qed.

Lemma targeted_targets err label size k :
  targeted err label size k ↔
  Exists (λ t, t.1 = label ∧ Py.position size t.2 = Some k) (targets err).
Proof.
  rewrite Exists_exists. split.
  - intros (key & field_info & items_indexes & j & Hentry & Hfield & Hj & Hk).
    exists (label, j). split; [|done]. apply elem_of_targets.
    by exists key, field_info, items_indexes.
  - intros ([l j] & Hin & Hl & Hk). simpl in *. subst l.
    apply elem_of_targets in Hin
      as (key & field_info & items_indexes & Hentry & Hfield & Hj).
    by exists key, field_info, items_indexes, j.
Qed.

Lemma targeted_dec err label size k :
  targeted err label size k ∨ ¬ targeted err label size k.
Proof.
  rewrite targeted_targets.
  destruct (decide (Exists (λ t : string * Z,
              t.1 = label ∧ Py.position size t.2 = Some k) (targets err)));
    auto.
Qed.

Lemma row_fits_targets row err :
  row_fits row err ↔
  ∀ t, t ∈ targets err →
       ∃ size, field_size (fields row) t.1 = Some size
               ∧ is_Some (Py.position size t.2).
Proof.
  split.
  - intros Hfits [label j]
      (key & field_info & items_indexes & Hentry & Hfield & Hj)%elem_of_targets.
    by eapply Hfits.
  - intros Hfits key field_info label items_indexes j Hentry Hfield Hj.
    apply (Hfits (label, j)), elem_of_targets.
    by exists key, field_info, items_indexes.
Qed.

(** The loop over the coordinates, item by item: an item that a
    coordinate names receives the identifier, any other is left as it
    is. *)
Lemma enrich_targets_effect err_id ts f f' label items :
  Py.for_each (λ f t, enrich_item err_id t.1 f t.2) f ts = Ok f' →
  Py.dict_get f label = Some items →
  ∃ items',
    Py.dict_get f' label = Some items'
    ∧ length items' = length items
    ∧ ∀ k it, items !! k = Some it →
        ∃ it', items' !! k = Some it'
          ∧ (Exists (λ t, t.1 = label
                          ∧ Py.position (length items) t.2 = Some k) ts →
             it' = add_issue err_id it)
          ∧ (¬ Exists (λ t, t.1 = label
                            ∧ Py.position (length items) t.2 = Some k) ts →
             it' = it).
Proof.
  revert f items. induction ts as [|[l j] ts IH]; intros f items; simpl.
  - intros [= <-] Hitems. exists items. split_and!; [done..|].
    intros k it Hit. exists it. split_and!; [done| |done].
    by intros ?%Exists_nil.
  - destruct (enrich_item err_id l f j) as [f1|] eqn:Hstep; simpl; [|done].
    apply enrich_item_Ok in Hstep as (items0 & k0 & it0 & Hitems0 & Hk0 & Hit0 & ->).
    intros Hloop Hitems.
    destruct (decide (l = label)) as [->|Hne].
    + assert (items0 = items) as -> by congruence.
      destruct (IH _ (<[k0 := add_issue err_id it0]> items) Hloop)
        as (items' & Hitems' & Hlen & Heach); [apply dict_get_set_eq|].
      rewrite length_insert in Hlen, Heach.
      exists items'. split_and!; [done..|].
      intros k it Hit. destruct (decide (k = k0)) as [->|Hk].
      * assert (it0 = it) as -> by congruence.
        destruct (Heach k0 (add_issue err_id it)) as (it' & Hit' & Hyes & Hno).
        { apply list_lookup_insert_eq. by eapply lookup_lt_Some. }
        exists it'. split_and!; [done| |].
        -- intros _.
           destruct (decide (Exists (λ t : string * Z,
                       t.1 = label
                       ∧ Py.position (length items) t.2 = Some k0) ts))
             as [Hts|Hts].
           ++ rewrite (Hyes Hts). apply add_issue_idempotent.
           ++ by apply Hno.
        -- intros Hnot. destruct Hnot. by left.
      * destruct (Heach k it) as (it' & Hit' & Hyes & Hno).
        { by rewrite list_lookup_insert_ne. }
        exists it'. split_and!; [done| |].
        -- intros [[_ Hhit]|Hts]%Exists_cons; [simpl in Hhit; congruence|auto].
        -- intros Hnot. apply Hno. intros Hts. apply Hnot. by right.
    + destruct (IH _ items Hloop) as (items' & Hitems' & Hlen & Heach).
      { by rewrite dict_get_set_ne. }
      exists items'. split_and!; [done..|].
      intros k it Hit.
      destruct (Heach k it Hit) as (it' & Hit' & Hyes & Hno).
      exists it'. split_and!; [done| |].
      * intros [[Hl _]|Hts]%Exists_cons; [done|auto].
      * intros Hnot. apply Hno. intros Hts. apply Hnot. by right.
Qed.

Lemma enrich_row_items row err err_id row' label items :
  enrich_row row err err_id = Ok row' →
  Py.dict_get (fields row) label = Some items →
  ∃ items',
    Py.dict_get (fields row') label = Some items'
    ∧ length items' = length items
    ∧ ∀ k it, items !! k = Some it →
        ∃ it', items' !! k = Some it'
          ∧ (targeted err label (length items) k → it' = add_issue err_id it)
          ∧ (¬ targeted err label (length items) k → it' = it).
Proof.
  intros (fields' & Hloop & ->)%enrich_row_Ok Hitems. simpl.
  rewrite enrich_row_targets in Hloop.
  destruct (enrich_targets_effect _ _ _ _ _ _ Hloop Hitems)
    as (items' & Hitems' & Hlen & Heach).
  exists items'. split_and!; [done..|].
  intros k it Hit. destruct (Heach k it Hit) as (it' & Hit' & Hyes & Hno).
  exists it'. rewrite targeted_targets. done.
Qed.

(** X6: what [enrich_row] does to a row, when it returns.  The flag is
    set, the index and the fields are kept, and in every field an item
    receives the identifier of the error exactly when a coordinate of the
    error names it: a coordinate under whatever row key of the error, the
    key of another row included.  An item that no coordinate names is left
    as it is, and no item is added or removed. *)
Theorem enrich_row_effect (row : RowModel) (err : ErrorObject.t)
    (err_id : string) (row' : RowModel) :
  enrich_row row err err_id = Ok row' →
  contains_issue row' = true
  ∧ row_idx row' = row_idx row
  ∧ Py.keys (fields row') = Py.keys (fields row)
  ∧ ∀ label items,
      Py.dict_get (fields row) label = Some items →
      ∃ items',
        Py.dict_get (fields row') label = Some items'
        ∧ length items' = length items
        ∧ ∀ k it, items !! k = Some it →
            ∃ it', items' !! k = Some it'
              ∧ (targeted err label (length items) k →
                 it' = add_issue err_id it)
              ∧ (¬ targeted err label (length items) k → it' = it).
Proof.
  intros Hrow. split_and!.
  - by eapply enrich_row_contains_issue.
  - by eapply enrich_row_row_idx.
  - by eapply enrich_row_keys.
  - intros label items. by apply enrich_row_items.
Qed.

Lemma enrich_row_effect_witness :
  enrich_row (model_row_default Sample.article 0) Sample.duplicate_id "meta-0"
  = Ok Sample.enriched_article
  ∧ targeted Sample.duplicate_id "id" 2 1
  ∧ ∃ items' it',
      Py.dict_get (fields Sample.enriched_article) "id" = Some items'
      ∧ items' !! 1 = Some it'
      ∧ it' = add_issue "meta-0" (value_item 0 "id" 1 "issn:1234-5678").
Proof.
  assert (enrich_row (model_row_default Sample.article 0) Sample.duplicate_id
            "meta-0" = Ok Sample.enriched_article) as Hrow
    by (vm_compute; reflexivity).
  assert (targeted Sample.duplicate_id "id" 2 1) as Htargeted.
  { exists "1", [("id", Some [1%Z])], (Some [1%Z]), 1%Z.
    split_and!; [|by left|by left|reflexivity].
    right. left. }
  split; [exact Hrow|]. split; [exact Htargeted|].
  destruct (enrich_row_effect _ _ _ _ Hrow) as (_ & _ & _ & Hfields).
  destruct (Hfields "id"
              [value_item 0 "id" 0 "doi:10.1/a";
               value_item 0 "id" 1 "issn:1234-5678"])
    as (items' & Hitems' & _ & Heach); [vm_compute; reflexivity|].
  destruct (Heach 1 (value_item 0 "id" 1 "issn:1234-5678") eq_refl)
    as (it' & Hit' & Hyes & _).
  exists items', it'. split; [exact Hitems'|]. split; [exact Hit'|].
  apply Hyes. exact Htargeted.
Defined.

(** ** Enriching a row twice, and the rows an error names *)

Lemma dict_set_id {V} (d : Py.dict V) k v :
  Py.dict_get d k = Some v → Py.dict_set d k v = d.
Proof.
  intros Hget. destruct (dict_set_present_lookup d k v v Hget) as (n & Hn & ->).
  by apply list_insert_id.
Qed.

Lemma dict_get_is_Some {V} (d : Py.dict V) k :
  k ∈ Py.keys d → is_Some (Py.dict_get d k).
Proof.
  intros Hin. destruct (Py.dict_get d k) eqn:E; [eauto|].
  by apply dict_get_None_keys in E.
Qed.

Lemma elem_of_add_issue x err_id it :
  x ∈ issues (add_issue err_id it) ↔ x = err_id ∨ x ∈ issues it.
Proof.
  unfold add_issue. case_bool_decide as Hin; simpl.
  - split; [auto|]. by intros [->|?].
  - rewrite elem_of_app, list_elem_of_singleton. tauto.
Qed.

(** Attaching an identifier to an item that has it changes nothing. *)
Lemma enrich_item_noop err_id label f j items k it :
  Py.dict_get f label = Some items →
  Py.position (length items) j = Some k →
  items !! k = Some it →
  err_id ∈ issues it →
  enrich_item err_id label f j = Ok f.
Proof.
  intros Hitems Hk Hit Hin. apply enrich_item_Ok.
  exists items, k, it. split_and!; [done..|].
  rewrite add_issue_present by done.
  rewrite list_insert_id by done. by rewrite dict_set_id.
Qed.

Lemma for_each_noop {S A} (body : S → A → Py.result S) s l :
  (∀ x, x ∈ l → body s x = Ok s) → Py.for_each body s l = Ok s.
Proof.
  induction l as [|x l IH]; intros Hstep; simpl; [done|].
  rewrite Hstep by by left. simpl. apply IH. intros y Hy. apply Hstep. by right.
Qed.

Lemma enrich_row_fits row err err_id row' :
  enrich_row row err err_id = Ok row' → row_fits row err.
Proof.
  intros Hrow key field_info label items_indexes j Hentry Hfield Hj.
  by eapply enrich_row_in_bounds.
Qed.

Lemma enrich_row_twice row err err_id row' :
  enrich_row row err err_id = Ok row' →
  enrich_row row' err err_id = Ok row'.
Proof.
  intros Hrow. apply enrich_row_Ok. exists (fields row'). split.
  - rewrite enrich_row_targets. apply for_each_noop.
    intros [label j] Hin. simpl.
    pose proof Hin as (key & field_info & items_indexes & Hentry & Hfield & Hj)
      %elem_of_targets.
    destruct (enrich_row_in_bounds _ _ _ _ _ _ _ _ _ Hrow Hentry Hfield Hj)
      as (size & Hsize & [k Hk]).
    unfold field_size in Hsize.
    destruct (Py.dict_get (fields row) label) as [items|] eqn:Hitems;
      [|done].
    injection Hsize as <-.
    destruct (enrich_row_items _ _ _ _ _ _ Hrow Hitems)
      as (items' & Hitems' & Hlen & Heach).
    destruct (lookup_lt_is_Some_2 items k) as [it Hit];
      [by eapply position_lt|].
    destruct (Heach k it Hit) as (it' & Hit' & Hyes & _).
    eapply enrich_item_noop; [done| |done|].
    + by rewrite Hlen.
    + rewrite Hyes; [apply add_issue_elem|].
      by exists key, field_info, items_indexes, j.
  - destruct row' as [flag idx f]. simpl.
    apply enrich_row_contains_issue in Hrow. simpl in Hrow. by subst flag.
Qed.

Lemma row_named_one n err i :
  row_named n [err] i ↔
  ∃ key r,
    key ∈ Py.keys (ErrorObject.table (ErrorObject.position err))
    ∧ Py.int key = Ok r ∧ Py.position n r = Some i.
Proof.
  unfold row_named. split.
  - intros (err' & key & r & ->%list_elem_of_singleton & H). eauto.
  - intros (key & r & H). exists err, key, r. split; [by left|done].
Qed.

Lemma named_in_dec n (keys : list string) i :
  (∃ key r, key ∈ keys ∧ Py.int key = Ok r ∧ Py.position n r = Some i)
  ∨ ¬ (∃ key r, key ∈ keys ∧ Py.int key = Ok r ∧ Py.position n r = Some i).
Proof.
  induction keys as [|key keys [IH|IH]].
  - right. by intros (key & r & ?%elem_of_nil & _).
  - left. destruct IH as (key' & r & Hin & H). exists key', r.
    split; [by right|done].
  - destruct (Py.int key) as [r|e] eqn:Hint.
    + destruct (decide (Py.position n r = Some i)) as [Hpos|Hpos].
      * left. exists key, r. split; [by left|done].
      * right. intros (key' & r' & [->|Hin]%elem_of_cons & Hint' & Hpos').
        -- congruence.
        -- apply IH. eauto.
    + right. intros (key' & r' & [->|Hin]%elem_of_cons & Hint' & Hpos').
      * congruence.
      * apply IH. eauto.
Qed.

Lemma row_named_dec n err i : row_named n [err] i ∨ ¬ row_named n [err] i.
Proof. rewrite row_named_one. apply named_in_dec. Qed.

(** The loop over the row indexes, row by row: a row whose position one
    of the indexes names is enriched, as if once; any other is left as it
    is. *)
Lemma enrich_loop_effect err err_id rows (d d' : list RowModel) i row :
  Py.for_each
    (λ out_data i,
       row ← Py.getitem out_data i;
       row' ← enrich_row row err err_id;
       Py.setitem out_data i row')
    d rows = Ok d' →
  d !! i = Some row →
  ∃ row',
    d' !! i = Some row'
    ∧ (Exists (λ r, Py.position (length d) r = Some i) rows →
       enrich_row row err err_id = Ok row')
    ∧ (¬ Exists (λ r, Py.position (length d) r = Some i) rows → row' = row).
Proof.
  revert d row. induction rows as [|r rows IH]; intros d row.
  - simpl. intros [= <-] Hrow. exists row. split_and!; [done| |done].
    by intros ?%Exists_nil.
  - match goal with |- context [Py.for_each ?f] => set (step := f) in * end.
    simpl. destruct (step d r) as [d1|] eqn:E; simpl; [|done].
    apply enrich_rows_step_Ok in E as (k & row0 & row1 & Hk & Hrow0 & Hrow1 & ->).
    intros Hloop Hrow.
    destruct (decide (i = k)) as [->|Hik].
    + assert (row0 = row) as -> by congruence.
      destruct (IH _ row1 Hloop) as (row' & Hrow' & Hyes & Hno).
      { apply list_lookup_insert_eq. by eapply lookup_lt_Some. }
      rewrite length_insert in Hyes, Hno.
      exists row'. split_and!; [done| |].
      * intros _.
        destruct (decide (Exists (λ r, Py.position (length d) r = Some k) rows))
          as [Hrows|Hrows].
        -- specialize (Hyes Hrows).
           rewrite (enrich_row_twice _ _ _ _ Hrow1) in Hyes. congruence.
        -- by rewrite (Hno Hrows).
      * intros Hnot. destruct Hnot. by left.
    + destruct (IH _ row Hloop) as (row' & Hrow' & Hyes & Hno).
      { by rewrite list_lookup_insert_ne. }
      rewrite length_insert in Hyes, Hno.
      exists row'. split_and!; [done| |].
      * intros [Hhit|Hrows]%Exists_cons; [congruence|auto].
      * intros Hnot. apply Hno. intros Hrows. apply Hnot. by right.
Qed.

Lemma enrich_rows_rows d err err_id d' i row :
  enrich_rows d err err_id = Ok d' →
  d !! i = Some row →
  ∃ row',
    d' !! i = Some row'
    ∧ (row_named (length d) [err] i → enrich_row row err err_id = Ok row')
    ∧ (¬ row_named (length d) [err] i → row' = row).
Proof.
  intros (rows & Hrows%comprehension_Ok & Hloop)%enrich_rows_Ok Hrow.
  assert (Exists (λ r, Py.position (length d) r = Some i) rows
          ↔ row_named (length d) [err] i) as Hiff.
  { rewrite row_named_one, Exists_exists. split.
    - intros (r & [m Hm]%list_elem_of_lookup & Hpos).
      destruct (Forall2_lookup_r _ _ _ _ _ Hrows Hm) as (key & Hkey & Hint).
      exists key, r. split; [by eapply list_elem_of_lookup_2|done].
    - intros (key & r & [m Hm]%list_elem_of_lookup & Hint & Hpos).
      destruct (Forall2_lookup_l _ _ _ _ _ Hrows Hm) as (r' & Hr' & Hint').
      assert (r' = r) as -> by congruence.
      exists r. split; [by eapply list_elem_of_lookup_2|done]. }
  destruct (enrich_loop_effect _ _ _ _ _ _ _ Hloop Hrow)
    as (row' & Hrow' & Hyes & Hno).
  exists row'. rewrite <-Hiff. done.
Qed.

(** X7: enriching a row a second time with the same error changes
    nothing.  So a row that two row keys of one error name, as ["1"] and
    ["01"], or ["-1"] and the key of the last row, is enriched as if
    once. *)
Theorem enrich_row_idempotent (row : RowModel) (err : ErrorObject.t)
    (err_id : string) (row' : RowModel) :
  enrich_row row err err_id = Ok row' →
  enrich_row row' err err_id = Ok row'.
Proof. apply enrich_row_twice. Qed.

Lemma enrich_row_idempotent_witness :
  enrich_row (model_row_default Sample.article 0) Sample.duplicate_id "meta-0"
  = Ok Sample.enriched_article
  ∧ enrich_row Sample.enriched_article Sample.duplicate_id "meta-0"
    = Ok Sample.enriched_article.
Proof.
  assert (enrich_row (model_row_default Sample.article 0) Sample.duplicate_id
            "meta-0" = Ok Sample.enriched_article) as Hrow
    by (vm_compute; reflexivity).
  split; [exact Hrow|].
  exact (enrich_row_idempotent _ _ _ _ Hrow).
Defined.

(** X8: the block of [map_errors_to_data] that enriches the data, when it
    returns.  The table keeps its length; the row at a position that a row
    key of the error names, as an index from the start or from the end, is
    replaced by its enrichment; every other row is left as it is. *)
Theorem enrich_rows_effect (d : list RowModel) (err : ErrorObject.t)
    (err_id : string) (d' : list RowModel) :
  enrich_rows d err err_id = Ok d' →
  length d' = length d
  ∧ ∀ i row, d !! i = Some row →
      ∃ row',
        d' !! i = Some row'
        ∧ (row_named (length d) [err] i → enrich_row row err err_id = Ok row')
        ∧ (¬ row_named (length d) [err] i → row' = row).
Proof.
  intros Hrows. split.
  - pose proof Hrows as (rows & _ & Hloop)%enrich_rows_Ok.
    by apply enrich_loop_positions in Hloop as [Hlen _].
  - intros i row. by apply enrich_rows_rows.
Qed.

Lemma enrich_rows_effect_witness :
  ∃ d',
    enrich_rows (model_rows Sample.data) Sample.missing_venue "meta-1" = Ok d'
    ∧ ¬ row_named 3 [Sample.missing_venue] 0
    ∧ d' !! 0 = Some (model_row_default Sample.article 0).
Proof.
  destruct (enrich_rows (model_rows Sample.data) Sample.missing_venue "meta-1")
    as [d'|] eqn:Hrows; [|vm_compute in Hrows; discriminate].
  assert (¬ row_named 3 [Sample.missing_venue] 0) as Hnot.
  { intros (key & r & Hkey & Hint & Hpos)%row_named_one.
    apply list_elem_of_singleton in Hkey as ->.
    vm_compute in Hint. injection Hint as <-. vm_compute in Hpos. discriminate. }
  exists d'. split; [reflexivity|]. split; [exact Hnot|].
  destruct (enrich_rows_effect _ _ _ _ Hrows) as [_ Hrow].
  destruct (Hrow 0 (model_row_default Sample.article 0) eq_refl)
    as (row' & Hrow' & _ & Hno).
  rewrite Hrow'. f_equal. apply Hno. exact Hnot.
Defined.

(** ** The issues of an item after a run *)

Lemma issues_follow_coordinates_init table_type data report :
  issues_follow_coordinates table_type (length data) report 0 (model_rows data).
Proof.
  split; [apply model_rows_length|].
  intros i row label items k it m Hrow Hitems Hit.
  assert (issues it = []) as ->.
  { pose proof (model_rows_no_issue data) as Hall.
    rewrite Forall_forall in Hall.
    specialize (Hall row (list_elem_of_lookup_2 _ _ _ Hrow)).
    rewrite Forall_forall in Hall. apply Hall.
    unfold all_items. apply list_elem_of_In, in_concat. exists items.
    split; apply list_elem_of_In.
    - apply list_elem_of_fmap. exists (label, items). split; [done|].
      by apply dict_get_Some_elem.
    - by eapply list_elem_of_lookup_2. }
  split; [by intros ?%elem_of_nil|]. lia.
Qed.

Lemma issues_follow_coordinates_step table_type n report (j : nat) err d d' :
  report !! j = Some err →
  issues_follow_coordinates table_type n report (Z.of_nat j) d →
  enrich_rows d err (error_id table_type (Z.of_nat j)) = Ok d' →
  issues_follow_coordinates table_type n report (Z.of_nat j + 1) d'.
Proof.
  intros Herr [Hlen Hd] Hrows.
  pose proof Hrows as (rows & _ & Hloop)%enrich_rows_Ok.
  apply enrich_loop_positions in Hloop as [Hlen' _].
  split; [congruence|].
  intros i row' label items' k it' m Hrow' Hitems' Hit'.
  destruct (lookup_lt_is_Some_2 d i) as [row Hrow].
  { rewrite <-Hlen'. by eapply lookup_lt_Some. }
  destruct (enrich_rows_rows _ _ _ _ _ _ Hrows Hrow) as (row1 & Hrow1 & Hyes & Hno).
  assert (row1 = row') as -> by congruence.
  rewrite Hlen in Hyes, Hno.
  assert (∀ a b : Z, error_id table_type a = error_id table_type b ↔ a = b)
    as Hinj.
  { intros a b. split; [apply (inj _)|by intros ->]. }
  destruct (row_named_dec n err i) as [Hnamed|Hnamed].
  - specialize (Hyes Hnamed).
    destruct (dict_get_is_Some (fields row) label) as [items Hitems].
    { rewrite <-(enrich_row_keys _ _ _ _ Hyes). by eapply dict_get_Some_keys. }
    destruct (enrich_row_items _ _ _ _ _ _ Hyes Hitems)
      as (items1 & Hitems1 & Hsize & Heach).
    assert (items1 = items') as -> by congruence.
    destruct (lookup_lt_is_Some_2 items k) as [it Hit].
    { rewrite <-Hsize. by eapply lookup_lt_Some. }
    destruct (Heach k it Hit) as (it1 & Hit1 & Htarget & Hother).
    assert (it1 = it') as -> by congruence.
    specialize (Hd i row label items k it m Hrow Hitems Hit).
    rewrite Hsize.
    destruct (targeted_dec err label (length items) k) as [Htargeted|Htargeted].
    + rewrite (Htarget Htargeted), elem_of_add_issue, Hinj, Hd. split.
      * intros [Hm|[Hm Hex]]; [|split; [lia|done]].
        apply Nat2Z.inj in Hm as ->. split; [lia|]. by exists err.
      * intros [Hm (err' & Herr' & Hnamed' & Htargeted')].
        destruct (decide (m = j)) as [->|Hmj]; [by left|].
        right. split; [lia|]. by exists err'.
    + rewrite (Hother Htargeted), Hd. split.
      * intros [Hm Hex]. split; [lia|done].
      * intros [Hm (err' & Herr' & Hnamed' & Htargeted')].
        destruct (decide (m = j)) as [->|Hmj]; [congruence|].
        split; [lia|]. by exists err'.
  - rewrite (Hno Hnamed) in *.
    rewrite (Hd i row label items' k it' m Hrow Hitems' Hit'). split.
    + intros [Hm Hex]. split; [lia|done].
    + intros [Hm (err' & Herr' & Hnamed' & Htargeted')].
      destruct (decide (m = j)) as [->|Hmj]; [congruence|].
      split; [lia|]. by exists err'.
Qed.

(** X9: the issues of every item after a run that returns.  An item
    carries the identifier of the error at position [m] of the report
    exactly when a row key of that error names the row of the item and a
    coordinate of that error names the item, whether or not the coordinate
    stands under a key of that row. *)
Theorem issues_follow_report (fl : Q → Q) (choice : gset string → nat)
    (draws : list (Q * Q * Q)) (data : list Row) (report : list ErrorObject.t)
    (out_data : list RowModel) (out_errors : Py.dict ErrorInfo.t)
    (first : Row) :
  map_errors_to_data fl choice draws data report
  = Some (Ok (out_data, out_errors)) →
  data !! 0 = Some first →
  ∀ i row label items k it m,
    out_data !! i = Some row →
    Py.dict_get (fields row) label = Some items →
    items !! k = Some it →
    (error_id (table_type_of first) (Z.of_nat m) ∈ issues it ↔
     ∃ err,
       report !! m = Some err
       ∧ row_named (length data) [err] i
       ∧ targeted err label (length items) k).
Proof.
  intros Hrun Hfirst i row label items k it m Hrow Hitems Hit.
  assert (issues_follow_coordinates (table_type_of first) (length data) report
            (Z.of_nat (length report)) out_data) as [_ Hall].
  { apply (map_errors_data_invariant fl choice
             (issues_follow_coordinates (table_type_of first) (length data)
                report) _ _ _ _ _ Hrun).
    - intros first' j err d d' Hfirst' Herr Hd Hrows.
      assert (first' = first) as -> by congruence.
      by eapply issues_follow_coordinates_step.
    - apply issues_follow_coordinates_init. }
  rewrite (Hall i row label items k it m Hrow Hitems Hit). split.
  - by intros [_ Hex].
  - intros (err & Herr & H). split; [|by exists err].
    apply lookup_lt_Some in Herr. lia.
Qed.

Lemma issues_follow_report_witness :
  map_errors_to_data Sample.fl Sample.choice Sample.draws Sample.data Sample.report
  = Some (Ok (Sample.out_data, Sample.out_errors))
  ∧ "meta-0" ∈ ["meta-0"]
  ∧ ∃ err,
      Sample.report !! 0 = Some err
      ∧ row_named 3 [err] 0
      ∧ targeted err "id" 2 1.
Proof.
  split; [exact sample_run|]. split; [by left|].
  assert (∃ row items it,
            Sample.out_data !! 0 = Some row
            ∧ Py.dict_get (fields row) "id" = Some items
            ∧ items !! 1 = Some it
            ∧ length items = 2
            ∧ "meta-0" ∈ issues it)
    as (row & items & it & Hrow & Hitems & Hit & Hlen & Hin).
  { eexists _, _, _.
    split; [vm_compute; reflexivity|].
    split; [vm_compute; reflexivity|].
    split; [vm_compute; reflexivity|].
    split; [reflexivity|by left]. }
  pose proof (proj1 (issues_follow_report Sample.fl Sample.choice Sample.draws
                       Sample.data Sample.report Sample.out_data
                       Sample.out_errors Sample.article sample_run eq_refl
                       0 row "id" items 1 it 0 Hrow Hitems Hit) Hin) as Hex.
  rewrite Hlen in Hex. exact Hex.
Defined.

(** ** When the mapping returns *)

Lemma enrich_row_Some row err err_id :
  row_fits row err → ∃ row', enrich_row row err err_id = Ok row'.
Proof.
  intros Hfits. rewrite row_fits_targets in Hfits.
  set (P := λ f : Py.dict (list ItemRecord),
              ∀ l, field_size f l = field_size (fields row) l).
  destruct (for_each_progress P (λ f t, enrich_item err_id t.1 f t.2)
              (fields row) (targets err)) as (fields' & Hloop & _).
  - intros f [label j] Hin Hf. simpl.
    destruct (Hfits _ Hin) as (size & Hsize & [k Hk]). simpl in *.
    rewrite <-Hf in Hsize. unfold field_size in Hsize.
    destruct (Py.dict_get f label) as [items|] eqn:Hitems; [|done].
    injection Hsize as <-.
    destruct (lookup_lt_is_Some_2 items k) as [it Hit];
      [by eapply position_lt|].
    eexists. split.
    + apply enrich_item_Ok. by exists items, k, it.
    + intros l. rewrite <-Hf. eapply enrich_item_sizes.
      apply enrich_item_Ok. by exists items, k, it.
  - done.
  - eexists. apply enrich_row_Ok. exists fields'.
    by rewrite enrich_row_targets.
Qed.

Lemma same_sizes_sym row0 row : same_sizes row0 row → same_sizes row row0.
Proof. intros H l. by rewrite H. Qed.

Lemma row_fits_same_sizes row0 row err :
  same_sizes row0 row → row_fits row0 err → row_fits row err.
Proof.
  intros Hsame Hfits key field_info label items_indexes j Hentry Hfield Hj.
  rewrite Hsame. by eapply Hfits.
Qed.

Lemma mappable_same_sizes d0 d err :
  Forall2 same_sizes d0 d → mappable d0 err → mappable d err.
Proof.
  intros Hd Hmap key Hkey.
  destruct (Hmap key Hkey) as (r & i & row0 & Hint & Hpos & Hrow0 & Hfits).
  destruct (Forall2_lookup_l _ _ _ _ _ Hd Hrow0) as (row & Hrow & Hsame).
  exists r, i, row. rewrite <-(Forall2_length _ _ _ Hd).
  split_and!; [done..|]. by eapply row_fits_same_sizes.
Qed.

Lemma Forall2_same_sizes_sym d0 d :
  Forall2 same_sizes d0 d → Forall2 same_sizes d d0.
Proof.
  intros H. apply Forall2_flip. eapply Forall2_impl; [done|].
  intros ??. apply same_sizes_sym.
Qed.

Lemma enrich_rows_same_sizes d err err_id d' :
  enrich_rows d err err_id = Ok d' → Forall2 same_sizes d d'.
Proof.
  apply enrich_rows_pointwise; [apply same_sizes_refl|].
  intros row0 row row'. apply same_sizes_enrich_row.
Qed.

Lemma comprehension_Some {A B} (f : A → Py.result B) l :
  (∀ x, x ∈ l → ∃ y, f x = Ok y) → ∃ ys, Py.comprehension f l = Ok ys.
Proof.
  induction l as [|x l IH]; intros Hall; simpl; [eauto|].
  destruct (Hall x) as [y ->]; [by left|]. simpl.
  destruct IH as [ys ->]; [|simpl; eauto].
  intros x' Hx'. apply Hall. by right.
Qed.

(** The block returns on an error that can be mapped ... *)
Lemma enrich_rows_Some d err err_id :
  mappable d err → ∃ d', enrich_rows d err err_id = Ok d'.
Proof.
  intros Hmap.
  destruct (comprehension_Some Py.int
              (Py.keys (ErrorObject.table (ErrorObject.position err))))
    as [rows Hrows].
  { intros key Hkey. destruct (Hmap key Hkey) as (r & _ & _ & Hint & _). eauto. }
  pose proof Hrows as Hall%comprehension_Ok.
  destruct (for_each_progress (Forall2 same_sizes d)
              (λ out_data i,
                 row ← Py.getitem out_data i;
                 row' ← enrich_row row err err_id;
                 Py.setitem out_data i row') d rows) as (d' & Hloop & _).
  - intros d1 r [m Hm]%list_elem_of_lookup Hd1.
    destruct (Forall2_lookup_r _ _ _ _ _ Hall Hm) as (key & Hkey & Hint).
    destruct (Hmap key) as (r' & i & row & Hint' & Hpos & Hrow & Hfits);
      [by eapply list_elem_of_lookup_2|].
    assert (r' = r) as -> by congruence.
    destruct (Forall2_lookup_l _ _ _ _ _ Hd1 Hrow) as (row1 & Hrow1 & Hsame).
    destruct (enrich_row_Some row1 err err_id) as [row1' Hrow1'];
      [by eapply row_fits_same_sizes|].
    assert ((row ← Py.getitem d1 r;
             row' ← enrich_row row err err_id;
             Py.setitem d1 r row') = Ok (<[i := row1']> d1)) as Hstep.
    { apply enrich_rows_step_Ok. exists i, row1, row1'.
      by rewrite <-(Forall2_length _ _ _ Hd1). }
    eexists. split; [exact Hstep|].
    by eapply enrich_rows_step_same_sizes.
  - apply Forall_Forall2_diag, Forall_true, same_sizes_refl.
  - exists d'. apply enrich_rows_Ok. by exists rows.
Qed.

(** ... and only on such an error. *)
Lemma enrich_rows_mappable d err err_id d' :
  enrich_rows d err err_id = Ok d' → mappable d err.
Proof.
  intros (rows & Hrows%comprehension_Ok & Hloop)%enrich_rows_Ok key
    [m Hm]%list_elem_of_lookup.
  destruct (Forall2_lookup_l _ _ _ _ _ Hrows Hm) as (r & Hr & Hint).
  pose proof (λ H1 H2,
    for_each_Ok_steps (Forall2 same_sizes d) _ d rows d' r H1 H2 Hloop
      (list_elem_of_lookup_2 _ _ _ Hr)) as Hsteps.
  destruct Hsteps as (d0 & d1 & Hd0 & Hstep).
  { intros s x s' _. apply enrich_rows_step_same_sizes. }
  { apply Forall_Forall2_diag, Forall_true, same_sizes_refl. }
  apply enrich_rows_step_Ok in Hstep as (k & row0 & row1 & Hk & Hrow0 & Henrich & _).
  destruct (Forall2_lookup_r _ _ _ _ _ Hd0 Hrow0) as (row & Hrow & Hsame).
  exists r, k, row. rewrite (Forall2_length _ _ _ Hd0).
  split_and!; [done..|].
  eapply row_fits_same_sizes; [by apply same_sizes_sym|].
  by eapply enrich_row_fits.
Qed.

Lemma map_loop_Some choice table_type l k d errs colors :
  (∀ err, err ∈ l → mappable d err) →
  length l ≤ size colors →
  ∃ st', Py.for_each (map_error choice table_type) (d, errs, colors)
           (Py.enumerate_from k l) = Ok st'.
Proof.
  revert k d errs colors. induction l as [|err l IH];
    intros k d errs colors Hmap Hsize; simpl; [eauto|].
  unfold map_error at 1.
  destruct (set_pop_nonempty choice colors) as (c & colors' & Hpop);
    [simpl in Hsize; lia|].
  rewrite Hpop. simpl.
  destruct (enrich_rows_Some d err (error_id table_type k)) as [d' Hrows];
    [apply Hmap; by left|].
  rewrite Hrows. simpl. apply IH.
  - intros err' Hin. eapply mappable_same_sizes.
    + by eapply enrich_rows_same_sizes.
    + apply Hmap. by right.
  - apply set_pop_elem in Hpop as (_ & _ & _ & Hsz). simpl in Hsize. lia.
Qed.

(** X10: when the mapping returns.  Once colour allocation has come to an
    end, [map_errors_to_data] returns a result if and only if the table
    has a row and, for every error of the report, every row key reads as
    an index of a row of the table and every coordinate of the error,
    under whatever row key it stands, fits every row the error names: the
    row has the field, and the item index is within the items of the field.
    In every other case an exception is raised. *)
Theorem mapping_returns_iff (fl : Q → Q) (choice : gset string → nat)
    (draws : list (Q * Q * Q)) (data : list Row) (report : list ErrorObject.t)
    (colors : gset string) :
  generate_error_colors fl draws (length report) = Some colors →
  ((∃ out_data out_errors,
      map_errors_to_data fl choice draws data report
      = Some (Ok (out_data, out_errors)))
   ↔ data ≠ [] ∧ ∀ err, err ∈ report → mappable (model_rows data) err)
  ∧ ((∃ e, map_errors_to_data fl choice draws data report = Some (Raise e))
     ↔ ¬ (data ≠ [] ∧ ∀ err, err ∈ report → mappable (model_rows data) err)).
Proof.
  intros Hcolors.
  assert ((∃ out_data out_errors,
             map_errors_to_data fl choice draws data report
             = Some (Ok (out_data, out_errors)))
          ↔ data ≠ [] ∧ ∀ err, err ∈ report → mappable (model_rows data) err)
    as Hiff.
  { split.
    - intros (out_data & out_errors & Hrun). split.
      + apply map_errors_to_data_Ok in Hrun as (first & _ & _ & Hfirst & _).
        by intros ->.
      + assert (Forall2 same_sizes (model_rows data) out_data
                ∧ ∀ err, err ∈ take (Z.to_nat (Z.of_nat (length report))) report →
                         mappable (model_rows data) err) as [_ Hall].
        { apply (map_errors_data_invariant fl choice
                   (λ j d, Forall2 same_sizes (model_rows data) d
                           ∧ ∀ err, err ∈ take (Z.to_nat j) report →
                                    mappable (model_rows data) err)
                   _ _ _ _ _ Hrun).
          - intros first j err d d' _ Herr [Hd Hsofar] Hrows. split.
            + eapply Forall2_trans; [apply same_sizes_trans|done|].
              by eapply enrich_rows_same_sizes.
            + replace (Z.to_nat (Z.of_nat j + 1)) with (S j) by lia.
              rewrite Nat2Z.id in Hsofar. rewrite (take_S_r _ _ _ Herr).
              intros err' [Hin| ->%list_elem_of_singleton]%elem_of_app;
                [by apply Hsofar|].
              eapply mappable_same_sizes;
                [by apply Forall2_same_sizes_sym|].
              by eapply enrich_rows_mappable.
          - split; [apply Forall_Forall2_diag, Forall_true, same_sizes_refl|].
            by intros ? ?%elem_of_nil. }
        by rewrite Nat2Z.id, firstn_all in Hall.
    - intros [Hdata Hmap].
      destruct data as [|first rest] eqn:Edata; [done|]. rewrite <-Edata in *.
      assert (data !! 0 = Some first) as Hfirst by by rewrite Edata.
      destruct (map_loop_Some choice (table_type_of first) report 0
                  (model_rows data) [] colors Hmap) as [[[d errs] colors'] Hloop].
      { destruct (generate_error_colors_loop_Some fl draws (length report) ∅ colors)
          as [Hsize _]; [rewrite size_empty; lia|done|lia]. }
      exists d, errs. apply map_errors_to_data_Ok.
      by exists first, colors, colors'. }
  split; [done|]. rewrite <-Hiff. split.
  - intros [e He] (out_data & out_errors & Hrun). congruence.
  - intros Hnot.
    destruct (map_errors_to_data fl choice draws data report)
      as [[[out_data out_errors]|e]|] eqn:Hrun.
    + destruct Hnot. eauto.
    + eauto.
    + apply map_errors_to_data_None in Hrun. congruence.
Qed.

Lemma mapping_returns_iff_witness :
  ∃ colors colors1,
    generate_error_colors Sample.fl Sample.draws (length Sample.report)
    = Some colors
    ∧ (Sample.data ≠ []
       ∧ ∀ err, err ∈ Sample.report → mappable (model_rows Sample.data) err)
    ∧ generate_error_colors Sample.fl Sample.draws (length [Sample.crossed])
      = Some colors1
    ∧ ¬ mappable (model_rows [Sample.article; Sample.note]) Sample.crossed
    ∧ ∃ e, map_errors_to_data Sample.fl Sample.choice Sample.draws
             [Sample.article; Sample.note] [Sample.crossed]
           = Some (Raise e).
Proof.
  destruct (generate_error_colors Sample.fl Sample.draws (length Sample.report))
    as [colors|] eqn:Hcolors; [|vm_compute in Hcolors; discriminate].
  destruct (generate_error_colors Sample.fl Sample.draws (length [Sample.crossed]))
    as [colors1|] eqn:Hcolors1; [|vm_compute in Hcolors1; discriminate].
  exists colors, colors1. split; [reflexivity|]. split.
  { apply (proj1 (proj1 (mapping_returns_iff Sample.fl Sample.choice
                           Sample.draws Sample.data Sample.report colors
                           Hcolors))).
    exists Sample.out_data, Sample.out_errors. exact sample_run. }
  split; [reflexivity|].
  assert (¬ mappable (model_rows [Sample.article; Sample.note]) Sample.crossed)
    as Hnot.
  { intros Hmap.
    destruct (Hmap "1") as (r & i & row & Hint & Hpos & Hrow & Hfits).
    { right. left. }
    vm_compute in Hint. injection Hint as <-.
    vm_compute in Hpos. injection Hpos as <-.
    vm_compute in Hrow. injection Hrow as <-.
    destruct (Hfits "0" [("id", Some [1%Z])] "id" (Some [1%Z]) 1%Z)
      as (size & Hsize & [k Hk]); [left|left|left|].
    vm_compute in Hsize. injection Hsize as <-.
    vm_compute in Hk. discriminate. }
  split; [exact Hnot|].
  apply (proj2 (proj2 (mapping_returns_iff Sample.fl Sample.choice
                         Sample.draws [Sample.article; Sample.note]
                         [Sample.crossed] colors1 Hcolors1))).
  intros [_ Hall]. apply Hnot, Hall. left.
Defined.

(** ** The catalogue, entry by entry *)

Lemma map_loop_entries choice table_type report
    (st st' : list RowModel * Py.dict ErrorInfo.t * gset string) :
  st.1.2 = [] →
  Py.for_each (map_error choice table_type) st (Py.enumerate report) = Ok st' →
  length st'.1.2 = length report
  ∧ ∀ m err, report !! m = Some err →
      ∃ c, st'.1.2 !! m
           = Some (error_id table_type (Z.of_nat m),
                   {| ErrorInfo.message := ErrorObject.message err;
                      ErrorInfo.label := ErrorObject.error_label err;
                      ErrorInfo.level := ErrorObject.error_type err;
                      ErrorInfo.color := c |}).
Proof.
  intros Hst Hloop.
  apply (map_loop_invariant choice
           (λ n s,
              (0 ≤ n)%Z
              ∧ Py.keys s.1.2 = report_ids table_type n
              ∧ ∀ m err, (Z.of_nat m < n)%Z → report !! m = Some err →
                  ∃ c, s.1.2 !! m
                       = Some (error_id table_type (Z.of_nat m),
                               {| ErrorInfo.message := ErrorObject.message err;
                                  ErrorInfo.label := ErrorObject.error_label err;
                                  ErrorInfo.level := ErrorObject.error_type err;
                                  ErrorInfo.color := c |})))
    in Hloop.
  - destruct Hloop as (_ & Hkeys & Hall). rewrite Z.add_0_l in *. split.
    + rewrite <-(length_fmap fst). unfold Py.keys in Hkeys. rewrite Hkeys.
      unfold report_ids. rewrite length_fmap, length_seqZ. lia.
    + intros m err Herr. apply Hall; [|done].
      apply lookup_lt_Some in Herr. lia.
  - intros j err [[d errs] colors] [[d' errs'] colors'] Herr
      (_ & Hkeys & Hall) (c & _ & -> & _)%map_error_Ok.
    rewrite !Z.add_0_l in *. simpl in *.
    assert (error_id table_type (Z.of_nat j) ∉ Py.keys errs) as Hfresh.
    { rewrite Hkeys. unfold report_ids.
      intros (i & Hi%(inj _) & Hin%elem_of_seqZ)%list_elem_of_fmap. lia. }
    assert (length errs = j) as Hlen.
    { rewrite <-(length_fmap fst). unfold Py.keys in Hkeys. rewrite Hkeys.
      unfold report_ids. rewrite length_fmap, length_seqZ. lia. }
    rewrite dict_set_fresh by done. split_and!.
    + lia.
    + unfold Py.keys in *. by rewrite fmap_app, Hkeys, report_ids_snoc.
    + intros m err' Hm Herr'. destruct (decide (m = j)) as [->|Hmj].
      * assert (err' = err) as -> by congruence. exists c.
        rewrite lookup_app_r by lia. by rewrite Hlen, Nat.sub_diag.
      * destruct (Hall m err') as [c' Hc']; [lia|done|].
        exists c'. rewrite lookup_app_l by lia. done.
  - rewrite Hst. split_and!; [done|done|]. intros m err Hm. lia.
Qed.

(** X11: the catalogue of a run that returns has one entry per error, in
    the order of the report: the entry at position [m] is keyed by the
    identifier of number [m] and carries the message, the label and the
    level of the error at position [m] of the report; [error_count], the
    number of entries, is the number of errors. *)
Theorem catalogue_follows_report (fl : Q → Q) (choice : gset string → nat)
    (draws : list (Q * Q * Q)) (data : list Row) (report : list ErrorObject.t)
    (out_data : list RowModel) (out_errors : Py.dict ErrorInfo.t)
    (first : Row) :
  map_errors_to_data fl choice draws data report
  = Some (Ok (out_data, out_errors)) →
  data !! 0 = Some first →
  length out_errors = length report
  ∧ ∀ m err, report !! m = Some err →
      ∃ c, out_errors !! m
           = Some (error_id (table_type_of first) (Z.of_nat m),
                   {| ErrorInfo.message := ErrorObject.message err;
                      ErrorInfo.label := ErrorObject.error_label err;
                      ErrorInfo.level := ErrorObject.error_type err;
                      ErrorInfo.color := c |}).
Proof.
  intros (first' & colors & colors' & Hfirst' & _ & Hloop)%map_errors_to_data_Ok
    Hfirst.
  assert (first' = first) as -> by congruence.
  by apply map_loop_entries in Hloop.
Qed.

Lemma catalogue_follows_report_witness :
  map_errors_to_data Sample.fl Sample.choice Sample.draws Sample.data Sample.report
  = Some (Ok (Sample.out_data, Sample.out_errors))
  ∧ length Sample.out_errors = 3
  ∧ ∃ c, Sample.out_errors !! 1
         = Some ("meta-1",
                 {| ErrorInfo.message := "The value is not valid.";
                    ErrorInfo.label := "required_fields";
                    ErrorInfo.level := "error";
                    ErrorInfo.color := c |}).
Proof.
  split; [exact sample_run|].
  destruct (catalogue_follows_report Sample.fl Sample.choice Sample.draws
              Sample.data Sample.report Sample.out_data Sample.out_errors
              Sample.article sample_run eq_refl) as [Hlen Hall].
  split; [exact Hlen|].
  exact (Hall 1 Sample.missing_venue eq_refl).
Defined.

(** ** When colour allocation comes to an end *)

Lemma generate_error_colors_loop_more fl draws more n colors colors' :
  generate_error_colors_loop fl draws n colors = Some colors' →
  generate_error_colors_loop fl (draws ++ more) n colors = Some colors'.
Proof.
  revert colors. induction draws as [|[[h s] v] draws IH]; intros colors; simpl.
  - case_decide; [done|]. intros [= <-]. destruct more as [|[[??]?] ?]; simpl;
      by rewrite decide_False by done.
  - case_decide; [apply IH|done].
Qed.

(** X12: colour allocation returns exactly when the draws hold as many
    distinct colours as there are errors; on draws that hold fewer, the
    loop goes on for as long as there are draws.  For no error it returns
    the empty set without a draw, and draws past the return are not
    looked at. *)
Theorem color_allocation_ends_iff (fl : Q → Q) (draws : list (Q * Q * Q))
    (n : nat) :
  (is_Some (generate_error_colors fl draws n)
   ↔ n ≤ size (list_to_set (C := gset string) (drawn_colors fl draws)))
  ∧ (generate_error_colors fl draws n = None
     ↔ size (list_to_set (C := gset string) (drawn_colors fl draws)) < n)
  ∧ generate_error_colors fl draws 0 = Some ∅
  ∧ (∀ colors more,
       generate_error_colors fl draws n = Some colors →
       generate_error_colors fl (draws ++ more) n = Some colors).
Proof.
  assert (is_Some (generate_error_colors fl draws n)
          ↔ n ≤ size (list_to_set (C := gset string) (drawn_colors fl draws)))
    as Hiff.
  { split.
    - intros [colors Hcolors].
      destruct (generate_error_colors_loop_Some fl draws n ∅ colors)
        as [Hsize Hfrom]; [rewrite size_empty; lia|done|].
      rewrite <-Hsize. apply subseteq_size. intros c Hc.
      destruct (Hfrom c Hc) as [Hin|Hin]; [by apply elem_of_empty in Hin|].
      by apply elem_of_list_to_set.
    - intros Hn. unfold generate_error_colors.
      apply (generate_error_colors_loop_ends fl draws n ∅).
      by rewrite (left_id_L ∅ (∪)). }
  split_and!.
  - done.
  - rewrite <-Nat.nle_gt, <-Hiff, eq_None_not_Some. done.
  - unfold generate_error_colors. by destruct draws as [|[[??]?] ?].
  - intros colors more. unfold generate_error_colors.
    apply (generate_error_colors_loop_more fl draws more n ∅ colors).
Qed.

Lemma color_allocation_ends_iff_witness :
  3 ≤ size (list_to_set (C := gset string) (drawn_colors Sample.fl Sample.draws))
  ∧ is_Some (generate_error_colors Sample.fl Sample.draws 3)
  ∧ size (list_to_set (C := gset string) (drawn_colors Sample.fl Sample.draws)) < 4
  ∧ generate_error_colors Sample.fl Sample.draws 4 = None.
Proof.
  assert (3 ≤ size (list_to_set (C := gset string)
                      (drawn_colors Sample.fl Sample.draws))) as Henough
    by (vm_compute; lia).
  assert (size (list_to_set (C := gset string)
                  (drawn_colors Sample.fl Sample.draws)) < 4) as Hshort
    by (vm_compute; lia).
  split; [exact Henough|]. split.
  - exact (proj2 (proj1 (color_allocation_ends_iff Sample.fl Sample.draws 3))
             Henough).
  - split; [exact Hshort|].
    exact (proj2 (proj1 (proj2 (color_allocation_ends_iff Sample.fl
                                  Sample.draws 4))) Hshort).
Defined.

(** ** Rows that no error names *)

Lemma enrich_rows_no_key d err err_id :
  ErrorObject.table (ErrorObject.position err) = [] →
  enrich_rows d err err_id = Ok d.
Proof. intros Htable. unfold enrich_rows. by rewrite Htable. Qed.

Lemma flags_follow_names_run fl choice draws data report out_data out_errors :
  map_errors_to_data fl choice draws data report
  = Some (Ok (out_data, out_errors)) →
  flags_follow_names (length data) report (Z.of_nat (length report)) out_data.
Proof.
  intros Hrun.
  apply (map_errors_data_invariant fl choice
           (flags_follow_names (length data) report) _ _ _ _ _ Hrun).
  - intros first j err d d' _. apply flags_follow_names_step.
  - apply flags_follow_names_init.
Qed.

(** X13: rows that no error names.  On an empty report and a table that
    has a row, [map_errors_to_data] returns the rows as modelled and an
    empty catalogue, whatever the random source.  After any run that
    returns, a row that no row key of the report names is the row as
    modelled at the start; so a report whose errors have no position in the
    table leaves every row as modelled. *)
Theorem rows_not_named (fl : Q → Q) (choice : gset string → nat)
    (draws : list (Q * Q * Q)) :
  (∀ first rest,
     map_errors_to_data fl choice draws (first :: rest) []
     = Some (Ok (model_rows (first :: rest), [])))
  ∧ (∀ data report out_data out_errors,
       map_errors_to_data fl choice draws data report
       = Some (Ok (out_data, out_errors)) →
       (∀ i, ¬ row_named (length data) report i →
             out_data !! i = model_rows data !! i)
       ∧ ((∀ err, err ∈ report →
                  ErrorObject.table (ErrorObject.position err) = []) →
          out_data = model_rows data)).
Proof.
  split.
  - intros first rest. unfold map_errors_to_data, generate_error_colors.
    by destruct draws as [|[[??]?] ?].
  - intros data report out_data out_errors Hrun.
    pose proof (clear_row_run _ _ _ _ _ _ _ Hrun) as Hclear.
    pose proof (flags_follow_names_run _ _ _ _ _ _ _ Hrun) as [Hlen Hflags].
    assert (∀ i, ¬ row_named (length data) report i →
                 out_data !! i = model_rows data !! i) as Hkept.
    { intros i Hnot. rewrite <-Hclear, list_lookup_fmap.
      destruct (out_data !! i) as [row|] eqn:Hrow; [|done]. simpl. f_equal.
      destruct (Hflags i row Hrow) as [Hiff Hclean].
      rewrite Nat2Z.id, firstn_all in Hiff.
      destruct (contains_issue row) eqn:Hflag; [by destruct Hnot; apply Hiff|].
      symmetry. by apply clear_row_no_issue; [|apply Hclean]. }
    split; [done|].
    intros Hempty. apply list_eq. intros i. apply Hkept.
    intros (err & key & r & Herr & Hkey & _).
    rewrite (Hempty err Herr) in Hkey. by apply elem_of_nil in Hkey.
Qed.

Lemma rows_not_named_witness :
  ∃ out_data out_errors,
    map_errors_to_data Sample.fl Sample.choice Sample.draws Sample.data
      [Sample.missing_venue]
    = Some (Ok (out_data, out_errors))
    ∧ ¬ row_named (length Sample.data) [Sample.missing_venue] 1
    ∧ out_data !! 1 = Some (model_row_default Sample.article 1).
Proof.
  destruct (map_errors_to_data Sample.fl Sample.choice Sample.draws Sample.data
              [Sample.missing_venue])
    as [[[out_data out_errors]|e]|] eqn:Hrun;
    [|vm_compute in Hrun; discriminate..].
  assert (¬ row_named (length Sample.data) [Sample.missing_venue] 1) as Hnot.
  { intros (key & r & Hkey & Hint & Hpos)%row_named_one.
    apply list_elem_of_singleton in Hkey as ->.
    vm_compute in Hint. injection Hint as <-. vm_compute in Hpos. discriminate. }
  exists out_data, out_errors. split; [reflexivity|]. split; [exact Hnot|].
  exact (proj1 (proj2 (rows_not_named Sample.fl Sample.choice Sample.draws)
                  _ _ _ _ Hrun) 1 Hnot).
Defined.

(** ** The page *)

Lemma keys_clear_fields (f : Py.dict (list ItemRecord)) :
  Py.keys (clear_fields f) = Py.keys f.
Proof.
  unfold Py.keys, clear_fields. rewrite <-list_fmap_compose.
  by apply list_fmap_ext.
Qed.

Lemma run_keys fl choice draws data report out_data out_errors row :
  map_errors_to_data fl choice draws data report
  = Some (Ok (out_data, out_errors)) →
  row ∈ out_data →
  ∃ r, r ∈ data ∧ Py.keys (fields row) = Py.keys (flat_serialise r).
Proof.
  intros Hrun Hrow.
  pose proof (clear_row_run _ _ _ _ _ _ _ Hrun) as Hclear.
  assert (clear_row row ∈ model_rows data) as Hin.
  { rewrite <-Hclear. apply list_elem_of_fmap. by exists row. }
  apply model_rows_keys in Hin as (r & Hr & Hkeys).
  exists r. split; [done|]. simpl in Hkeys.
  by rewrite keys_clear_fields in Hkeys.
Qed.

Lemma run_catalogue_keys fl choice draws data report out_data out_errors first :
  map_errors_to_data fl choice draws data report
  = Some (Ok (out_data, out_errors)) →
  data !! 0 = Some first →
  Py.keys out_errors
  = report_ids (table_type_of first) (Z.of_nat (length report)).
Proof.
  intros (first' & colors & colors' & Hfirst' & _ & Hloop)%map_errors_to_data_Ok
    Hfirst.
  assert (first' = first) as -> by congruence.
  by apply map_loop_keys in Hloop.
Qed.

(** X15: the page for a report with errors.  Whether the table is read as
    metadata or as citations is decided by the number of columns of the
    first row alone, more than four or not, whatever the columns are
    called: every row is parsed accordingly and gets the eleven fields of a
    metadata row or the four of a citations row, and the identifiers of the
    catalogue start with [meta] or [cits].  The page shows one row per row
    of the table and as many errors as the report has, and is handed the
    separators of [item_separators]. *)
Theorem make_gui_page (fl : Q → Q) (choice : gset string → nat)
    (draws : list (Q * Q * Q)) (report : list ErrorObject.t)
    (raw_data : list RawRow) (first : RawRow) (error_count : nat)
    (data : list RowModel) (errors : Py.dict ErrorInfo.t)
    (separators : Py.dict string) :
  make_gui fl choice draws report raw_data
  = Some (Ok (InvalidPage error_count data errors separators)) →
  raw_data !! 0 = Some first →
  report ≠ []
  ∧ error_count = length report
  ∧ separators = item_separators
  ∧ length data = length raw_data
  ∧ Py.keys errors
    = report_ids (if wide first then "meta" else "cits")
        (Z.of_nat (length report))
  ∧ ∀ row, row ∈ data →
      Py.keys (fields row)
      = if wide first then metadata_labels else citations_labels.
Proof.
  intros Hgui Hfirst. unfold make_gui in Hgui.
  destruct report as [|err report]; [done|].
  assert (Py.getitem raw_data 0 = Ok first) as Hget.
  { apply getitem_Ok. exists 0. split; [|done].
    apply (position_nonneg _ 0). by eapply lookup_lt_Some. }
  rewrite Hget in Hgui. fold (wide first) in Hgui.
  match type of Hgui with
  | context [map_errors_to_data _ _ _ (?p <$> _) _] => set (parser := p) in *
  end.
  destruct (map_errors_to_data fl choice draws (parser <$> raw_data)
              (err :: report)) as [[[d errs]|]|] eqn:Hrun; simpl in Hgui;
    [|done..].
  injection Hgui as <- <- <- <-.
  assert ((parser <$> raw_data) !! 0 = Some (parser first)) as Hfirst'
    by by rewrite list_lookup_fmap, Hfirst.
  pose proof (run_catalogue_keys _ _ _ _ _ _ _ _ Hrun Hfirst') as Hkeys.
  assert (table_type_of (parser first)
          = if wide first then "meta" else "cits") as Htype.
  { subst parser. by destruct (wide first). }
  rewrite Htype in Hkeys.
  split_and!.
  - done.
  - rewrite <-(length_fmap fst). unfold Py.keys in Hkeys. rewrite Hkeys.
    unfold report_ids. rewrite length_fmap, length_seqZ. lia.
  - done.
  - pose proof (clear_row_run _ _ _ _ _ _ _ Hrun) as Hclear.
    by rewrite <-(length_fmap clear_row), Hclear, model_rows_length,
      length_fmap.
  - done.
  - intros row Hrow.
    destruct (run_keys _ _ _ _ _ _ _ _ Hrun Hrow) as (r & Hr & ->).
    apply list_elem_of_fmap in Hr as (raw_row & -> & _).
    subst parser. by destruct (wide first).
Qed.

Lemma make_gui_page_witness :
  ∃ data errors,
    make_gui Sample.fl Sample.choice Sample.draws [Sample.missing_citing_id]
      Sample.narrow_table
    = Some (Ok (InvalidPage 1 data errors item_separators))
    ∧ wide [ ("id", "doi:10.1/a"); ("title", "A title"); ("venue", "A venue") ]
      = false
    ∧ Py.keys errors = ["cits-0"]
    ∧ ∀ row, row ∈ data → Py.keys (fields row) = citations_labels.
Proof.
  assert (∃ data errors,
            make_gui Sample.fl Sample.choice Sample.draws
              [Sample.missing_citing_id] Sample.narrow_table
            = Some (Ok (InvalidPage 1 data errors item_separators)))
    as (data & errors & Hgui).
  { eexists _, _. vm_compute. reflexivity. }
  exists data, errors. split; [exact Hgui|]. split; [reflexivity|].
  destruct (make_gui_page Sample.fl Sample.choice Sample.draws
              [Sample.missing_citing_id] Sample.narrow_table
              [ ("id", "doi:10.1/a"); ("title", "A title"); ("venue", "A venue") ]
              1 data errors item_separators Hgui eq_refl)
    as (_ & _ & _ & _ & Hkeys & Hfields).
  split; [exact Hkeys|exact Hfields].
Defined.

(** A table of three columns is read as a citations table; an error on a
    field of the metadata tables then fails on the field, which the rows
    do not have. *)
Example narrow_table_is_citations :
  make_gui Sample.fl Sample.choice Sample.draws [Sample.id_syntax]
    Sample.narrow_table
  = Some (Raise (KeyError "id")).
Proof. vm_compute. reflexivity. Qed.

(** ** A closing bracket in an identifier *)

(** X16: the closing bracket is not always left out of an identifier.
    Where an identifier is followed by a closing bracket and that bracket
    by whitespace or by another closing bracket, the match that starts at
    the identifier takes the bracket in, since the expression takes the
    longest text without whitespace that stands before whitespace or a
    closing bracket.  So in ["Smith [orcid:1] [viaf:2]"] the first
    identifier collected is ["orcid:1]"]. *)
Theorem bracket_kept_in_identifier (schemes : list string)
    (raw pre id post : string) (d : ascii) :
  Forall (λ scheme, all_nonspace scheme = true) schemes →
  identifier_of schemes id →
  raw = pre +:+ id +:+ String "]" (String d post) →
  Re.delimiter d = true →
  ∃ o m,
    (o, m) ∈ Re.finditer schemes raw
    ∧ m ∈ parse_ids schemes raw
    ∧ o ≤ String.length pre < o + String.length m
    ∧ (o = String.length pre → ∃ rest, m = id +:+ String "]" rest).
Proof.
  intros Hschemes Hid Hraw Hd.
  assert (identifier_of schemes (id +:+ String "]" EmptyString)) as Hid'.
  { destruct Hid as (scheme & body & Hscheme & -> & Hbody & Hns).
    exists scheme, (body +:+ String "]" EmptyString). split_and!.
    - done.
    - by rewrite !string_app_assoc.
    - by destruct body.
    - rewrite all_nonspace_app, Hns. done. }
  assert (raw = pre +:+ (id +:+ String "]" EmptyString) +:+ String d post)
    as Hraw'.
  { by rewrite Hraw, string_app_assoc. }
  destruct (scan_cover schemes raw 0 0 pre _ d post Hraw')
    as (o & m & Hin & Ho); [lia|done..|].
  exists o, m. split_and!; [done| |lia..|].
  { apply list_elem_of_fmap. by exists (o, m). }
  intros ->.
  pose proof (scan_longest schemes raw 0 0 _ m pre _ d post Hschemes Hin Hraw'
                eq_refl Hid' Hd) as Hlen.
  apply scan_sound in Hin as (_ & pre' & d' & post' & Hraw'' & Hpre' & _).
  rewrite Hraw' in Hraw''.
  apply string_app_inj_length in Hraw'' as [<- Heq]; [|lia].
  destruct (decide (String.length (id +:+ String "]" EmptyString)
                    = String.length m)) as [Hsame|Hdiff].
  - apply string_app_inj_length in Heq as [<- _]; [|done].
    by exists EmptyString.
  - apply string_app_split in Heq as (u & _ & -> & _); [|lia].
    exists u. by rewrite string_app_assoc.
Qed.

Lemma bracket_kept_in_identifier_witness :
  Forall (λ scheme, all_nonspace scheme = true) agent_schemes
  ∧ identifier_of agent_schemes "orcid:1"
  ∧ parse_ids agent_schemes "Smith [orcid:1] [viaf:2]" = ["orcid:1]"; "viaf:2"]
  ∧ ∃ o m,
      (o, m) ∈ Re.finditer agent_schemes "Smith [orcid:1] [viaf:2]"
      ∧ m ∈ parse_ids agent_schemes "Smith [orcid:1] [viaf:2]"
      ∧ o ≤ 7 < o + String.length m
      ∧ (o = 7 → ∃ rest, m = "orcid:1" +:+ String "]" rest).
Proof.
  assert (Forall (λ scheme, all_nonspace scheme = true) agent_schemes)
    as Hschemes by repeat constructor.
  assert (identifier_of agent_schemes "orcid:1") as Hid.
  { exists "orcid", "1". split_and!; [|reflexivity|discriminate|reflexivity].
    unfold agent_schemes. right. left. }
  split; [exact Hschemes|]. split; [exact Hid|]. split; [reflexivity|].
  exact (bracket_kept_in_identifier agent_schemes "Smith [orcid:1] [viaf:2]"
           "Smith [" "orcid:1" "[viaf:2]" " " Hschemes Hid eq_refl eq_refl).
Defined.

(** ** Item identifiers across the table *)

Lemma pretty_N_char_no_dash y : (y < 10)%N → pretty_N_char y ≠ "-"%char.
Proof.
  intros Hy.
  assert (y = 0 ∨ y = 1 ∨ y = 2 ∨ y = 3 ∨ y = 4 ∨ y = 5 ∨ y = 6 ∨ y = 7
          ∨ y = 8 ∨ y = 9)%N as Hcases by lia.
  repeat (destruct Hcases as [->|Hcases]; [done|]). by subst y.
Qed.

Lemma no_dash_pretty_N_go x s : no_dash s → no_dash (pretty_N_go x s).
Proof.
  revert s. induction (N.lt_wf_0 x) as [x _ IH]. intros s Hs.
  destruct (decide (x = 0)%N) as [->|Hx]; [by rewrite pretty_N_go_0|].
  rewrite pretty_N_go_step by lia. apply IH.
  - apply N.div_lt; lia.
  - simpl. rewrite bool_decide_eq_false_2; [done|].
    apply pretty_N_char_no_dash, N.mod_lt. lia.
Qed.

(** The text of an index that is not negative has no dash. *)
Lemma no_dash_str (n : nat) : no_dash (Py.str (Z.of_nat n)).
Proof.
  unfold Py.str. destruct (Z.of_nat n) as [|p|p] eqn:E; [done| |lia].
  unfold pretty, pretty_Z, pretty, pretty_positive, pretty, pretty_N.
  rewrite decide_False by done. by apply no_dash_pretty_N_go.
Qed.

Lemma model_row_default_ids row row_idx x :
  x ∈ item_id <$> all_items (model_row_default row row_idx) →
  ∃ rest, x = Py.str row_idx +:+ "-" +:+ rest.
Proof.
  unfold all_items. rewrite fields_model_row_default.
  intros (it & -> & Hit)%list_elem_of_fmap.
  apply list_elem_of_In, in_concat in Hit as (items & Hitems & Hit).
  apply list_elem_of_In in Hitems, Hit.
  apply list_elem_of_fmap in Hitems as ([l items'] & -> & Hentry).
  apply list_elem_of_fmap in Hentry as ([l' vs] & [= -> ->] & _).
  assert (item_id it ∈ item_id <$> field_value_model row_idx l' vs) as Hin
    by by apply list_elem_of_fmap_2.
  rewrite field_value_model_ids in Hin.
  apply list_elem_of_fmap in Hin as (s & -> & _). eauto.
Qed.

Lemma model_rows_from_ids (start : nat) data x :
  x ∈ table_item_ids
        ((λ '(idx, row), model_row_default row idx)
           <$> Py.enumerate_from (Z.of_nat start) data) →
  ∃ n rest, start ≤ n ∧ x = Py.str (Z.of_nat n) +:+ "-" +:+ rest.
Proof.
  unfold table_item_ids. revert start.
  induction data as [|row data IH]; intros start; simpl.
  - by intros ?%elem_of_nil.
  - rewrite fmap_app. intros [Hx|Hx]%elem_of_app.
    + apply model_row_default_ids in Hx as [rest ->]. exists start, rest.
      split; [lia|done].
    + replace (Z.of_nat start + 1)%Z with (Z.of_nat (S start)) in Hx by lia.
      destruct (IH _ Hx) as (n & rest & Hn & ->). exists n, rest.
      split; [lia|done].
Qed.

Lemma model_rows_from_NoDup (start : nat) data :
  NoDup (table_item_ids
           ((λ '(idx, row), model_row_default row idx)
              <$> Py.enumerate_from (Z.of_nat start) data)).
Proof.
  revert start. induction data as [|row data IH]; intros start.
  - constructor.
  - unfold table_item_ids. simpl. rewrite fmap_app. apply NoDup_app.
    split_and!.
    + unfold all_items. rewrite fields_model_row_default.
      apply flat_ids_NoDup.
      * apply flat_serialise_keys_NoDup.
      * apply flat_serialise_keys_no_dash.
    + intros x Hx Hx'.
      apply model_row_default_ids in Hx as [rest ->].
      replace (Z.of_nat start + 1)%Z with (Z.of_nat (S start)) in Hx' by lia.
      apply model_rows_from_ids in Hx' as (n & rest' & Hn & Heq).
      apply label_suffix_inj in Heq as [Heq _]; [|apply no_dash_str..].
      apply (inj _), Nat2Z.inj in Heq. lia.
    + replace (Z.of_nat start + 1)%Z with (Z.of_nat (S start)) by lia.
      apply IH.
Qed.

Lemma item_ids_clear_row row :
  item_id <$> all_items (clear_row row) = item_id <$> all_items row.
Proof.
  unfold all_items, clear_row, clear_fields, Py.values. simpl.
  induction (fields row) as [|[l items] f IH]; [done|].
  rewrite !fmap_cons. simpl. rewrite !fmap_app, IH. f_equal.
  rewrite <-list_fmap_compose. by apply list_fmap_ext.
Qed.

Lemma table_item_ids_clear d :
  table_item_ids (clear_row <$> d) = table_item_ids d.
Proof.
  unfold table_item_ids. induction d as [|row d IH]; [done|].
  rewrite !fmap_cons. simpl. by rewrite !fmap_app, IH, item_ids_clear_row.
Qed.

(** X17: no two items of the table have the same identifier, whether in
    one row or in two, in the table as modelled and in the table a run
    returns. *)
Theorem item_ids_unique_in_table (data : list Row) :
  NoDup (table_item_ids (model_rows data))
  ∧ ∀ (fl : Q → Q) (choice : gset string → nat) (draws : list (Q * Q * Q))
      (report : list ErrorObject.t) (out_data : list RowModel)
      (out_errors : Py.dict ErrorInfo.t),
      map_errors_to_data fl choice draws data report
      = Some (Ok (out_data, out_errors)) →
      table_item_ids out_data = table_item_ids (model_rows data)
      ∧ NoDup (table_item_ids out_data).
Proof.
  assert (NoDup (table_item_ids (model_rows data))) as Hnd
    by apply (model_rows_from_NoDup 0).
  split; [done|].
  intros fl choice draws report out_data out_errors Hrun.
  assert (table_item_ids out_data = table_item_ids (model_rows data)) as Heq.
  { by rewrite <-(clear_row_run _ _ _ _ _ _ _ Hrun), table_item_ids_clear. }
  split; [done|]. by rewrite Heq.
Qed.

Lemma item_ids_unique_in_table_witness :
  map_errors_to_data Sample.fl Sample.choice Sample.draws Sample.data Sample.report
  = Some (Ok (Sample.out_data, Sample.out_errors))
  ∧ NoDup (table_item_ids Sample.out_data).
Proof.
  split; [exact sample_run|].
  exact (proj2 (proj2 (item_ids_unique_in_table Sample.data) Sample.fl
                  Sample.choice Sample.draws Sample.report Sample.out_data
                  Sample.out_errors sample_run)).
Defined.

(** ** Where an exception of the enrichment comes from *)

Lemma comprehension_first_Raise {A B} (f : A → Py.result B) l x e :
  x ∈ l → f x = Raise e →
  ∃ x' e', x' ∈ l ∧ f x' = Raise e' ∧ Py.comprehension f l = Raise e'.
Proof.
  induction l as [|a l IH]; [by intros ?%elem_of_nil|].
  intros Hx Hfx. simpl. destruct (f a) as [y|e1] eqn:Hfa.
  - apply elem_of_cons in Hx as [->|Hx]; [congruence|].
    destruct (IH Hx Hfx) as (x' & e' & Hx' & Hfx' & ->).
    exists x', e'. split; [by right|done].
  - exists a, e1. split; [by left|done].
Qed.

Lemma int_Raise s e : Py.int s = Raise e → e = ValueError s.
Proof.
  unfold Py.int. cbv zeta.
  destruct (match Py.strip_with _ s with EmptyString => _ | _ => _ end);
    [|by intros [= <-]].
  destruct (N.ltb _ _); [by intros [= <-]|done].
Qed.

Lemma enrich_row_Raise_cause row err err_id e :
  enrich_row row err err_id = Raise e →
  ∃ key field_info label items_indexes j,
    (key, field_info) ∈ ErrorObject.table (ErrorObject.position err)
    ∧ (label, items_indexes) ∈ field_info
    ∧ j ∈ default [0%Z] items_indexes
    ∧ ((e = KeyError label ∧ field_size (fields row) label = None)
       ∨ (e = IndexError
          ∧ ∃ size, field_size (fields row) label = Some size
                    ∧ Py.position size j = None)).
Proof.
  unfold enrich_row.
  destruct (Py.for_each _ _ _) as [f|e'] eqn:E; simpl; [done|]. intros [= <-].
  rewrite enrich_row_targets in E. revert E.
  apply (for_each_Raise_inv
           (λ f : Py.dict (list ItemRecord),
              ∀ l, field_size f l = field_size (fields row) l)
           (λ e, ∃ key field_info label items_indexes j,
              (key, field_info) ∈ ErrorObject.table (ErrorObject.position err)
              ∧ (label, items_indexes) ∈ field_info
              ∧ j ∈ default [0%Z] items_indexes
              ∧ ((e = KeyError label ∧ field_size (fields row) label = None)
                 ∨ (e = IndexError
                    ∧ ∃ size, field_size (fields row) label = Some size
                              ∧ Py.position size j = None)))).
  - intros f [label j] f' _ Hf Hitem l. simpl in Hitem.
    by rewrite (enrich_item_sizes _ _ _ _ _ _ Hitem).
  - intros f [label j] e1
      (key & field_info & items_indexes & Hentry & Hfield & Hj)%elem_of_targets
      Hf Hitem.
    exists key, field_info, label, items_indexes, j.
    split_and!; [done..|]. simpl in Hitem.
    apply enrich_item_Raise in Hitem
      as [[Hnone ->]|(items & Hitems & Hpos & ->)].
    + left. split; [done|]. rewrite <-Hf. unfold field_size. by rewrite Hnone.
    + right. split; [done|]. exists (length items). split; [|done].
      rewrite <-Hf. unfold field_size. by rewrite Hitems.
  - done.
Qed.

(** X18: where an exception of the enrichment comes from.  [enrich_row]
    raises exactly when some coordinate of the error, under whatever row
    key, does not fit the row, and what it raises is the [KeyError] of a
    field the row does not have or the [IndexError] of an item index
    outside the items of its field.  A row key that does not read as an
    integer makes the block raise the [ValueError] of such a key before any
    row is enriched; the block raises nothing but that [ValueError], an
    [IndexError], or the [KeyError] of a field that a row of the table
    does not have. *)
Theorem enrichment_exceptions :
  (∀ row err err_id e,
     enrich_row row err err_id = Raise e →
     ∃ key field_info label items_indexes j,
       (key, field_info) ∈ ErrorObject.table (ErrorObject.position err)
       ∧ (label, items_indexes) ∈ field_info
       ∧ j ∈ default [0%Z] items_indexes
       ∧ ((e = KeyError label ∧ field_size (fields row) label = None)
          ∨ (e = IndexError
             ∧ ∃ size, field_size (fields row) label = Some size
                       ∧ Py.position size j = None)))
  ∧ (∀ row err err_id,
       (∃ e, enrich_row row err err_id = Raise e) ↔ ¬ row_fits row err)
  ∧ (∀ d err err_id key e,
       key ∈ Py.keys (ErrorObject.table (ErrorObject.position err)) →
       Py.int key = Raise e →
       ∃ key',
         key' ∈ Py.keys (ErrorObject.table (ErrorObject.position err))
         ∧ enrich_rows d err err_id = Raise (ValueError key'))
  ∧ (∀ d err err_id e,
       enrich_rows d err err_id = Raise e →
       (∃ key,
          key ∈ Py.keys (ErrorObject.table (ErrorObject.position err))
          ∧ e = ValueError key)
       ∨ e = IndexError
       ∨ ∃ label row,
           e = KeyError label ∧ row ∈ d
           ∧ field_size (fields row) label = None).
Proof.
  split_and!.
  - apply enrich_row_Raise_cause.
  - intros row err err_id. split.
    + intros [e He] Hfits.
      destruct (enrich_row_Some row err err_id Hfits) as [row' Hrow'].
      congruence.
    + intros Hnot.
      destruct (enrich_row row err err_id) as [row'|e] eqn:Hrow; [|eauto].
      destruct Hnot. by eapply enrich_row_fits.
  - intros d err err_id key e Hkey Hint.
    destruct (comprehension_first_Raise Py.int _ key e Hkey Hint)
      as (key' & e' & Hkey' & Hint' & Hcomp).
    exists key'. split; [done|].
    unfold enrich_rows. rewrite Hcomp. simpl.
    by rewrite (int_Raise _ _ Hint').
  - intros d err err_id e. unfold enrich_rows.
    destruct (Py.comprehension _ _) as [rows|e'] eqn:E; simpl.
    + intros Hloop. right.
      revert Hloop.
      apply (for_each_Raise_inv (Forall2 same_sizes d)
               (λ e, e = IndexError
                     ∨ ∃ label row,
                         e = KeyError label ∧ row ∈ d
                         ∧ field_size (fields row) label = None)).
      * intros d1 i d2 _. apply enrich_rows_step_same_sizes.
      * intros d1 i e1 _ Hd1.
        destruct (Py.getitem d1 i) as [row1|e2] eqn:Hget; simpl.
        -- destruct (enrich_row row1 err err_id) as [row1'|e3] eqn:Hrow1; simpl.
           ++ unfold Py.setitem. destruct (Py.position _ _); [done|].
              intros [= <-]. by left.
           ++ intros [= <-].
              apply enrich_row_Raise_cause in Hrow1
                as (key & field_info & label & items_indexes & j & _ & _ & _
                    & [[-> Hnone]|[-> _]]); [|by left].
              right. apply getitem_Ok in Hget as (k & _ & Hk).
              destruct (Forall2_lookup_r _ _ _ _ _ Hd1 Hk) as (row & Hrow & Hsame).
              exists label, row. split_and!; [done| |].
              ** by eapply list_elem_of_lookup_2.
              ** by rewrite <-Hsame.
        -- intros [= <-]. left. by apply getitem_Raise in Hget as [_ ->].
      * apply Forall_Forall2_diag, Forall_true, same_sizes_refl.
    + intros [= <-]. left.
      apply comprehension_Raise in E as (key & Hkey & Hint).
      exists key. split; [done|]. by apply int_Raise.
Qed.

Lemma enrichment_exceptions_witness :
  enrich_row (model_row_default Sample.note 1) Sample.crossed "meta-0"
  = Raise IndexError
  ∧ ¬ row_fits (model_row_default Sample.note 1) Sample.crossed.
Proof.
  assert (enrich_row (model_row_default Sample.note 1) Sample.crossed "meta-0"
          = Raise IndexError) as Hrow by (vm_compute; reflexivity).
  split; [exact Hrow|].
  apply (proj1 (proj1 (proj2 enrichment_exceptions) _ Sample.crossed "meta-0")).
  exists IndexError. exact Hrow.
Defined.

(** ** The pieces of a split text *)

Lemma string_snoc_inv a b s c :
  s +:+ String c EmptyString = a +:+ b →
  b = EmptyString ∨ ∃ b0, b = b0 +:+ String c EmptyString ∧ s = a +:+ b0.
Proof.
  revert a. induction s as [|x s IH]; intros a.
  - rewrite app_empty. destruct a as [|y a].
    + rewrite app_empty. intros <-. right. by exists EmptyString.
    + rewrite app_String. intros [= <- Heq]. left.
      destruct a; [|done]. by rewrite app_empty in Heq.
  - rewrite app_String. destruct a as [|y a].
    + rewrite app_empty. intros <-. right. exists (String x s).
      by rewrite app_String.
    + rewrite app_String. intros [= <- Heq].
      destruct (IH a Heq) as [->|(b0 & -> & ->)]; [by left|].
      right. by exists b0.
Qed.

(** No piece holds the separator: while a piece is read, the separator
    has matched at none of the places passed over. *)
Lemma split_go_pieces sep skip cur s :
  sep ≠ EmptyString →
  (∀ a b, String.rev cur = a +:+ b → b ≠ EmptyString →
          Py.strip_prefix sep (b +:+ s) = None) →
  (0 < skip → cur = EmptyString) →
  Forall (λ piece, ¬ occurs_in sep piece) (Py.split_go sep skip cur s).
Proof.
  intros Hsep. revert skip cur.
  assert (∀ cur s,
            (∀ a b, String.rev cur = a +:+ b → b ≠ EmptyString →
                    Py.strip_prefix sep (b +:+ s) = None) →
            ¬ occurs_in sep (String.rev cur)) as Hpiece.
  { intros cur0 s0 Hcur (pre & post & Heq).
    specialize (Hcur pre (sep +:+ post) Heq).
    rewrite string_app_assoc in Hcur.
    assert (Py.strip_prefix sep (sep +:+ post +:+ s0) = Some (post +:+ s0))
      as Hmatch by by apply strip_prefix_Some.
    rewrite Hcur in Hmatch; [done|]. by destruct sep. }
  induction s as [|c s IH]; intros skip cur Hcur Hskip; simpl.
  - constructor; [|done]. by eapply Hpiece.
  - destruct skip as [|k].
    + destruct (Py.strip_prefix sep (String c s)) as [rest|] eqn:Hmatch.
      * constructor; [by eapply Hpiece|].
        apply IH.
        -- intros a b Heq Hb. change (String.rev EmptyString) with EmptyString in Heq.
           destruct a; [|done]. rewrite app_empty in Heq. by subst b.
        -- done.
      * apply IH; [|lia].
        intros a b Heq Hb. rewrite rev_String in Heq.
        apply string_snoc_inv in Heq as [->|(b0 & -> & Heq)]; [done|].
        rewrite string_app_assoc, app_String, app_empty.
        destruct b0 as [|y b0].
        -- by rewrite app_empty.
        -- apply (Hcur a (String y b0) Heq). done.
    + rewrite (Hskip ltac:(lia)). apply IH.
      * intros a b Heq Hb. change (String.rev EmptyString) with EmptyString in Heq.
        destruct a; [|done]. rewrite app_empty in Heq. by subst b.
      * done.
Qed.

Lemma split_pieces sep s :
  sep ≠ EmptyString →
  Forall (λ piece, ¬ occurs_in sep piece) (Py.split sep s).
Proof.
  intros Hsep. apply split_go_pieces; [done| |lia].
  intros a b Heq Hb. change (String.rev EmptyString) with EmptyString in Heq.
  destruct a; [|done]. rewrite app_empty in Heq. by subst b.
Qed.

(** X19: the agents of an [author], [publisher] or [editor] cell.  A cell
    that is missing or empty has no list of agents; a cell with a text has
    at least one agent, each made from one piece of the text, in order: the
    pieces joined with ["; "] are the text, and no piece holds ["; "]. *)
Theorem agent_field_items (value : option string) :
  (falsy value = true → MetadataRow._parse_agent_field value = None)
  ∧ (∀ s, value = Some s → s ≠ EmptyString →
       ∃ agents,
         MetadataRow._parse_agent_field value = Some agents
         ∧ agents ≠ []
         ∧ agents = AgentItem.__init__ <$> Py.split "; " s
         ∧ AgentItem.__str__ <$> agents = Py.split "; " s
         ∧ Py.join "; " (AgentItem.__str__ <$> agents) = s
         ∧ Forall (λ agent, ¬ occurs_in "; " (AgentItem.__str__ agent)) agents).
Proof.
  split.
  - destruct value as [s|]; [|done]. simpl. by intros ->.
  - intros s -> Hs. unfold MetadataRow._parse_agent_field. simpl.
    rewrite bool_decide_eq_false_2 by done.
    assert (AgentItem.__str__ <$> (AgentItem.__init__ <$> Py.split "; " s)
            = Py.split "; " s) as Hstr.
    { rewrite <-list_fmap_compose. by rewrite list_fmap_id. }
    eexists. split_and!; [done| |done|done| |].
    + intros Hnil%fmap_nil_inv. by apply split_go_nonempty in Hnil.
    + rewrite Hstr. by apply join_split.
    + apply Forall_fmap. eapply Forall_impl; [by apply (split_pieces "; ")|].
      done.
Qed.

Lemma agent_field_items_witness :
  ∃ agents,
    MetadataRow._parse_agent_field (Some "Smith, J. [orcid:0000-0001]; Doe, A.;B")
    = Some agents
    ∧ AgentItem.__str__ <$> agents = ["Smith, J. [orcid:0000-0001]"; "Doe, A.;B"]
    ∧ Forall (λ agent, ¬ occurs_in "; " (AgentItem.__str__ agent)) agents.
Proof.
  destruct (proj2 (agent_field_items (Some "Smith, J. [orcid:0000-0001]; Doe, A.;B"))
              "Smith, J. [orcid:0000-0001]; Doe, A.;B" eq_refl)
    as (agents & Hagents & _ & _ & Hstr & _ & Hpieces); [discriminate|].
  exists agents. split; [exact Hagents|]. split; [exact Hstr|exact Hpieces].
Defined.
